(** * Region/label synchronisation engine of the editor canvas

    A shallow embedding of [src/react/components/pages/editorPage/canvas.tsx]
    (class [Canvas]) and the properties of its specification.

    - JavaScript numbers are IEEE-754 binary64 values: Rocq's primitive
      [float]s, with [Number::toString], [parseFloat] and [Math.round]
      written out after ECMA-262 (module [JS]).
    - Region ids are strings, the order index is an array of string-keyed
      maps ([gmap string Z]), the component's fields and React state are
      one record ([Canvas]) threaded through every method.
    - [setState] is taken to commit at the call; notifications to the
      parent component ([onAssetMetadataChanged], [onSelectedRegionsChanged])
      and [feature.changed()] repaint requests carry no state and are left
      out. *)

From stdpp Require Import gmap strings list sorting.
From Stdlib Require Import ZArith List String Ascii Bool Lia Permutation.
From Stdlib Require Import Floats.
Import ListNotations.

#[local] Set Warnings "-inexact-float".

Local Open Scope string_scope.
Local Open Scope Z_scope.

(* ===================================================================== *)
(** * The JavaScript runtime the component relies on                      *)
(* ===================================================================== *)

Module JS.

(** ** Strings *)

(** [s.split(sep)] for a one-character separator: always at least one
    piece, the pieces never hold the separator. *)
Fixpoint split (sep : ascii) (s : string) : list string :=
  match s with
  | EmptyString => [EmptyString]
  | String c rest =>
      if Ascii.eqb c sep then EmptyString :: split sep rest
      else match split sep rest with
           | [] => [String c EmptyString]
           | piece :: pieces => String c piece :: pieces
           end
  end.

(** [pieces.join(sep)] on an array of strings. *)
Fixpoint join (sep : string) (pieces : list string) : string :=
  match pieces with
  | [] => EmptyString
  | [p] => p
  | p :: rest => p ++ sep ++ join sep rest
  end.

Definition is_digit (c : ascii) : bool :=
  let n := nat_of_ascii c in (48 <=? n)%nat && (n <=? 57)%nat.

Definition digit_value (c : ascii) : Z := Z.of_nat (nat_of_ascii c) - 48.

Definition digit_char (d : Z) : ascii := ascii_of_nat (48 + Z.to_nat d).

(** Decimal digits of a non-negative integer, most significant first. *)
Fixpoint digits_onto (fuel : nat) (n : Z) (acc : string) : string :=
  match fuel with
  | O => acc
  | S fuel' =>
      let acc' := String (digit_char (n mod 10)) acc in
      if n <? 10 then acc' else digits_onto fuel' (n / 10) acc'
  end.

Definition decimal (n : Z) : string :=
  digits_onto (S (Z.to_nat (Z.log2 n))) n EmptyString.

(** The integer a string of decimal digits denotes (0 for no digit). *)
Fixpoint digits_value_from (acc : Z) (s : string) : Z :=
  match s with
  | EmptyString => acc
  | String c rest => digits_value_from (10 * acc + digit_value c) rest
  end.

Definition digits_value (s : string) : Z := digits_value_from 0 s.

(** The longest run of decimal digits at the head of [s], and what follows. *)
Fixpoint span_digits (s : string) : string * string :=
  match s with
  | EmptyString => (EmptyString, EmptyString)
  | String c rest =>
      if is_digit c then
        let (ds, tl) := span_digits rest in (String c ds, tl)
      else (EmptyString, s)
  end.

(** ToString of an integral Number (page numbers, counts). *)
Definition integerToString (n : Z) : string :=
  if n <? 0 then String "-" (decimal (- n)) else decimal n.

(** ** Numbers: from a decimal numeral to the nearest binary64 value *)

(** The binary64 value nearest to [m * 10^e] (ties to even), [m > 0];
    a numeral beyond the format's range is decided without building
    the power of ten. *)
Definition decimal_to_float (neg : bool) (m : Z) (e : Z) : float :=
  if m <=? 0 then (if neg then neg_zero else zero)
  else if 400 <? e then (if neg then neg_infinity else infinity)
  else if 0 <=? e then
    SF2Prim (binary_normalize prec emax (if neg then - (m * 10 ^ e) else m * 10 ^ e) 0 neg)
  else if e + Z.log2 m <? -1100 then (if neg then neg_zero else zero)
  else
    let '(q, e', l) := SFdiv_core_binary prec emax m 0 (10 ^ (- e)) 0 in
    SF2Prim (binary_round_aux prec emax neg q e' l).

(** ** [parseFloat] (ECMA-262 19.2.4) *)

(** White space among the code units below 256, the characters of a
    [string] here. *)
Definition is_white_space (c : ascii) : bool :=
  let n := nat_of_ascii c in
  (n =? 32)%nat || ((9 <=? n)%nat && (n <=? 13)%nat) || (n =? 160)%nat.

Fixpoint trimStart (s : string) : string :=
  match s with
  | EmptyString => EmptyString
  | String c rest => if is_white_space c then trimStart rest else s
  end.

(** An optional sign: whether it is [-], and the rest. *)
Definition take_sign (s : string) : bool * string :=
  match s with
  | String c rest =>
      if Ascii.eqb c "-" then (true, rest)
      else if Ascii.eqb c "+" then (false, rest)
      else (false, s)
  | EmptyString => (false, s)
  end.

(** The digits after a decimal point, when the point is there. *)
Definition take_fraction (s : string) : string * string :=
  match s with
  | String c rest => if Ascii.eqb c "." then span_digits rest else (EmptyString, s)
  | EmptyString => (EmptyString, s)
  end.

(** The value of an exponent part [e[+-]digits]; 0 when there is none
    (an [e] that no digit follows is not part of the numeral). *)
Definition take_exponent (s : string) : Z :=
  match s with
  | String c rest =>
      if Ascii.eqb c "e" || Ascii.eqb c "E" then
        let (eneg, rest') := take_sign rest in
        let (ds, _) := span_digits rest' in
        match ds with
        | EmptyString => 0
        | _ => if eneg then - digits_value ds else digits_value ds
        end
      else 0
  | EmptyString => 0
  end.

Definition parseFloat (input : string) : float :=
  let (neg, s) := take_sign (trimStart input) in
  if String.prefix "Infinity" s then (if neg then neg_infinity else infinity)
  else
    let (ip, s1) := span_digits s in
    let (fp, s2) := take_fraction s1 in
    match ip ++ fp with
    | EmptyString => nan
    | ds =>
        decimal_to_float neg (digits_value ds)
          (take_exponent s2 - Z.of_nat (String.length fp))
    end.

(** ** [Number::toString] (ECMA-262 6.1.6.1.20), radix 10 *)

(** [n] with [10^(n-1) <= num/den < 10^n]. *)
Fixpoint scale_up (fuel : nat) (num den : Z) (j : Z) : Z :=
  match fuel with
  | O => j
  | S fuel' => if den <=? num * 10 ^ j then j else scale_up fuel' num den (j + 1)
  end.

Definition decimal_exponent (num den : Z) : Z :=
  if den <=? num then Z.of_nat (String.length (decimal (num / den)))
  else 1 - scale_up 400 num den 1.

(** The two [k]-digit numerals around [num/den], below and above, both
    to be read with the exponent [n - k]. *)
Definition candidates (num den n k : Z) : list Z :=
  let lo := if n <=? k then (num * 10 ^ (k - n)) / den
            else num / (den * 10 ^ (n - k)) in
  [lo; lo + 1].

(** The distance of [s * 10^(n-k)] to [num/den], over a denominator that
    does not depend on [s]. *)
Definition distance (num den n k s : Z) : Z :=
  if n <=? k then Z.abs (s * den - num * 10 ^ (k - n))
  else Z.abs (s * 10 ^ (n - k) * den - num).

Definition reads_back (x : float) (n k s : Z) : bool :=
  match (decimal_to_float false s (n - k) ?= x)%float with
  | FEq => true
  | _ => false
  end.

(** The upper candidate may be [10^k], which is written with [k] digits
    one decimal place higher. *)
Definition normalise (n k s : Z) : Z * Z * Z :=
  if s =? 10 ^ k then (10 ^ (k - 1), n + 1, k) else (s, n, k).

(** Shortest digits: the least [k] for which a [k]-digit numeral reads
    back as [x]; of two such numerals the nearer one, the even one when
    they are equally near. The result is (digits, n, k). *)
Fixpoint shortest (fuel : nat) (x : float) (num den n k : Z) : Z * Z * Z :=
  match fuel with
  | O => (num / den, n, k)
  | S fuel' =>
      match filter (reads_back x n k) (candidates num den n k) with
      | [] => shortest fuel' x num den n (k + 1)
      | [s] => normalise n k s
      | s1 :: s2 :: _ =>
          match distance num den n k s1 ?= distance num den n k s2 with
          | Lt => normalise n k s1
          | Gt => normalise n k s2
          | Eq => normalise n k (if Z.even s1 then s1 else s2)
          end
      end
  end.

Definition zeros (n : Z) : string :=
  string_of_list_ascii (repeat "0"%char (Z.to_nat n)).

Definition head_tail (s : string) : string * string :=
  match s with
  | EmptyString => (EmptyString, EmptyString)
  | String c rest => (String c EmptyString, rest)
  end.

(** Steps 6-10 of Number::toString on the digits [s] ([k] of them) and
    the decimal exponent [n]. *)
Definition layout (s n k : Z) : string :=
  let ds := decimal s in
  if (k <=? n) && (n <=? 21) then ds ++ zeros (n - k)
  else if (0 <? n) && (n <=? 21) then
    substring 0 (Z.to_nat n) ds ++ "." ++ substring (Z.to_nat n) (Z.to_nat (k - n)) ds
  else if (-6 <? n) && (n <=? 0) then "0." ++ zeros (- n) ++ ds
  else
    let e := n - 1 in
    let etext := (if e <? 0 then "-" else "+") ++ decimal (Z.abs e) in
    let (d1, drest) := head_tail ds in
    if k =? 1 then ds ++ "e" ++ etext
    else d1 ++ "." ++ drest ++ "e" ++ etext.

Definition numberToString (x : float) : string :=
  match Prim2SF x with
  | S754_nan => "NaN"
  | S754_zero _ => "0"
  | S754_infinity neg => if neg then "-Infinity" else "Infinity"
  | S754_finite neg m e =>
      let num := if 0 <=? e then Zpos m * 2 ^ e else Zpos m in
      let den := if 0 <=? e then 1 else 2 ^ (- e) in
      let n := decimal_exponent num den in
      let '(s, n', k) := shortest 20 (abs x) num den n 1 in
      (if neg then "-" else "") ++ layout s n' k
  end.

(** ** [Math.round], [Math.min], [Math.max] *)

Definition of_Z (n : Z) : float :=
  if n <? 0 then (- of_uint63 (Uint63.of_Z (- n)))%float
  else of_uint63 (Uint63.of_Z n).

(** [Math.round]: the integer nearest to [x], halves towards +infinity;
    NaN, the infinities, the zeros and integers are returned as they are,
    and a negative [x] that rounds to zero gives -0. *)
Definition Math_round (x : float) : float :=
  match Prim2SF x with
  | S754_finite neg m e =>
      if 0 <=? e then x
      else
        let v := if neg then Zneg m else Zpos m in
        let r := (2 * v + 2 ^ (- e)) / 2 ^ (- e + 1) in
        if r =? 0 then (if neg then neg_zero else zero) else of_Z r
  | _ => x
  end.

Definition min2 (a b : float) : float :=
  if is_nan a || is_nan b then nan
  else if (a <? b)%float then a
  else if (b <? a)%float then b
  else if get_sign a then a else b.

Definition max2 (a b : float) : float :=
  if is_nan a || is_nan b then nan
  else if (a <? b)%float then b
  else if (b <? a)%float then a
  else if get_sign a then b else a.

(** [Math.min(...values)] and [Math.max(...values)]. *)
Definition Math_min (values : list float) : float := fold_left min2 values infinity.
Definition Math_max (values : list float) : float := fold_left max2 values neg_infinity.

(** [array[i]] followed by arithmetic: a missing element is [undefined],
    which every arithmetic operator turns into NaN. *)
Definition number_at (values : list float) (i : nat) : float := nth i values nan.

(** ** Arrays and Sets *)

(** [Array.from(new Set(values))]: the distinct values, each at its first
    occurrence. *)
Fixpoint Set_onto {A : Type} `{EqDecision A} (seen : list A) (values : list A) : list A :=
  match values with
  | [] => []
  | v :: rest =>
      if bool_decide (v ∈ seen) then Set_onto seen rest
      else v :: Set_onto (v :: seen) rest
  end.

Definition Set_of {A : Type} `{EqDecision A} (values : list A) : list A :=
  Set_onto [] values.

(** [array.findIndex(p)]: the first index whose element satisfies [p],
    or -1. *)
Fixpoint findIndex {A : Type} (p : A -> bool) (l : list A) : Z :=
  match l with
  | [] => -1
  | a :: rest =>
      if p a then 0
      else match findIndex p rest with
           | Z.neg _ => -1
           | i => i + 1
           end
  end.

(** [array.splice(start, 1)]: drops the element at [start]; a negative
    [start] counts from the end of the array (and not before its head). *)
Definition splice1 {A : Type} (start : Z) (l : list A) : list A :=
  let len := Z.of_nat (List.length l) in
  let from := if start <? 0 then Z.max (len + start) 0 else Z.min start len in
  (take (Z.to_nat from) l ++ drop (S (Z.to_nat from)) l)%list.

(** [array[i] = v]: writing past the end extends the array with holes,
    a negative [i] names a property that is no element. *)
Fixpoint array_set {A : Type} (i : nat) (v : A) (arr : list (option A)) : list (option A) :=
  match i, arr with
  | O, [] => [Some v]
  | O, _ :: rest => Some v :: rest
  | S i', [] => None :: array_set i' v []
  | S i', slot :: rest => slot :: array_set i' v rest
  end.

End JS.

(* ===================================================================== *)
(** * Data model                                                          *)
(* ===================================================================== *)

(** [RegionType]: the canvas only ever produces polygons. *)
Inductive RegionType := Polygon.

Record IBoundingBox := {
  left : float;
  top : float;
  width : float;
  height : float;
}.

Record IPoint := { x : float; y : float }.

(** [IRegion]. Ids are produced by [createRegionIdFromBoundingBox] below:
    coordinates, a colon, the page. *)
Record IRegion := {
  id : string;
  type : RegionType;
  tags : list string;
  boundingBox : IBoundingBox;
  points : list IPoint;
  value : string;
  pageNumber : Z;
}.

(** [IFormRegion], [ILabel] ([key] is always null here), [ILabelData].
    The arrays are arrays by their declared types; the presence tests the
    canvas makes on them ([if (labelData.labels)], [if (label.value)],
    [if (formRegion.boundingBoxes)]) always pass. *)
Record IFormRegion := {
  page : Z;
  text : string;
  boundingBoxes : list (list float);
}.

Record ILabel := {
  label : string;
  key : option (list IFormRegion);
  label_value : list IFormRegion;
}.

Record ILabelData := {
  document : string;
  labels : list ILabel;
}.

(** The OCR service's answer ([ocr : any] in the component; the fields
    the component tests for presence are optional here). *)
Record OcrWord := {
  word_text : string;
  word_boundingBox : list float;
}.

Record OcrLine := { words : option (list OcrWord) }.

Record OcrReadResult := {
  ocr_page : Z;
  ocr_width : float;
  ocr_height : float;
  lines : option (list OcrLine);
}.

Record AnalyzeResult := { readResults : option (list OcrReadResult) }.

Record OcrResponse := {
  recognitionResults : option (list OcrReadResult);
  analyzeResult : option AnalyzeResult;
}.

(** [state.ocrForCurrentPage]: the empty object [{}], a page of the read
    results, or [undefined] when the read results have no such page. *)
Inductive OcrForPage :=
  | EmptyObject
  | UndefinedPage
  | ReadResult (r : OcrReadResult).

(** An OpenLayers feature as the canvas builds it: the polygon's ring and
    the property bag ([feature.getId()] is the [id] property). *)
Record Feature := {
  geometry : list (float * float);
  feature_id : string;
  feature_text : string;
  boundingbox : option (list float);
  highlighted : bool;
  isOcrProposal : bool;
}.

(** [IRegionOrder] *)
Record IRegionOrder := { order_page : Z; order : Z }.

(** A page of a multi-page asset once rendered: the data URL of the
    canvas and its pixel size (pdf.js and the TIFF decoder are external). *)
Record PageImage := {
  page_uri : string;
  page_width : float;
  page_height : float;
}.

(** The component: its React state ([currentAsset], [imageUri], ...,
    [errorMessage]; [ocrStatus] drives a spinner only) and its private
    fields ([imageMap], [selectedRegionIds], [regionOrders]). An element of
    [regionOrders] is an object used as a map from region ids to ranks
    (no id is a property name objects inherit: every id holds a colon);
    an array element never written is a hole, [None]. *)
Record Canvas := {
  asset_id : string;
  asset_name : string;
  regions : list IRegion;
  labelData : option ILabelData;
  imageUri : option string;
  imageWidth : float;
  imageHeight : float;
  numPages : Z;
  currentPage : Z;
  ocr : option OcrResponse;
  ocrForCurrentPage : OcrForPage;
  pdfFile : option (list PageImage);
  tiffImages : list PageImage;
  isError : bool;
  errorTitle : option string;
  errorMessage : option string;
  imageMap : option (list Feature);
  selectedRegionIds : list string;
  regionOrders : list (option (gmap string Z));
}.

(** A method that may throw: the state it leaves behind either way. *)
Inductive Outcome :=
  | Completed (c : Canvas)
  | Threw (c : Canvas).

Definition and_then (o : Outcome) (k : Canvas -> Outcome) : Outcome :=
  match o with
  | Completed c => k c
  | Threw c => Threw c
  end.

(** Field updates ([setState] and assignments to the private fields). *)
Definition set_asset (rs : list IRegion) (ld : option ILabelData) (c : Canvas) : Canvas :=
  {| asset_id := asset_id c; asset_name := asset_name c;
     regions := rs; labelData := ld;
     imageUri := imageUri c; imageWidth := imageWidth c;
     imageHeight := imageHeight c; numPages := numPages c;
     currentPage := currentPage c; ocr := ocr c;
     ocrForCurrentPage := ocrForCurrentPage c;
     pdfFile := pdfFile c; tiffImages := tiffImages c;
     isError := isError c; errorTitle := errorTitle c;
     errorMessage := errorMessage c; imageMap := imageMap c;
     selectedRegionIds := selectedRegionIds c;
     regionOrders := regionOrders c |}.

Definition set_selectedRegionIds (ids : list string) (c : Canvas) : Canvas :=
  {| asset_id := asset_id c; asset_name := asset_name c;
     regions := regions c; labelData := labelData c;
     imageUri := imageUri c; imageWidth := imageWidth c;
     imageHeight := imageHeight c; numPages := numPages c;
     currentPage := currentPage c; ocr := ocr c;
     ocrForCurrentPage := ocrForCurrentPage c;
     pdfFile := pdfFile c; tiffImages := tiffImages c;
     isError := isError c; errorTitle := errorTitle c;
     errorMessage := errorMessage c; imageMap := imageMap c;
     selectedRegionIds := ids;
     regionOrders := regionOrders c |}.

Definition set_imageMap (fs : option (list Feature)) (c : Canvas) : Canvas :=
  {| asset_id := asset_id c; asset_name := asset_name c;
     regions := regions c; labelData := labelData c;
     imageUri := imageUri c; imageWidth := imageWidth c;
     imageHeight := imageHeight c; numPages := numPages c;
     currentPage := currentPage c; ocr := ocr c;
     ocrForCurrentPage := ocrForCurrentPage c;
     pdfFile := pdfFile c; tiffImages := tiffImages c;
     isError := isError c; errorTitle := errorTitle c;
     errorMessage := errorMessage c; imageMap := fs;
     selectedRegionIds := selectedRegionIds c;
     regionOrders := regionOrders c |}.

Definition set_regionOrders (orders : list (option (gmap string Z))) (c : Canvas) : Canvas :=
  {| asset_id := asset_id c; asset_name := asset_name c;
     regions := regions c; labelData := labelData c;
     imageUri := imageUri c; imageWidth := imageWidth c;
     imageHeight := imageHeight c; numPages := numPages c;
     currentPage := currentPage c; ocr := ocr c;
     ocrForCurrentPage := ocrForCurrentPage c;
     pdfFile := pdfFile c; tiffImages := tiffImages c;
     isError := isError c; errorTitle := errorTitle c;
     errorMessage := errorMessage c; imageMap := imageMap c;
     selectedRegionIds := selectedRegionIds c;
     regionOrders := orders |}.

Definition set_error (message : string) (c : Canvas) : Canvas :=
  {| asset_id := asset_id c; asset_name := asset_name c;
     regions := regions c; labelData := labelData c;
     imageUri := imageUri c; imageWidth := imageWidth c;
     imageHeight := imageHeight c; numPages := numPages c;
     currentPage := currentPage c; ocr := ocr c;
     ocrForCurrentPage := ocrForCurrentPage c;
     pdfFile := pdfFile c; tiffImages := tiffImages c;
     isError := true; errorTitle := errorTitle c;
     errorMessage := Some message; imageMap := imageMap c;
     selectedRegionIds := selectedRegionIds c;
     regionOrders := regionOrders c |}.

Definition set_ocrForCurrentPage (o : OcrForPage) (c : Canvas) : Canvas :=
  {| asset_id := asset_id c; asset_name := asset_name c;
     regions := regions c; labelData := labelData c;
     imageUri := imageUri c; imageWidth := imageWidth c;
     imageHeight := imageHeight c; numPages := numPages c;
     currentPage := currentPage c; ocr := ocr c;
     ocrForCurrentPage := o;
     pdfFile := pdfFile c; tiffImages := tiffImages c;
     isError := isError c; errorTitle := errorTitle c;
     errorMessage := errorMessage c; imageMap := imageMap c;
     selectedRegionIds := selectedRegionIds c;
     regionOrders := regionOrders c |}.

(** The [setState] of [loadPdfPage] and [loadTiffPage]: the rendered page,
    the page count, the page shown and the document handles. *)
Definition set_page (img : PageImage) (pages current : Z)
    (pdf : option (list PageImage)) (tiffs : list PageImage) (c : Canvas) : Canvas :=
  {| asset_id := asset_id c; asset_name := asset_name c;
     regions := regions c; labelData := labelData c;
     imageUri := Some (page_uri img); imageWidth := page_width img;
     imageHeight := page_height img; numPages := pages;
     currentPage := current; ocr := ocr c;
     ocrForCurrentPage := ocrForCurrentPage c;
     pdfFile := pdf; tiffImages := tiffs;
     isError := isError c; errorTitle := errorTitle c;
     errorMessage := errorMessage c; imageMap := imageMap c;
     selectedRegionIds := selectedRegionIds c;
     regionOrders := regionOrders c |}.

(* ===================================================================== *)
(** * Coordinate transform and region identity                            *)
(* ===================================================================== *)

(** [for (let i = 0; i < boundingBox.length; i += 2)] reading
    [boundingBox[i]] and [boundingBox[i + 1]]: the flat array taken two
    at a time; the last vertex of an odd-length array has an undefined
    ordinate, NaN in arithmetic. *)
Fixpoint vertex_pairs (boundingBox : list float) : list (float * float) :=
  match boundingBox with
  | [] => []
  | [bx] => [(bx, nan)]
  | bx :: by_ :: rest => (bx, by_) :: vertex_pairs rest
  end.

(** The extent of an array [[minx, miny, maxx, maxy]]. *)
Definition extent_width (extent : list float) : float :=
  (JS.number_at extent 2 - JS.number_at extent 0)%float.

Definition extent_height (extent : list float) : float :=
  (JS.number_at extent 3 - JS.number_at extent 1)%float.

Definition createRegionIdFromBoundingBox (boundingBox : list float) (page : Z) : string :=
  JS.join "," (map JS.numberToString boundingBox) ++ ":" ++ JS.integerToString page.

Definition createBoundingBoxVectorFeature (text : string) (boundingBox : list float)
    (imageExtent ocrExtent : list float) (page : Z) : Feature :=
  let imageWidth := extent_width imageExtent in
  let imageHeight := extent_height imageExtent in
  let ocrWidth := extent_width ocrExtent in
  let ocrHeight := extent_height ocrExtent in
  let coordinates :=
    map (fun v => (JS.Math_round ((fst v / ocrWidth) * imageWidth)%float,
                   JS.Math_round ((1 - (snd v / ocrHeight)) * imageHeight)%float))
        (vertex_pairs boundingBox) in
  let polygonPoints :=
    flat_map (fun v => [(fst v / ocrWidth)%float; (snd v / ocrHeight)%float])
             (vertex_pairs boundingBox) in
  let featureId := createRegionIdFromBoundingBox polygonPoints page in
  {| geometry := coordinates;
     feature_id := featureId;
     feature_text := text;
     boundingbox := Some boundingBox;
     highlighted := false;
     isOcrProposal := true |}.

(** [regionId.split(",").map(parseFloat)]: the page suffix stays on the
    last piece, where [parseFloat] stops at the colon. *)
Definition decodeRegionId (regionId : string) : list float :=
  map JS.parseFloat (JS.split "," regionId).

Definition convertRegionToFeature (region : IRegion) (imageExtent : list float)
    (isOcrProposal : bool) : Feature :=
  let boundingBox := decodeRegionId (id region) in
  let imageWidth := extent_width imageExtent in
  let imageHeight := extent_height imageExtent in
  {| geometry :=
       map (fun v => (JS.Math_round (fst v * imageWidth)%float,
                      JS.Math_round ((1 - snd v) * imageHeight)%float))
           (vertex_pairs boundingBox);
     feature_id := id region;
     feature_text := value region;
     boundingbox := None;
     highlighted := false;
     isOcrProposal := isOcrProposal |}.

(** Elements at even, respectively odd, indices. *)
Fixpoint even_indices {A : Type} (l : list A) : list A :=
  match l with
  | [] => []
  | [a] => [a]
  | a :: _ :: rest => a :: even_indices rest
  end.

Definition odd_indices {A : Type} (l : list A) : list A :=
  match l with
  | [] => []
  | _ :: rest => even_indices rest
  end.

Definition convertToRegionBoundingBox (polygon : list float) : IBoundingBox :=
  let xAxisValues := even_indices polygon in
  let yAxisValues := odd_indices polygon in
  let left := JS.Math_min xAxisValues in
  let top := JS.Math_min yAxisValues in
  let right := JS.Math_max xAxisValues in
  let bottom := JS.Math_max yAxisValues in
  {| height := (bottom - top)%float;
     width := (right - left)%float;
     left := left;
     top := top |}.

Definition convertToRegionPoints (polygon : list float) : list IPoint :=
  map (fun v => {| x := fst v; y := snd v |}) (vertex_pairs polygon).

Definition createRegion (boundingBox : list float) (text tagName : string)
    (pangeNumber : Z) : IRegion :=
  {| id := createRegionIdFromBoundingBox boundingBox pangeNumber;
     type := Polygon;
     tags := [tagName];
     boundingBox := convertToRegionBoundingBox boundingBox;
     points := convertToRegionPoints boundingBox;
     value := text;
     pageNumber := pangeNumber |}.

(* ===================================================================== *)
(** * Region order index                                                  *)
(* ===================================================================== *)

(** The run of underscores at the head of [s]: its length and what follows. *)
Fixpoint skip_underscores (s : string) : nat * string :=
  match s with
  | String c rest =>
      if Ascii.eqb c "_" then let (n, tl) := skip_underscores rest in (S n, tl)
      else (O, s)
  | EmptyString => (O, s)
  end.

(** [text.match(/^[_]+$/)]: from the start, one or more underscores, then
    the end of the text. *)
Definition matches_placeholder (text : string) : bool :=
  let (n, tl) := skip_underscores text in
  (0 <? n)%nat && match tl with EmptyString => true | _ => false end.

Definition shouldDisplayOcrWord (text : string) : bool :=
  negb (matches_placeholder text).

(** Modelled from the spec: ImageMap.getImageExtent, of the vector-feature
    surface the canvas draws on. The surface shows the image the canvas
    hands it ([imageWidth], [imageHeight] of the state) with its origin at
    the bottom left. *)
Definition getImageExtent (c : Canvas) : list float :=
  [0%float; 0%float; imageWidth c; imageHeight c].

(** One word of [buildRegionOrders]' inner loop: the page's index so far
    and the next rank. *)
Definition index_word (imageExtent ocrExtent : list float) (page : Z)
    (st : gmap string Z * Z) (word : OcrWord) : gmap string Z * Z :=
  if shouldDisplayOcrWord (word_text word) then
    let feature :=
      createBoundingBoxVectorFeature (word_text word) (word_boundingBox word)
        imageExtent ocrExtent page in
    (<[feature_id feature := snd st]> (fst st), snd st + 1)
  else st.

Definition index_line (imageExtent ocrExtent : list float) (page : Z)
    (st : gmap string Z * Z) (line : OcrLine) : gmap string Z * Z :=
  match words line with
  | Some ws => fold_left (index_word imageExtent ocrExtent page) ws st
  | None => st
  end.

(** The index of one page: the object written to [regionOrders[ocr.page - 1]]. *)
Definition index_page (imageExtent : list float) (ocr : OcrReadResult) : gmap string Z :=
  let ocrExtent := [0%float; 0%float; ocr_width ocr; ocr_height ocr] in
  match lines ocr with
  | Some ls => fst (fold_left (index_line imageExtent ocrExtent (ocr_page ocr)) ls (∅, 0))
  | None => ∅
  end.

Definition index_pages (imageExtent : list float)
    (orders : list (option (gmap string Z))) (ocrResults : list OcrReadResult)
    : list (option (gmap string Z)) :=
  fold_left
    (fun orders ocr =>
       if ocr_page ocr - 1 <? 0 then orders
       else JS.array_set (Z.to_nat (ocr_page ocr - 1)) (index_page imageExtent ocr) orders)
    ocrResults orders.

Definition ocrResults_of (ocrs : OcrResponse) : option (list OcrReadResult) :=
  match recognitionResults ocrs with
  | Some results => Some results
  | None => match analyzeResult ocrs with
            | Some a => readResults a
            | None => None
            end
  end.

Definition buildRegionOrders (c : Canvas) : Outcome :=
  match ocr c with
  | None => Threw c
  | Some ocrs =>
      match imageMap c with
      | None => Threw c
      | Some _ =>
          match ocrResults_of ocrs with
          | None => Threw c
          | Some ocrResults =>
              Completed
                (set_regionOrders
                   (index_pages (getImageExtent c) (regionOrders c) ocrResults) c)
          end
      end
  end.

(** [regionOrders.some(...)]: the first page, holes skipped, whose index
    holds [regionId]. *)
Fixpoint find_order (regionId : string) (pageNumber : Z)
    (orders : list (option (gmap string Z))) : option IRegionOrder :=
  match orders with
  | [] => None
  | slot :: rest =>
      match slot ≫= (fun regions => regions !! regionId) with
      | Some o => Some {| order_page := pageNumber + 1; order := o |}
      | None => find_order regionId (pageNumber + 1) rest
      end
  end.

Definition getRegionOrder (c : Canvas) (regionId : string) : IRegionOrder :=
  match find_order regionId 0 (regionOrders c) with
  | Some orderInfo => orderInfo
  | None => {| order_page := 1; order := 0 |}
  end.

Definition compareRegionOrder (c : Canvas) (r1 r2 : IRegion) : Z :=
  let order1 := getRegionOrder c (id r1) in
  let order2 := getRegionOrder c (id r2) in
  if order_page order1 =? order_page order2 then
    (if order2.(order) <? order1.(order) then 1 else -1)
  else if order_page order2 <? order_page order1 then 1
  else -1.

(* ===================================================================== *)
(** * Label / region mapper                                               *)
(* ===================================================================== *)

Definition getBoundingBoxTextFromRegion (formRegion : IFormRegion)
    (boundingBoxIndex : nat) : string :=
  let regionValues := JS.split " " (text formRegion) in
  if (boundingBoxIndex <? List.length regionValues)%nat
  then nth boundingBoxIndex regionValues EmptyString
  else EmptyString.

Definition convertLabelDataToRegions (labelData : ILabelData) : list IRegion :=
  flat_map
    (fun label_ =>
       flat_map
         (fun formRegion =>
            imap (fun boundingBoxIndex boundingBox =>
                    createRegion boundingBox
                      (getBoundingBoxTextFromRegion formRegion boundingBoxIndex)
                      (label label_) (page formRegion))
                 (boundingBoxes formRegion))
         (label_value label_))
    (labels labelData).

(* ===================================================================== *)
(** * Region store and page navigation                                    *)
(* ===================================================================== *)

(** Modelled from the spec: CanvasHelpers.setSingleTag, of canvasHelpers.ts.
    Applying a tag replaces the region's tag list with that one tag. *)
Definition setSingleTag (tags : list string) (tag : string) : list string := [tag].

(** Equality of feature objects, field by field. *)
Definition float_list_eqb (a b : list float) : bool :=
  (List.length a =? List.length b)%nat
  && forallb (fun p => PrimFloat.Leibniz.eqb (fst p) (snd p)) (combine a b).

Definition Feature_eqb (f g : Feature) : bool :=
  float_list_eqb (map fst (geometry f)) (map fst (geometry g))
  && float_list_eqb (map snd (geometry f)) (map snd (geometry g))
  && String.eqb (feature_id f) (feature_id g)
  && String.eqb (feature_text f) (feature_text g)
  && match boundingbox f, boundingbox g with
     | Some a, Some b => float_list_eqb a b
     | None, None => true
     | _, _ => false
     end
  && Bool.eqb (highlighted f) (highlighted g)
  && Bool.eqb (isOcrProposal f) (isOcrProposal g).

(** Modelled from the spec: ImageMap.removeFeature, of the vector-feature
    surface. The feature handed over leaves the surface; the others stay
    as they are. *)
Fixpoint removeFeature (feature : Feature) (fs : list Feature) : list Feature :=
  match fs with
  | [] => []
  | f :: rest =>
      if Feature_eqb f feature then rest else f :: removeFeature feature rest
  end.

(** Modelled from the spec: ImageMap.addFeatures, of the vector-feature
    surface: the features join those already drawn. *)
Definition addFeatures (new : list Feature) (fs : list Feature) : list Feature :=
  (fs ++ new)%list.

Section Methods.

(** [Array.prototype.sort] and [decodeURIComponent] of the runtime. The
    comparator the canvas sorts with never answers 0, so the order of
    regions with equal keys is the engine's choice: the sort is left
    open, and no property below depends on which one it is. *)
Variable array_sort : (IRegion -> IRegion -> Z) -> list IRegion -> list IRegion.
Variable decodeURIComponent : string -> string.

Definition convertRegionsToLabelData (regions : list IRegion) (assetName : string)
    : ILabelData :=
  let fieldNames :=
    omap (fun name => name) (JS.Set_of (map (fun region => head (tags region)) regions)) in
  {| document := List.last (JS.split "/" (decodeURIComponent assetName)) EmptyString;
     labels :=
       map (fun fieldName =>
              {| label := fieldName;
                 key := None;
                 label_value :=
                   map (fun region =>
                          {| page := pageNumber region;
                             text := value region;
                             boundingBoxes := [decodeRegionId (id region)] |})
                       (filter (fun region => bool_decide (fieldName ∈ tags region)) regions) |})
           fieldNames |}.

Definition updateAssetRegions (regions : list IRegion) (c : Canvas) : Canvas :=
  set_asset regions (Some (convertRegionsToLabelData regions (asset_name c))) c.

(** [selectedRegionIds.find((id) => r.id === id)] used as a condition: the
    id found, which the empty string would make falsy. *)
Definition isSelectedRegion (c : Canvas) (r : IRegion) : bool :=
  match List.find (String.eqb (id r)) (selectedRegionIds c) with
  | Some found => negb (String.eqb found EmptyString)
  | None => false
  end.

Definition getSelectedRegions (c : Canvas) : list IRegion :=
  List.filter (isSelectedRegion c) (regions c).

Definition getIndexOfSelectedRegionIds (c : Canvas) (regionId : string) : Z :=
  JS.findIndex (fun id_ => String.eqb id_ regionId) (selectedRegionIds c).

Definition isRegionSelected (c : Canvas) (regionId : string) : bool :=
  negb (getIndexOfSelectedRegionIds c regionId =? -1).

Definition getIndexOfCurrentRegions (c : Canvas) (regionId : string) : Z :=
  JS.findIndex (fun region => String.eqb (id region) regionId) (regions c).

Definition has_id (regionId : string) (rs : list IRegion) : bool :=
  negb (JS.findIndex (fun r => String.eqb (id r) regionId) rs =? -1).

Definition addRegionsToAsset (rs : list IRegion) (c : Canvas) : Canvas :=
  let regionsToBeKept :=
    List.filter (fun assetRegion => negb (has_id (id assetRegion) rs)) (regions c) in
  updateAssetRegions (regionsToBeKept ++ rs)%list c.

Definition addRegionsToImageMap (rs : list IRegion) (c : Canvas) : Canvas :=
  match imageMap c with
  | None => c
  | Some allFeatures =>
      let regionsNotInFeatures :=
        List.filter
          (fun region =>
             JS.findIndex (fun feature => String.eqb (feature_id feature) (id region))
               allFeatures =? -1) rs in
      let imageExtent := getImageExtent c in
      let featuresToAdd :=
        map (fun region => convertRegionToFeature region imageExtent false)
            regionsNotInFeatures in
      set_imageMap (Some (addFeatures featuresToAdd allFeatures)) c
  end.

Definition addRegions (rs : list IRegion) (c : Canvas) : Canvas :=
  let c := addRegionsToAsset rs c in
  addRegionsToImageMap
    (List.filter (fun region => pageNumber region =? currentPage c) rs) c.

Definition deleteRegionsFromSelectedRegionIds (rs : list IRegion) (c : Canvas) : Canvas :=
  fold_left
    (fun c region =>
       let regionIndex := getIndexOfSelectedRegionIds c (id region) in
       if 0 <=? regionIndex
       then set_selectedRegionIds (JS.splice1 regionIndex (selectedRegionIds c)) c
       else c)
    rs c.

Definition deleteRegionsFromAsset (rs : list IRegion) (c : Canvas) : Canvas :=
  let filteredRegions :=
    List.filter (fun assetRegion => negb (has_id (id assetRegion) rs)) (regions c) in
  updateAssetRegions filteredRegions c.

Definition deleteRegionsFromImageMap (rs : list IRegion) (c : Canvas) : Canvas :=
  match imageMap c with
  | None => c
  | Some allFeatures =>
      let selectedFeatures :=
        List.filter (fun feature => has_id (feature_id feature) rs)
          (List.filter (fun feature => negb (isOcrProposal feature)) allFeatures) in
      set_imageMap
        (Some (fold_left (fun fs feature => removeFeature feature fs)
                 selectedFeatures allFeatures)) c
  end.

Definition deleteRegions (rs : list IRegion) (c : Canvas) : Canvas :=
  let c := deleteRegionsFromSelectedRegionIds rs c in
  let c := deleteRegionsFromAsset rs c in
  deleteRegionsFromImageMap rs c.

Definition onRegionDelete (regionId : string) (c : Canvas) : Canvas :=
  let currentRegions := regions c in
  let deletedRegionIndex :=
    JS.findIndex (fun region => String.eqb (id region) regionId) currentRegions in
  updateAssetRegions (JS.splice1 deletedRegionIndex currentRegions) c.

Definition removeFromSelectedRegions (regionId : string) (c : Canvas) : Canvas :=
  let iRegionId := getIndexOfSelectedRegionIds c regionId in
  if 0 <=? iRegionId then
    let region := nth_error (getSelectedRegions c) (Z.to_nat iRegionId) in
    let c :=
      match region with
      | Some r => if (List.length (tags r) =? 0)%nat then onRegionDelete regionId c else c
      | None => c
      end in
    set_selectedRegionIds (JS.splice1 iRegionId (selectedRegionIds c)) c
  else c.

Definition with_pageNumber (p : Z) (r : IRegion) : IRegion :=
  {| id := id r; type := type r; tags := tags r; boundingBox := boundingBox r;
     points := points r; value := value r; pageNumber := p |}.

Definition with_tags (ts : list string) (r : IRegion) : IRegion :=
  {| id := id r; type := type r; tags := ts; boundingBox := boundingBox r;
     points := points r; value := value r; pageNumber := pageNumber r |}.

(** An assignment to a field of the object [regions.find(p)] returns: the
    first region that satisfies [p] changes where it stands. *)
Fixpoint update_found (p : IRegion -> bool) (f : IRegion -> IRegion)
    (rs : list IRegion) : list IRegion :=
  match rs with
  | [] => []
  | r :: rest => if p r then f r :: rest else r :: update_found p f rest
  end.

Definition addToSelectedRegions (regionId text_ : string) (polygon : list float)
    (c : Canvas) : Canvas :=
  if isRegionSelected c regionId then c
  else
    let c :=
      if negb (getIndexOfCurrentRegions c regionId =? -1) then
        set_asset
          (update_found (fun region => String.eqb (id region) regionId)
             (with_pageNumber (currentPage c)) (regions c))
          (labelData c) c
      else
        addRegions
          [ {| id := regionId;
               type := Polygon;
               tags := [];
               boundingBox := convertToRegionBoundingBox polygon;
               points := convertToRegionPoints polygon;
               value := text_;
               pageNumber := currentPage c |} ] c in
    set_selectedRegionIds (selectedRegionIds c ++ [regionId])%list c.

Definition handleFeatureSelect (feature : Feature) (isToggle : bool) (c : Canvas) : Canvas :=
  let regionId := feature_id feature in
  if isToggle && isRegionSelected c regionId then removeFromSelectedRegions regionId c
  else
    let polygon := decodeRegionId regionId in
    addToSelectedRegions regionId (feature_text feature) polygon c.

Definition updateRegions (updates : list IRegion) (c : Canvas) : Canvas :=
  let regions_ := regions c in
  let updatedRegions :=
    fold_left
      (fun acc update => if has_id (id update) regions_ then acc else (acc ++ [update])%list)
      updates regions_ in
  updateAssetRegions (array_sort (compareRegionOrder c) updatedRegions) c.

Definition double_quote : string := String (ascii_of_nat 34) EmptyString.

Definition multiPageFieldWarning (tagName : string) (pageCount : Z) : string :=
  "Sorry, we don't support cross-page regions with the same tag."
  ++ " You have regions with tag " ++ double_quote ++ tagName ++ double_quote
  ++ " across " ++ JS.integerToString pageCount ++ " pages.".

(** The pages spanned by the regions whose first tag is [tagName] together
    with [rs]. *)
Definition pageCountWithTag (tagName : string) (rs : list IRegion) (c : Canvas) : Z :=
  let existedRegionsWithSameTag :=
    List.filter (fun region => String.eqb (hd EmptyString (tags region)) tagName)
      (regions c) in
  let regionsWithSameTag := (existedRegionsWithSameTag ++ rs)%list in
  Z.of_nat (List.length (JS.Set_of (map pageNumber regionsWithSameTag))).

Definition showMultiPageFieldWarningIfNecessary (tagName : string) (rs : list IRegion)
    (c : Canvas) : bool * Canvas :=
  let pageCount := pageCountWithTag tagName rs c in
  if 1 <? pageCount then (true, set_error (multiPageFieldWarning tagName pageCount) c)
  else (false, c).

(** The selected regions are objects of [state.currentAsset.regions]: the
    assignment to their [tags] shows in that array at once. *)
Definition applyTag (tag : string) (c : Canvas) : Canvas :=
  let selectedRegions := getSelectedRegions c in
  let regionsEmpty := (List.length selectedRegions =? 0)%nat in
  if String.eqb tag EmptyString || regionsEmpty then c
  else
    let (warned, c') := showMultiPageFieldWarningIfNecessary tag selectedRegions c in
    if warned then c'
    else
      let transformer := setSingleTag in
      let retag := fun r =>
        if isSelectedRegion c r then with_tags (transformer (tags r) tag) r else r in
      let c1 := set_asset (map retag (regions c)) (labelData c) c in
      let c2 := updateRegions (map retag selectedRegions) c1 in
      set_selectedRegionIds [] c2.

(** ** Page navigation *)

Definition getOcrResultForCurrentPage (o : option OcrResponse) (c : Canvas) : OcrForPage :=
  match o, imageUri c with
  | Some ocr_, Some (String _ _) =>
      match analyzeResult ocr_ ≫= readResults with
      | Some results =>
          if currentPage c - 1 <? 0 then UndefinedPage
          else match nth_error results (Z.to_nat (currentPage c - 1)) with
               | Some r => ReadResult r
               | None => UndefinedPage
               end
      | None => EmptyObject
      end
  | _, _ => EmptyObject
  end.

Definition drawOcr (c : Canvas) : Outcome :=
  match imageMap c, ocrForCurrentPage c with
  | None, _ => Threw c
  | Some _, UndefinedPage => Threw c
  | Some _, EmptyObject => Completed c
  | Some allFeatures, ReadResult ocr_ =>
      let imageExtent := getImageExtent c in
      let ocrExtent := [0%float; 0%float; ocr_width ocr_; ocr_height ocr_] in
      let features :=
        flat_map
          (fun line =>
             match words line with
             | Some ws =>
                 map (fun word =>
                        createBoundingBoxVectorFeature (word_text word)
                          (word_boundingBox word) imageExtent ocrExtent (ocr_page ocr_))
                     (List.filter (fun word => shouldDisplayOcrWord (word_text word)) ws)
             | None => []
             end)
          (match lines ocr_ with Some ls => ls | None => [] end) in
      if (0 <? List.length features)%nat
      then Completed (set_imageMap (Some (addFeatures features allFeatures)) c)
      else Completed c
  end.

Definition loadLabelData (c : Canvas) : Canvas :=
  match labelData c with
  | Some ld =>
      let regionsFromLabelData := convertLabelDataToRegions ld in
      if (0 <? List.length regionsFromLabelData)%nat
      then addRegions regionsFromLabelData c
      else c
  | None => c
  end.

(** [pdf.getPage(pageNumber)] rejects outside [1 .. pdf.numPages]. *)
Definition loadPdfPage (pdf : list PageImage) (pageNumber_ : Z) (c : Canvas) : Outcome :=
  if (1 <=? pageNumber_) && (pageNumber_ <=? Z.of_nat (List.length pdf)) then
    match nth_error pdf (Z.to_nat (pageNumber_ - 1)) with
    | Some img => Completed (set_page img (Z.of_nat (List.length pdf)) pageNumber_ (Some pdf) (tiffImages c) c)
    | None => Threw c
    end
  else Threw c.

(** [tiffImages[pageNumber - 1]] is undefined outside the array, and
    rendering it throws. *)
Definition loadTiffPage (tiffs : list PageImage) (pageNumber_ : Z) (c : Canvas) : Outcome :=
  if pageNumber_ - 1 <? 0 then Threw c
  else match nth_error tiffs (Z.to_nat (pageNumber_ - 1)) with
       | Some img => Completed (set_page img (Z.of_nat (List.length tiffs)) pageNumber_ (pdfFile c) tiffs c)
       | None => Threw c
       end.

Definition switchToTargetPage (targetPage : Z) (c : Canvas) : Outcome :=
  match pdfFile c with
  | Some pdf => loadPdfPage pdf targetPage c
  | None =>
      if negb (List.length (tiffImages c) =? 0)%nat
      then loadTiffPage (tiffImages c) targetPage c
      else Completed c
  end.

Definition goToPage (targetPage : Z) (c : Canvas) : Outcome :=
  (* if (targetPage < 1 || targetPage > this.state.numPages) { }:
     the block holds a comment and no statement *)
  let c := if (targetPage <? 1) || (numPages c <? targetPage) then c else c in
  let selectedRegions := getSelectedRegions c in
  let c := deleteRegionsFromSelectedRegionIds selectedRegions c in
  let selectedRegionsWithoutTag :=
    List.filter (fun region => (List.length (tags region) =? 0)%nat) selectedRegions in
  let c := deleteRegionsFromAsset selectedRegionsWithoutTag c in
  let c := deleteRegionsFromImageMap selectedRegionsWithoutTag c in
  and_then (switchToTargetPage targetPage c) (fun c =>
    let c := set_ocrForCurrentPage (getOcrResultForCurrentPage (ocr c) c) c in
    match imageMap c with
    | None => Threw c
    | Some _ =>
        and_then (drawOcr (set_imageMap (Some []) c)) (fun c =>
          Completed (loadLabelData c))
    end).

Definition multiPage (c : Canvas) : bool :=
  match pdfFile c with
  | Some _ => true
  | None => negb (List.length (tiffImages c) =? 0)%nat
  end.

Definition nextPage (c : Canvas) : Outcome :=
  if multiPage c && (currentPage c <? numPages c)
  then goToPage (currentPage c + 1) c
  else Completed c.

Definition prevPage (c : Canvas) : Outcome :=
  if multiPage c && (1 <? currentPage c)
  then goToPage (currentPage c - 1) c
  else Completed c.

(* ===================================================================== *)
(** * Reference instances of the runtime, and sample data                 *)
(* ===================================================================== *)

(** A stable insertion sort under a comparator, one admissible
    [Array.prototype.sort]. *)
Fixpoint insert_sorted (cmp : IRegion -> IRegion -> Z) (r : IRegion)
    (sorted : list IRegion) : list IRegion :=
  match sorted with
  | [] => [r]
  | s :: rest => if 0 <? cmp s r then r :: s :: rest else s :: insert_sorted cmp r rest
  end.

Definition insertion_sort (cmp : IRegion -> IRegion -> Z) (l : list IRegion) : list IRegion :=
  fold_left (fun sorted r => insert_sorted cmp r sorted) l [].

(** An insertion sort that puts an element ahead of the first one it
    compares below: another admissible [Array.prototype.sort], which
    turns round the elements the comparator does not tell apart. *)
Fixpoint insert_ahead (cmp : IRegion -> IRegion -> Z) (r : IRegion)
    (sorted : list IRegion) : list IRegion :=
  match sorted with
  | [] => [r]
  | s :: rest => if cmp r s <? 0 then r :: s :: rest else s :: insert_ahead cmp r rest
  end.

Definition insertion_sort_ahead (cmp : IRegion -> IRegion -> Z) (l : list IRegion)
    : list IRegion :=
  fold_left (fun sorted r => insert_ahead cmp r sorted) l [].

Definition hex_value (c : ascii) : option Z :=
  let n := Z.of_nat (nat_of_ascii c) in
  if (48 <=? n) && (n <=? 57) then Some (n - 48)
  else if (65 <=? n) && (n <=? 70) then Some (n - 55)
  else if (97 <=? n) && (n <=? 102) then Some (n - 87)
  else None.

(** [decodeURIComponent] on names whose escapes are well formed (the
    runtime throws on the others; they are left as they are here). *)
Fixpoint percent_decode (s : string) : string :=
  match s with
  | EmptyString => EmptyString
  | String c tl =>
      match Ascii.eqb c "%", tl with
      | true, String h (String l rest) =>
          match hex_value h, hex_value l with
          | Some a, Some b =>
              String (ascii_of_nat (Z.to_nat (16 * a + b))) (percent_decode rest)
          | _, _ => String c (percent_decode tl)
          end
      | _, _ => String c (percent_decode tl)
      end
  end.

(** A region as the canvas would have created it from its id. *)
Definition sample_region (regionId : string) (ts : list string) (p : Z) : IRegion :=
  {| id := regionId; type := Polygon; tags := ts;
     boundingBox := convertToRegionBoundingBox (decodeRegionId regionId);
     points := convertToRegionPoints (decodeRegionId regionId);
     value := "text"; pageNumber := p |}.

(** A single-image asset, 1000 x 2000 pixels, showing [rs] with the
    regions [sel] selected; no OCR answer and no stored label data. *)
Definition sample_canvas (rs : list IRegion) (sel : list string) : Canvas :=
  {| asset_id := "asset-1"; asset_name := "forms/invoice%201.jpg";
     regions := rs; labelData := None;
     imageUri := Some "data:image/jpeg"; imageWidth := 1000; imageHeight := 2000;
     numPages := 1; currentPage := 1;
     ocr := None; ocrForCurrentPage := EmptyObject;
     pdfFile := None; tiffImages := [];
     isError := false; errorTitle := None; errorMessage := None;
     imageMap :=
       Some (map (fun r => convertRegionToFeature r [0; 0; 1000; 2000]%float false) rs);
     selectedRegionIds := sel; regionOrders := [] |}.

Definition region_total : IRegion :=
  sample_region "0.1,0.1,0.2,0.1,0.2,0.2,0.1,0.2:1" ["Total"] 1.

Definition region_new : IRegion :=
  sample_region "0.3,0.3,0.4,0.3,0.4,0.4,0.3,0.4:2" [] 2.

Definition region_draft : IRegion :=
  sample_region "0.5,0.5,0.6,0.5,0.6,0.6,0.5,0.6:1" [] 1.

(* ===================================================================== *)
(** * Vocabulary of the properties                                        *)
(* ===================================================================== *)

(** Whether the character [c] occurs in [s]. *)
Fixpoint occurs (c : ascii) (s : string) : bool :=
  match s with
  | EmptyString => false
  | String a rest => Ascii.eqb a c || occurs c rest
  end.

(** Numeric equality of two Numbers ([==] of IEEE-754: -0 equals +0, NaN
    equals nothing). *)
Definition numerically_equal (a b : float) : Prop := (a =? b)%float = true.

(** A Number is within formatting precision when reading the text the
    runtime prints for it gives a Number equal to it. *)
Definition survives_formatting (a : float) : Prop :=
  numerically_equal (JS.parseFloat (JS.numberToString a)) a.

(** The flat coordinate array of a list of vertices. *)
Definition flatten_vertices (vs : list (float * float)) : list float :=
  flat_map (fun v => [fst v; snd v]) vs.

(** The text of [n] underscores. *)
Fixpoint underscores (n : nat) : string :=
  match n with
  | O => EmptyString
  | S n' => String "_" (underscores n')
  end.

(** Decoding as the specification words it: the page is split off at the
    colon, then every comma-separated piece of the first part is parsed. *)
Definition decode_by_spec (regionId : string) : list float :=
  map JS.parseFloat (JS.split "," (hd EmptyString (JS.split ":" regionId))).

(** The words of an OCR page in traversal order: line after line, word
    after word. *)
Definition page_words (ocr_ : OcrReadResult) : list OcrWord :=
  flat_map (fun line => match words line with Some ws => ws | None => [] end)
    (match lines ocr_ with Some ls => ls | None => [] end).

(** The region id of an OCR word of a page. *)
Definition word_id (imageExtent : list float) (ocr_ : OcrReadResult) (w : OcrWord) : string :=
  feature_id
    (createBoundingBoxVectorFeature (word_text w) (word_boundingBox w) imageExtent
       [0%float; 0%float; ocr_width ocr_; ocr_height ocr_] (ocr_page ocr_)).

(** How many words of [ws] the canvas displays. *)
Definition displayed_count (ws : list OcrWord) : Z :=
  Z.of_nat (List.length (List.filter (fun w => shouldDisplayOcrWord (word_text w)) ws)).

(** The words of a page the canvas displays, in traversal order. *)
Definition displayed_words (ocr_ : OcrReadResult) : list OcrWord :=
  List.filter (fun w => shouldDisplayOcrWord (word_text w)) (page_words ocr_).

(** The index stored for page [i + 1], if the array has one there. *)
Definition page_index (orders : list (option (gmap string Z))) (i : nat)
    : option (gmap string Z) :=
  match orders !! i with
  | Some (Some m) => Some m
  | _ => None
  end.

(** The regions whose pages the cross-page check of [applyTag] counts:
    those of the asset whose first tag is [tag], then the selected ones. *)
Definition tag_candidates (tag : string) (c : Canvas) : list IRegion :=
  (List.filter (fun region => String.eqb (hd EmptyString (tags region)) tag) (regions c)
   ++ getSelectedRegions c)%list.

(** A selected region with its tag list replaced by [[tag]]; any other
    region as it is. *)
Definition retag (tag : string) (c : Canvas) (r : IRegion) : IRegion :=
  if isSelectedRegion c r then with_tags [tag] r else r.

(** A region list in the order of [compareRegionOrder]: no region sorts
    after its successor. *)
Definition ascending (c : Canvas) (l : list IRegion) : Prop :=
  Sorted (fun a b => compareRegionOrder c a b = -1) l.

(** The content of label data box by box: field name, page and
    coordinates, in the order of the labels, of their value entries and
    of the boxes of each entry. *)
Definition label_entries (ls : list ILabel) : list (string * Z * list float) :=
  flat_map
    (fun l =>
       flat_map (fun v => map (fun b => (label l, page v, b)) (boundingBoxes v))
                (label_value l))
    ls.

Definition entry_field (e : string * Z * list float) : string := fst (fst e).
Definition entry_page (e : string * Z * list float) : Z := snd (fst e).
Definition entry_box (e : string * Z * list float) : list float := snd e.

(** The boxes of one field, in order. *)
Definition field_entries (field : string) (ls : list ILabel)
    : list (string * Z * list float) :=
  List.filter (fun e => String.eqb (entry_field e) field) (label_entries ls).

(** Two boxes of label data agree: same field, same page, coordinates
    numerically equal one by one. *)
Definition entry_close (e e' : string * Z * list float) : Prop :=
  entry_field e = entry_field e'
  /\ entry_page e = entry_page e'
  /\ Forall2 numerically_equal (entry_box e) (entry_box e').

(** Label data with well-formed boxes: no box is empty and every
    coordinate is within formatting precision. *)
Definition well_formed_boxes (ld : ILabelData) : Prop :=
  Forall (fun e => entry_box e <> [] /\ Forall survives_formatting (entry_box e))
         (label_entries (labels ld)).

(** A region and the box of label data it was made from. *)
Definition made_from (r : IRegion) (e : string * Z * list float) : Prop :=
  tags r = [entry_field e]
  /\ pageNumber r = entry_page e
  /\ id r = createRegionIdFromBoundingBox (entry_box e) (entry_page e).

(** The box of label data a region tagged [field] is written as. *)
Definition region_entry (field : string) (r : IRegion) : string * Z * list float :=
  (field, pageNumber r, decodeRegionId (id r)).

Definition sample_page_1 : PageImage :=
  {| page_uri := "data:image/jpeg;page=1"; page_width := 1000; page_height := 2000 |}.

Definition sample_page_2 : PageImage :=
  {| page_uri := "data:image/jpeg;page=2"; page_width := 1000; page_height := 2000 |}.

(** The same asset as a two-page PDF showing page 1. *)
Definition sample_pdf_canvas (rs : list IRegion) (sel : list string) : Canvas :=
  set_page sample_page_1 2 1 (Some [sample_page_1; sample_page_2]) []
    (sample_canvas rs sel).

(** An OCR answer of one page (1700 x 2200) with one line of three words,
    the first a placeholder. *)
Definition word_blank : OcrWord :=
  {| word_text := "___";
     word_boundingBox := [170; 220; 340; 220; 340; 275; 170; 275]%float |}.

Definition word_paid : OcrWord :=
  {| word_text := "Paid";
     word_boundingBox := [425; 220; 595; 220; 595; 275; 425; 275]%float |}.

Definition word_amount : OcrWord :=
  {| word_text := "$10";
     word_boundingBox := [680; 220; 850; 220; 850; 275; 680; 275]%float |}.

Definition sample_ocr_page : OcrReadResult :=
  {| ocr_page := 1; ocr_width := 1700; ocr_height := 2200;
     lines := Some [ {| words := Some [word_blank; word_paid; word_amount] |} ] |}.

Definition sample_ocr : OcrResponse :=
  {| recognitionResults := None;
     analyzeResult := Some {| readResults := Some [sample_ocr_page] |} |}.

Definition sample_ocr_canvas : Canvas :=
  {| asset_id := "asset-1"; asset_name := "forms/invoice%201.jpg";
     regions := []; labelData := None;
     imageUri := Some "data:image/jpeg"; imageWidth := 1000; imageHeight := 2000;
     numPages := 1; currentPage := 1;
     ocr := Some sample_ocr; ocrForCurrentPage := ReadResult sample_ocr_page;
     pdfFile := None; tiffImages := [];
     isError := false; errorTitle := None; errorMessage := None;
     imageMap := Some [];
     selectedRegionIds := []; regionOrders := [] |}.

(** A page on which a third word is printed over the box of the first:
    the two have one region id. *)
Definition word_stamp : OcrWord :=
  {| word_text := "PAID"; word_boundingBox := word_boundingBox word_paid |}.

Definition sample_overprint_page : OcrReadResult :=
  {| ocr_page := 1; ocr_width := 1700; ocr_height := 2200;
     lines := Some [ {| words := Some [word_paid; word_amount; word_stamp] |} ] |}.

Definition sample_overprint_ocr : OcrResponse :=
  {| recognitionResults := None;
     analyzeResult := Some {| readResults := Some [sample_overprint_page] |} |}.

Definition sample_overprint_canvas : Canvas :=
  {| asset_id := "asset-1"; asset_name := "forms/invoice%201.jpg";
     regions := []; labelData := None;
     imageUri := Some "data:image/jpeg"; imageWidth := 1000; imageHeight := 2000;
     numPages := 1; currentPage := 1;
     ocr := Some sample_overprint_ocr;
     ocrForCurrentPage := ReadResult sample_overprint_page;
     pdfFile := None; tiffImages := [];
     isError := false; errorTitle := None; errorMessage := None;
     imageMap := Some [];
     selectedRegionIds := []; regionOrders := [] |}.

(** Label data of two fields, the second with a value of two boxes. *)
Definition sample_labelData : ILabelData :=
  {| document := "invoice 1.jpg";
     labels :=
       [ {| label := "Total"; key := None;
            label_value :=
              [ {| page := 1; text := "$10";
                   boundingBoxes := [[0.4; 0.1; 0.5; 0.1; 0.5; 0.125; 0.4; 0.125]%float] |} ] |};
         {| label := "Vendor"; key := None;
            label_value :=
              [ {| page := 2; text := "Contoso Ltd";
                   boundingBoxes :=
                     [[0.1; 0.3; 0.2; 0.3; 0.2; 0.325; 0.1; 0.325]%float;
                      [0.21; 0.3; 0.3; 0.3; 0.3; 0.325; 0.21; 0.325]%float] |} ] |} ] |}.

(** Label data whose only label has no value, hence no box. *)
Definition boxless_labelData : ILabelData :=
  {| document := "invoice 1.jpg";
     labels := [ {| label := "Total"; key := None; label_value := [] |} ] |}.

(** An order index of three pages, the second a hole of the array. *)
Definition sample_orders : list (option (gmap string Z)) :=
  [ Some (<["a:1" := 0]> (<["b:1" := 1]> ∅)); None; Some (<["c:3" := 0]> ∅) ].

Definition sample_indexed_canvas : Canvas :=
  set_regionOrders sample_orders (sample_canvas [] []).

(** Two regions of page 1 with ranks of their own, the untagged one
    selected. *)
Definition sample_ranked_canvas : Canvas :=
  set_regionOrders [ Some (<[id region_draft := 0]> (<[id region_total := 1]> ∅)) ]
    (sample_canvas [region_total; region_draft] [id region_draft]).


(* ===================================================================== *)
(** * Keyboard, page buttons and change detection                         *)
(* ===================================================================== *)

(** [handleKeyDown(keyEvent)] by [keyEvent.key]. The promises of [prevPage]
    and [nextPage] are not awaited by the handler; their effect is taken
    at the call, as everywhere. *)
Definition handleKeyDown (key : string) (c : Canvas) : Outcome :=
  if String.eqb key "Delete" || String.eqb key "Backspace"
  then Completed (deleteRegions (getSelectedRegions c) c)
  else if String.eqb key "Left" || String.eqb key "ArrowLeft" then prevPage c
  else if String.eqb key "Right" || String.eqb key "ArrowRight" then nextPage c
  else Completed c.

Definition shouldShowPreviousPageButton (c : Canvas) : bool :=
  multiPage c && negb (currentPage c =? 1).

Definition shouldShowNextPageButton (c : Canvas) : bool :=
  multiPage c && negb (currentPage c =? numPages c).

Definition shouldShowMultiPageIndicator (c : Canvas) : bool :=
  multiPage c && (1 <? numPages c).

(** [a < b] on strings: the first code unit that differs decides, and a
    proper prefix comes first. *)
Fixpoint string_lt (a b : string) : bool :=
  match a, b with
  | _, EmptyString => false
  | EmptyString, String _ _ => true
  | String ca a', String cb b' =>
      (nat_of_ascii ca <? nat_of_ascii cb)%nat
      || ((nat_of_ascii ca =? nat_of_ascii cb)%nat && string_lt a' b')
  end.

(** [array.sort()] on strings, without a comparator: ascending by
    [string_lt]. Equal strings cannot be told apart, so every sort gives
    this list. *)
Fixpoint insert_string (s : string) (sorted : list string) : list string :=
  match sorted with
  | [] => [s]
  | t :: rest => if string_lt s t then s :: t :: rest else t :: insert_string s rest
  end.

Definition sort_strings (l : list string) : list string :=
  fold_right insert_string [] l.

(** [_.get(props, "selectedAsset.labelData.labels", [])] *)
Definition labels_of_props (labelData_ : option ILabelData) : list ILabel :=
  match labelData_ with
  | Some ld => labels ld
  | None => []
  end.

Definition isLabelDataChanged (newLabelData prevLabelData : option ILabelData) : bool :=
  let newLabels := labels_of_props newLabelData in
  let prevLabels := labels_of_props prevLabelData in
  if negb (List.length newLabels =? List.length prevLabels)%nat then true
  else if (0 <? List.length newLabels)%nat then
    let newFieldNames := map label newLabels in
    let prevFieldNames := map label prevLabels in
    negb (bool_decide (sort_strings newFieldNames = sort_strings prevFieldNames))
  else false.

(* ===================================================================== *)
(** * Vocabulary of the further properties                                *)
(* ===================================================================== *)

(** The state a method leaves behind, whether it returned or threw. *)
Definition state_of (o : Outcome) : Canvas :=
  match o with
  | Completed c => c
  | Threw c => c
  end.

(** No region id is selected twice, and every selected id is the id of a
    region of the asset. *)
Definition selection_sound (c : Canvas) : Prop :=
  NoDup (selectedRegionIds c)
  /\ forall i, In i (selectedRegionIds c) -> has_id i (regions c) = true.

(** The selection lists the selected regions in the order the asset holds
    them. *)
Definition selection_aligned (c : Canvas) : Prop :=
  NoDup (selectedRegionIds c)
  /\ map id (getSelectedRegions c) = selectedRegionIds c.

(** Reading the text printed for a Number gives that very Number. *)
Definition prints_exactly (v : float) : Prop :=
  JS.parseFloat (JS.numberToString v) = v.

(** The regions that share a first tag are on one page. *)
Definition one_page_per_tag (rs : list IRegion) : Prop :=
  forall r1 r2 t, In r1 rs -> In r2 rs ->
    head (tags r1) = Some t -> head (tags r2) = Some t ->
    pageNumber r1 = pageNumber r2.

(** A second tagged region of page 1. *)
Definition region_vendor : IRegion :=
  sample_region "0.7,0.7,0.8,0.7,0.8,0.8,0.7,0.8:1" ["Vendor"] 1.

(** The label data the canvas holds is the one written for its regions. *)
Definition label_data_in_sync (c : Canvas) : Prop :=
  labelData c = Some (convertRegionsToLabelData (regions c) (asset_name c)).

(** The same asset as a TIFF of two decoded pages showing page 1. *)
Definition sample_tiff_canvas (rs : list IRegion) (sel : list string) : Canvas :=
  set_page sample_page_1 2 1 None [sample_page_1; sample_page_2]
    (sample_canvas rs sel).

(** The two-page PDF with the OCR answer of one page. *)
Definition sample_pdf_ocr_canvas : Canvas :=
  {| asset_id := "asset-1"; asset_name := "forms/invoice%201.pdf";
     regions := [region_total]; labelData := None;
     imageUri := Some (page_uri sample_page_1);
     imageWidth := 1000; imageHeight := 2000;
     numPages := 2; currentPage := 1;
     ocr := Some sample_ocr; ocrForCurrentPage := ReadResult sample_ocr_page;
     pdfFile := Some [sample_page_1; sample_page_2]; tiffImages := [];
     isError := false; errorTitle := None; errorMessage := None;
     imageMap :=
       Some [convertRegionToFeature region_total [0; 0; 1000; 2000]%float false];
     selectedRegionIds := []; regionOrders := [] |}.

(* ===================================================================== *)
(** * Highlighting the regions of the hovered label                       *)
(* ===================================================================== *)

Definition with_highlighted (propertyValue : bool) (f : Feature) : Feature :=
  {| geometry := geometry f; feature_id := feature_id f;
     feature_text := feature_text f; boundingbox := boundingbox f;
     highlighted := propertyValue; isOcrProposal := isOcrProposal f |}.

(** [setFeatureProperty(feature, "highlighted", propertyValue, forced)] *)
Definition setFeatureProperty (feature : Feature) (propertyValue forced : bool) : Feature :=
  if forced || negb (Bool.eqb (highlighted feature) propertyValue)
  then with_highlighted propertyValue feature
  else feature.

(** [label.value.find((region) => id === createRegionIdFromBoundingBox(
    region.boundingBoxes[0], region.page))] used as a condition. On a
    value entry without a box, [boundingBoxes[0]] is undefined and
    [boundingBox.join] throws: [None]. *)
Fixpoint find_hovered (id_ : string) (value_ : list IFormRegion) : option bool :=
  match value_ with
  | [] => Some false
  | region :: rest =>
      match boundingBoxes region with
      | [] => None
      | boundingBox0 :: _ =>
          if String.eqb id_ (createRegionIdFromBoundingBox boundingBox0 (page region))
          then Some true
          else find_hovered id_ rest
      end
  end.

(** [updateHighlightStatus] for [props.hoveredLabel]; [None] when it
    throws. *)
Definition updateHighlightStatus (hoveredLabel : option ILabel) (feature : Feature)
    : option Feature :=
  match hoveredLabel with
  | Some label_ =>
      match find_hovered (feature_id feature) (label_value label_) with
      | None => None
      | Some true => Some (setFeatureProperty feature true false)
      | Some false => Some feature
      end
  | None =>
      if highlighted feature then Some (setFeatureProperty feature false false)
      else Some feature
  end.

(** A region as the canvas makes them: one tag, a text without blank, an
    id that is the id of its own decoding, and the box and the points
    computed from the id. *)
Definition well_made (r : IRegion) : Prop :=
  (exists tagName, tags r = [tagName])
  /\ occurs " " (value r) = false
  /\ createRegionIdFromBoundingBox (decodeRegionId (id r)) (pageNumber r) = id r
  /\ boundingBox r = convertToRegionBoundingBox (decodeRegionId (id r))
  /\ points r = convertToRegionPoints (decodeRegionId (id r)).
(* ===================================================================== *)
(** * Properties of the runtime model                                     *)
(* ===================================================================== *)

Lemma append_cons (ch : ascii) (a b : string) : String ch a ++ b = String ch (a ++ b).
Proof. reflexivity. Qed.

Lemma append_nil (b : string) : EmptyString ++ b = b.
Proof. reflexivity. Qed.

Lemma append_assoc (a b c : string) : (a ++ b) ++ c = a ++ (b ++ c).
Proof.
  induction a as [|ch a IH]; [reflexivity |].
  now rewrite !append_cons, IH.
Qed.

Lemma append_empty_r (a : string) : a ++ EmptyString = a.
Proof.
  induction a as [|ch a IH]; [reflexivity |].
  now rewrite append_cons, IH.
Qed.

Lemma occurs_append (c : ascii) (a b : string) :
  occurs c (a ++ b) = occurs c a || occurs c b.
Proof.
  induction a as [|ch a IH]; [reflexivity |].
  rewrite append_cons. simpl. rewrite IH. now rewrite orb_assoc.
Qed.

Lemma split_without_separator (sep : ascii) (s : string) :
  occurs sep s = false -> JS.split sep s = [s].
Proof.
  induction s as [|ch s IH]; simpl; [reflexivity |].
  intros H. apply orb_false_elim in H as [Hc Hs].
  rewrite Hc, (IH Hs). reflexivity.
Qed.

Lemma split_at_separator (sep : ascii) (a b : string) :
  occurs sep a = false ->
  JS.split sep (a ++ String sep b) = a :: JS.split sep b.
Proof.
  induction a as [|ch a IH]; intros H.
  - rewrite append_nil. simpl. now rewrite Ascii.eqb_refl.
  - simpl in H. apply orb_false_elim in H as [Hc Hs].
    rewrite append_cons. simpl. rewrite Hc, (IH Hs). reflexivity.
Qed.


(** *** Digits *)

Lemma occurs_cons (c a : ascii) (s : string) :
  occurs c (String a s) = Ascii.eqb a c || occurs c s.
Proof. reflexivity. Qed.

Lemma digit_char_is_digit (d : Z) :
  0 <= d < 10 -> JS.is_digit (JS.digit_char d) = true.
Proof.
  intros Hd.
  assert (Hcases : d = 0 \/ d = 1 \/ d = 2 \/ d = 3 \/ d = 4 \/ d = 5 \/ d = 6
                   \/ d = 7 \/ d = 8 \/ d = 9) by lia.
  repeat (destruct Hcases as [-> | Hcases]; [reflexivity |]).
  subst d. reflexivity.
Qed.

Lemma occurs_digits_onto (c : ascii) (fuel : nat) (n : Z) (acc : string) :
  JS.is_digit c = false -> occurs c acc = false ->
  occurs c (JS.digits_onto fuel n acc) = false.
Proof.
  intros Hc. revert n acc.
  induction fuel as [|fuel IH]; intros n acc Hacc; [exact Hacc |].
  assert (Hd : occurs c (String (JS.digit_char (n mod 10)) acc) = false).
  { rewrite occurs_cons, Hacc, orb_false_r.
    apply Ascii.eqb_neq. intros E.
    pose proof (digit_char_is_digit (n mod 10)) as Hdig.
    rewrite E, Hc in Hdig.
    discriminate Hdig. apply Z.mod_pos_bound. lia. }
  change (JS.digits_onto (S fuel) n acc)
    with (if n <? 10 then String (JS.digit_char (n mod 10)) acc
          else JS.digits_onto fuel (n / 10) (String (JS.digit_char (n mod 10)) acc)).
  destruct (n <? 10); [exact Hd | apply IH, Hd].
Qed.

Lemma occurs_decimal (c : ascii) (n : Z) :
  JS.is_digit c = false -> occurs c (JS.decimal n) = false.
Proof. intros Hc. apply occurs_digits_onto; [exact Hc | reflexivity]. Qed.

Lemma occurs_integerToString (c : ascii) (n : Z) :
  JS.is_digit c = false -> c <> "-"%char ->
  occurs c (JS.integerToString n) = false.
Proof.
  intros Hc Hm. unfold JS.integerToString.
  destruct (n <? 0); [| now apply occurs_decimal].
  rewrite occurs_cons, (occurs_decimal _ _ Hc), orb_false_r.
  apply Ascii.eqb_neq. congruence.
Qed.

Lemma occurs_zeros (c : ascii) (n : Z) :
  c <> "0"%char -> occurs c (JS.zeros n) = false.
Proof.
  intros Hc. unfold JS.zeros.
  induction (Z.to_nat n) as [|k IH]; [reflexivity |].
  cbn [repeat string_of_list_ascii]. rewrite occurs_cons, IH, orb_false_r.
  apply Ascii.eqb_neq. congruence.
Qed.

Lemma occurs_substring (c : ascii) (s : string) :
  occurs c s = false -> forall n m, occurs c (substring n m s) = false.
Proof.
  induction s as [|ch s IH]; intros H n m.
  - destruct n, m; reflexivity.
  - rewrite occurs_cons in H. apply orb_false_elim in H as [Hc Hs].
    destruct n as [|n]; cbn [substring].
    + destruct m as [|m]; [reflexivity |].
      now rewrite occurs_cons, Hc, (IH Hs 0%nat m).
    + apply IH, Hs.
Qed.

(** ** The numeral of a count reads back as the count *)

Lemma digits_onto_app (fuel : nat) (n : Z) (acc : string) :
  JS.digits_onto fuel n acc = JS.digits_onto fuel n EmptyString ++ acc.
Proof.
  revert n acc. induction fuel as [|fuel IH]; intros n acc; cbn [JS.digits_onto].
  - now rewrite append_nil.
  - destruct (n <? 10).
    + now rewrite append_cons, append_nil.
    + rewrite (IH _ (String _ acc)), (IH _ (String _ EmptyString)).
      now rewrite append_assoc, append_cons, append_nil.
Qed.

Lemma digits_value_from_app (a : Z) (s t : string) :
  JS.digits_value_from a (s ++ t) = JS.digits_value_from (JS.digits_value_from a s) t.
Proof.
  revert a. induction s as [|ch s IH]; intros a.
  - now rewrite append_nil.
  - rewrite append_cons. cbn [JS.digits_value_from]. apply IH.
Qed.

Lemma digit_value_digit_char (d : Z) :
  0 <= d < 10 -> JS.digit_value (JS.digit_char d) = d.
Proof.
  intros H. unfold JS.digit_value, JS.digit_char.
  rewrite nat_ascii_embedding by lia. lia.
Qed.

Lemma digits_value_digits_onto (fuel : nat) (n : Z) :
  0 <= n < 10 ^ Z.of_nat fuel ->
  JS.digits_value (JS.digits_onto fuel n EmptyString) = n.
Proof.
  unfold JS.digits_value. revert n.
  induction fuel as [|fuel IH]; intros n Hn.
  - cbn in Hn. cbn [JS.digits_onto JS.digits_value_from]. lia.
  - cbn [JS.digits_onto]. destruct (Z.ltb_spec n 10) as [Hlt | Hge].
    + cbn [JS.digits_value_from]. rewrite Z.mod_small by lia.
      rewrite digit_value_digit_char by lia. lia.
    + rewrite digits_onto_app, digits_value_from_app, IH.
      * cbn [JS.digits_value_from].
        rewrite digit_value_digit_char by (apply Z.mod_pos_bound; lia).
        pose proof (Z.div_mod n 10). lia.
      * rewrite Nat2Z.inj_succ, Z.pow_succ_r in Hn by lia.
        split; [apply Z.div_pos; lia |]. apply Z.div_lt_upper_bound; lia.
Qed.

Lemma digits_value_decimal (n : Z) : 0 <= n -> JS.digits_value (JS.decimal n) = n.
Proof.
  intros Hn. unfold JS.decimal. apply digits_value_digits_onto.
  split; [exact Hn |].
  destruct (Z.eq_dec n 0) as [-> | Hne]; [reflexivity |].
  pose proof (Z.log2_spec n ltac:(lia)) as [_ Hlog].
  pose proof (Z.log2_nonneg n) as Hnn.
  rewrite Nat2Z.inj_succ, Z2Nat.id by lia.
  apply Z.lt_le_trans with (1 := Hlog).
  apply Z.pow_le_mono_l. lia.
Qed.


(** *** The characters [Number::toString] prints *)

Section NumeralCharacters.

(** A character that is no digit and none of the marks of a numeral
    (the comma and the colon of a region id, for instance). *)
Variable c : ascii.
Hypothesis c_not_digit : JS.is_digit c = false.
Hypothesis c_not_mark : occurs c ".e+-NaNInfinity" = false.

Lemma mark_facts :
  Ascii.eqb "." c = false /\ Ascii.eqb "e" c = false /\ Ascii.eqb "+" c = false
  /\ Ascii.eqb "-" c = false /\ Ascii.eqb "0" c = false.
Proof.
  pose proof c_not_mark as H. rewrite !occurs_cons in H.
  repeat (apply orb_false_elim in H as [? H]).
  repeat split; try assumption.
  apply Ascii.eqb_neq. intros <-. discriminate c_not_digit.
Qed.

Lemma occurs_layout (s n k : Z) : occurs c (JS.layout s n k) = false.
Proof.
  destruct mark_facts as (Edot & Ee & Eplus & Eminus & Ezero).
  pose proof (occurs_decimal c s c_not_digit) as Hds.
  assert (Hz : forall z, occurs c (JS.zeros z) = false).
  { intros z. apply occurs_zeros. intros ->. discriminate c_not_digit. }
  unfold JS.layout; cbv zeta.
  destruct ((k <=? n) && (n <=? 21)).
  { now rewrite occurs_append, Hds, Hz. }
  destruct ((0 <? n) && (n <=? 21)).
  { rewrite !occurs_append, !occurs_substring by exact Hds.
    rewrite occurs_cons, Edot. reflexivity. }
  destruct ((-6 <? n) && (n <=? 0)).
  { rewrite !occurs_append, Hds, Hz, !occurs_cons, Ezero, Edot. reflexivity. }
  assert (He : occurs c
            ((if n - 1 <? 0 then "-" else "+") ++ JS.decimal (Z.abs (n - 1))) = false).
  { rewrite occurs_append, (occurs_decimal _ _ c_not_digit).
    destruct (n - 1 <? 0); rewrite occurs_cons, ?Eminus, ?Eplus; reflexivity. }
  set (etext := (if n - 1 <? 0 then "-" else "+") ++ JS.decimal (Z.abs (n - 1))) in *.
  clearbody etext.
  destruct (JS.decimal s) as [|d1 drest] eqn:Eds; cbn [JS.head_tail].
  - destruct (k =? 1); rewrite !occurs_append, He, !occurs_cons, ?Edot, ?Ee; reflexivity.
  - rewrite occurs_cons in Hds. apply orb_false_elim in Hds as [Hd1 Hdr].
    destruct (k =? 1).
    + rewrite append_cons, occurs_cons, Hd1, !occurs_append, Hdr, He, occurs_cons, Ee.
      reflexivity.
    + rewrite !occurs_append, He, Hdr, !occurs_cons, Hd1, Edot, Ee. reflexivity.
Qed.

Lemma occurs_numberToString (a : float) :
  occurs c (JS.numberToString a) = false.
Proof.
  pose proof c_not_mark as Hm. rewrite !occurs_cons in Hm.
  repeat (let E := fresh "E" in apply orb_false_elim in Hm as [E Hm]).
  unfold JS.numberToString.
  destruct (Prim2SF a) as [sg | sg | | sg m e].
  - rewrite occurs_cons. destruct mark_facts as (_ & _ & _ & _ & ->). reflexivity.
  - destruct sg; rewrite !occurs_cons;
      repeat match goal with E : Ascii.eqb _ _ = false |- _ => rewrite E end;
      reflexivity.
  - rewrite !occurs_cons;
      repeat match goal with E : Ascii.eqb _ _ = false |- _ => rewrite E end;
      reflexivity.
  - destruct (JS.shortest _ _ _ _ _ _) as [[s n'] k].
    rewrite occurs_append, occurs_layout.
    destruct sg; rewrite ?occurs_cons;
      repeat match goal with E : Ascii.eqb _ _ = false |- _ => rewrite E end;
      reflexivity.
Qed.

End NumeralCharacters.

Lemma comma_free_numberToString (a : float) :
  occurs "," (JS.numberToString a) = false.
Proof. now apply occurs_numberToString. Qed.

Lemma colon_free_numberToString (a : float) :
  occurs ":" (JS.numberToString a) = false.
Proof. now apply occurs_numberToString. Qed.

Lemma comma_free_integerToString (p : Z) :
  occurs "," (JS.integerToString p) = false.
Proof. apply occurs_integerToString; [reflexivity | discriminate]. Qed.

(** *** [parseFloat] stops at a colon *)

Lemma trimStart_colon (s r : string) :
  JS.trimStart (s ++ String ":" r) = JS.trimStart s ++ String ":" r.
Proof.
  induction s as [|c s IH]; [reflexivity |].
  rewrite append_cons. cbn [JS.trimStart].
  destruct (JS.is_white_space c); [exact IH | reflexivity].
Qed.

Lemma take_sign_colon (s r : string) :
  JS.take_sign (s ++ String ":" r)
  = (fst (JS.take_sign s), snd (JS.take_sign s) ++ String ":" r).
Proof.
  destruct s as [|c s]; [reflexivity |].
  rewrite append_cons. unfold JS.take_sign.
  destruct (Ascii.eqb c "-"); [reflexivity |].
  destruct (Ascii.eqb c "+"); reflexivity.
Qed.

Lemma prefix_before (c : ascii) (p s r : string) :
  occurs c p = false ->
  String.prefix p (s ++ String c r) = String.prefix p s.
Proof.
  revert s. induction p as [|a p IH]; intros s Hp; [destruct s; reflexivity |].
  rewrite occurs_cons in Hp. apply orb_false_elim in Hp as [Ha Hp].
  destruct s as [|b s].
  - rewrite append_nil. cbn [String.prefix].
    destruct (ascii_dec a c) as [->|]; [| reflexivity].
    now rewrite Ascii.eqb_refl in Ha.
  - rewrite append_cons. cbn [String.prefix].
    destruct (ascii_dec a b); [apply IH, Hp | reflexivity].
Qed.

Lemma span_digits_colon (s r : string) :
  JS.span_digits (s ++ String ":" r)
  = (fst (JS.span_digits s), snd (JS.span_digits s) ++ String ":" r).
Proof.
  induction s as [|c s IH]; [reflexivity |].
  rewrite append_cons. cbn [JS.span_digits].
  destruct (JS.is_digit c); [| reflexivity].
  rewrite IH. destruct (JS.span_digits s). reflexivity.
Qed.

Lemma take_fraction_colon (s r : string) :
  JS.take_fraction (s ++ String ":" r)
  = (fst (JS.take_fraction s), snd (JS.take_fraction s) ++ String ":" r).
Proof.
  destruct s as [|c s]; [reflexivity |].
  rewrite append_cons. unfold JS.take_fraction.
  destruct (Ascii.eqb c "."); [apply span_digits_colon | reflexivity].
Qed.

Lemma take_exponent_colon (s r : string) :
  JS.take_exponent (s ++ String ":" r) = JS.take_exponent s.
Proof.
  destruct s as [|c s]; [reflexivity |].
  rewrite append_cons. unfold JS.take_exponent.
  destruct (Ascii.eqb c "e" || Ascii.eqb c "E"); [| reflexivity].
  rewrite take_sign_colon. destruct (JS.take_sign s) as [eneg rest]. cbn [fst snd].
  rewrite span_digits_colon. destruct (JS.span_digits rest) as [ds tl]. reflexivity.
Qed.

Lemma parseFloat_colon (s r : string) :
  JS.parseFloat (s ++ String ":" r) = JS.parseFloat s.
Proof.
  unfold JS.parseFloat.
  rewrite trimStart_colon, take_sign_colon.
  destruct (JS.take_sign (JS.trimStart s)) as [neg s0]. cbn [fst snd].
  rewrite prefix_before by reflexivity.
  destruct (String.prefix "Infinity" s0); [reflexivity |].
  rewrite span_digits_colon. destruct (JS.span_digits s0) as [ip s1]. cbn [fst snd].
  rewrite take_fraction_colon. destruct (JS.take_fraction s1) as [fp s2]. cbn [fst snd].
  rewrite take_exponent_colon. reflexivity.
Qed.

(* ===================================================================== *)
(** * Region identity                                                     *)
(* ===================================================================== *)

Lemma join_cons2 (sep a b : string) (rest : list string) :
  JS.join sep (a :: b :: rest) = a ++ sep ++ JS.join sep (b :: rest).
Proof. reflexivity. Qed.

(** Splitting a joined text gives the pieces back. *)
Lemma split_join (sep : ascii) (pieces : list string) :
  pieces <> [] ->
  Forall (fun p => occurs sep p = false) pieces ->
  JS.split sep (JS.join (String sep EmptyString) pieces) = pieces.
Proof.
  intros Hne Hall.
  induction pieces as [|a [|b rest] IH]; [congruence | |].
  - apply Forall_inv in Hall. now apply split_without_separator.
  - rewrite join_cons2, append_cons, append_nil.
    rewrite split_at_separator by (now apply Forall_inv in Hall).
    rewrite IH; [reflexivity | discriminate | now apply Forall_inv_tail in Hall].
Qed.

(** With a page suffix after the last piece, the pieces parse as they
    would alone: [parseFloat] stops at the colon. *)
Lemma parse_split_join_suffix (pieces : list string) (suffix : string) :
  pieces <> [] ->
  Forall (fun p => occurs "," p = false) pieces ->
  occurs "," suffix = false ->
  map JS.parseFloat (JS.split "," (JS.join "," pieces ++ String ":" suffix))
  = map JS.parseFloat pieces.
Proof.
  intros Hne Hall Hs.
  induction pieces as [|a [|b rest] IH]; [congruence | |].
  - apply Forall_inv in Hall. cbn [JS.join].
    rewrite split_without_separator.
    + cbn [map]. now rewrite parseFloat_colon.
    + rewrite occurs_append, Hall, occurs_cons, Hs. reflexivity.
  - rewrite join_cons2, !append_assoc, append_cons, append_nil.
    rewrite split_at_separator by (now apply Forall_inv in Hall).
    cbn [map]. f_equal.
    apply IH; [discriminate | now apply Forall_inv_tail in Hall].
Qed.

Lemma occurs_join (c : ascii) (sep : string) (pieces : list string) :
  occurs c sep = false ->
  Forall (fun p => occurs c p = false) pieces ->
  occurs c (JS.join sep pieces) = false.
Proof.
  intros Hsep Hall.
  induction pieces as [|a [|b rest] IH]; [reflexivity | |].
  - now apply Forall_inv in Hall.
  - rewrite join_cons2, !occurs_append, Hsep, IH by (now apply Forall_inv_tail in Hall).
    apply Forall_inv in Hall. now rewrite Hall.
Qed.

Lemma numbers_comma_free (coords : list float) :
  Forall (fun p => occurs "," p = false) (map JS.numberToString coords).
Proof.
  apply Forall_forall. intros p Hin. apply in_map_iff in Hin as (a & <- & _).
  apply comma_free_numberToString.
Qed.

(** What decoding an encoded id computes: each coordinate printed and
    read back. *)
Lemma decodeRegionId_createRegionId (coords : list float) (p : Z) :
  coords <> [] ->
  decodeRegionId (createRegionIdFromBoundingBox coords p)
  = map (fun a => JS.parseFloat (JS.numberToString a)) coords.
Proof.
  intros Hne. unfold decodeRegionId, createRegionIdFromBoundingBox.
  rewrite append_cons, append_nil.
  rewrite parse_split_join_suffix.
  - now rewrite map_map.
  - destruct coords; [congruence | discriminate].
  - apply numbers_comma_free.
  - apply comma_free_integerToString.
Qed.

Lemma decode_by_spec_createRegionId (coords : list float) (p : Z) :
  coords <> [] ->
  decode_by_spec (createRegionIdFromBoundingBox coords p)
  = map (fun a => JS.parseFloat (JS.numberToString a)) coords.
Proof.
  intros Hne. unfold decode_by_spec, createRegionIdFromBoundingBox.
  rewrite append_cons, append_nil.
  rewrite split_at_separator.
  - cbn [hd]. rewrite split_join.
    + now rewrite map_map.
    + destruct coords; [congruence | discriminate].
    + apply numbers_comma_free.
  - apply occurs_join; [reflexivity |].
    apply Forall_forall. intros s Hin. apply in_map_iff in Hin as (a & <- & _).
    apply colon_free_numberToString.
Qed.

Lemma formatting_precision (coords : list float) :
  Forall survives_formatting coords ->
  Forall2 numerically_equal
    (map (fun a => JS.parseFloat (JS.numberToString a)) coords) coords.
Proof.
  induction 1 as [|a rest Ha _ IH]; cbn [map]; constructor; assumption.
Qed.

(** ** C7 *)

(** C7. Decoding an encoded region id reconstructs the coordinate
    sequence, for every non-empty coordinate list and every page: each
    decoded number is the original printed by [Number::toString] and read
    back by [parseFloat], so it equals the original for every coordinate
    within formatting precision. The canvas decodes with
    [regionId.split(",").map(parseFloat)] and lets [parseFloat] drop the
    page; splitting the page off at the colon first, as the specification
    words it, computes the same list. *)
Theorem decode_encode_round_trip (coords : list float) (p : Z) :
  coords <> [] ->
  decodeRegionId (createRegionIdFromBoundingBox coords p)
  = map (fun a => JS.parseFloat (JS.numberToString a)) coords
  /\ decode_by_spec (createRegionIdFromBoundingBox coords p)
     = decodeRegionId (createRegionIdFromBoundingBox coords p)
  /\ (Forall survives_formatting coords ->
      Forall2 numerically_equal
        (decodeRegionId (createRegionIdFromBoundingBox coords p)) coords).
Proof.
  intros Hne.
  rewrite decode_by_spec_createRegionId, decodeRegionId_createRegionId by exact Hne.
  repeat split. apply formatting_precision.
Qed.

(* ===================================================================== *)
(** * Coordinate transform                                                *)
(* ===================================================================== *)

Lemma vertex_pairs_flatten (vs : list (float * float)) :
  vertex_pairs (flatten_vertices vs) = vs.
Proof.
  induction vs as [|[vx vy] vs IH]; [reflexivity |].
  cbn [flatten_vertices flat_map app fst snd vertex_pairs].
  fold (flatten_vertices vs). now rewrite IH.
Qed.

(** Subtracting the origin 0 of an extent changes nothing. *)
Lemma float_sub_zero (w : float) : (w - 0)%float = w.
Proof.
  apply Prim2SF_inj. rewrite sub_spec.
  change (Prim2SF 0) with (S754_zero false).
  destruct (Prim2SF w) as [[|] | [|] | | sg m e]; reflexivity.
Qed.

Lemma extent_from_origin (w h : float) :
  extent_width [0; 0; w; h]%float = w /\ extent_height [0; 0; w; h]%float = h.
Proof. split; apply float_sub_zero. Qed.

(** C6. The feature drawn for an OCR word has one display pixel per
    vertex (x, y) of the word's box: x over the OCR width times the image
    width, and one minus y over the OCR height times the image height,
    each rounded by [Math.round]; the widths and heights are those of the
    extents, which the canvas takes from the origin, [[0, 0, width,
    height]]. The box [10,20,50,20,50,40,10,40] of a 100 x 200 OCR page
    drawn on a 1000 x 2000 image is the polygon (100,1800) (500,1800)
    (500,1600) (100,1600). *)
Theorem ocr_pixel_to_display_pixel (word : string) (vs : list (float * float))
    (imageExtent ocrExtent : list float)
    (imageWidth_ imageHeight_ ocrWidth ocrHeight : float) (p : Z) :
  geometry (createBoundingBoxVectorFeature word (flatten_vertices vs)
              imageExtent ocrExtent p)
  = map (fun v =>
           (JS.Math_round ((fst v / extent_width ocrExtent)
                           * extent_width imageExtent)%float,
            JS.Math_round ((1 - snd v / extent_height ocrExtent)
                           * extent_height imageExtent)%float)) vs
  /\ geometry (createBoundingBoxVectorFeature word (flatten_vertices vs)
                 [0; 0; imageWidth_; imageHeight_]%float
                 [0; 0; ocrWidth; ocrHeight]%float p)
     = map (fun v =>
              (JS.Math_round ((fst v / ocrWidth) * imageWidth_)%float,
               JS.Math_round ((1 - snd v / ocrHeight) * imageHeight_)%float)) vs
  /\ geometry (createBoundingBoxVectorFeature word
                 [10; 20; 50; 20; 50; 40; 10; 40]%float
                 [0; 0; 1000; 2000]%float [0; 0; 100; 200]%float p)
     = [(100, 1800); (500, 1800); (500, 1600); (100, 1600)]%float.
Proof.
  assert (Hgeneral : forall imageExtent ocrExtent,
    geometry (createBoundingBoxVectorFeature word (flatten_vertices vs)
                imageExtent ocrExtent p)
    = map (fun v =>
             (JS.Math_round ((fst v / extent_width ocrExtent)
                             * extent_width imageExtent)%float,
              JS.Math_round ((1 - snd v / extent_height ocrExtent)
                             * extent_height imageExtent)%float)) vs).
  { intros ie oe. cbn [createBoundingBoxVectorFeature geometry].
    now rewrite vertex_pairs_flatten. }
  split; [apply Hgeneral |]. split.
  - rewrite Hgeneral.
    destruct (extent_from_origin imageWidth_ imageHeight_) as [-> ->].
    destruct (extent_from_origin ocrWidth ocrHeight) as [-> ->].
    reflexivity.
  - cbn [createBoundingBoxVectorFeature geometry].
    vm_compute. reflexivity.
Qed.

(* ===================================================================== *)
(** * Region order index                                                  *)
(* ===================================================================== *)

Lemma skip_underscores_spec (s : string) :
  s = underscores (fst (skip_underscores s)) ++ snd (skip_underscores s)
  /\ match snd (skip_underscores s) with
     | String c _ => c <> "_"%char
     | EmptyString => True
     end.
Proof.
  induction s as [|c s [IH1 IH2]]; [split; [reflexivity | exact I] |].
  cbn [skip_underscores].
  destruct (Ascii.eqb_spec c "_") as [-> | Hc].
  - destruct (skip_underscores s) as [n tl]. cbn [fst snd] in *.
    split; [| exact IH2]. cbn [underscores]. rewrite append_cons. now f_equal.
  - split; [reflexivity | exact Hc].
Qed.

Lemma skip_underscores_all (n : nat) :
  skip_underscores (underscores n) = (n, EmptyString).
Proof.
  induction n as [|n IH]; [reflexivity |].
  cbn [underscores skip_underscores]. rewrite Ascii.eqb_refl, IH. reflexivity.
Qed.

(** A word is hidden exactly when its text is one or more underscores. *)
Lemma shouldDisplayOcrWord_false (t : string) :
  shouldDisplayOcrWord t = false <-> exists n, (0 < n)%nat /\ t = underscores n.
Proof.
  unfold shouldDisplayOcrWord, matches_placeholder. split.
  - intros H. apply negb_false_iff in H.
    destruct (skip_underscores_spec t) as [Ht _].
    destruct (skip_underscores t) as [n tl]. cbn [fst snd] in Ht.
    apply andb_true_iff in H as [Hn Htl].
    destruct tl; [| discriminate].
    exists n. split; [now apply Nat.ltb_lt in Hn |].
    now rewrite append_empty_r in Ht.
  - intros (n & Hn & ->). rewrite skip_underscores_all.
    apply negb_false_iff, andb_true_iff. split; [now apply Nat.ltb_lt | reflexivity].
Qed.

Section PageIndex.

Variable imageExtent : list float.
Variable ocr_ : OcrReadResult.

Local Abbreviation ocrExtent := [0%float; 0%float; ocr_width ocr_; ocr_height ocr_].
Local Abbreviation step := (index_word imageExtent ocrExtent (ocr_page ocr_)).
Local Abbreviation wid := (word_id imageExtent ocr_).
Local Abbreviation shown w := (shouldDisplayOcrWord (word_text w)).

Lemma step_shown (m : gmap string Z) (n : Z) (w : OcrWord) :
  step (m, n) w = if shown w then (<[wid w := n]> m, n + 1) else (m, n).
Proof. reflexivity. Qed.

Lemma index_page_fold :
  index_page imageExtent ocr_ = fst (fold_left step (page_words ocr_) (∅, 0)).
Proof.
  unfold index_page, page_words.
  destruct (lines ocr_) as [ls|]; [| reflexivity].
  f_equal. generalize (∅ : gmap string Z, 0) as st.
  induction ls as [|l ls IH]; intros st; [reflexivity |].
  cbn [fold_left flat_map]. rewrite fold_left_app, IH.
  f_equal. unfold index_line. destruct (words l); reflexivity.
Qed.

End PageIndex.

Lemma page_index_array_set (i j : nat) (m : gmap string Z)
    (orders : list (option (gmap string Z))) :
  page_index (JS.array_set i m orders) j
  = if decide (i = j) then Some m else page_index orders j.
Proof.
  unfold page_index. revert j orders.
  induction i as [|i IH]; intros j orders.
  - destruct orders as [|slot rest], j as [|j]; reflexivity.
  - destruct orders as [|slot rest], j as [|j]; cbn [JS.array_set]; try reflexivity.
    + change ((None :: JS.array_set i m []) !! S j) with (JS.array_set i m [] !! j).
      rewrite IH.
      destruct (decide (i = j)) as [->|Hne].
      * now rewrite decide_True.
      * rewrite decide_False by congruence. now destruct j.
    + change ((slot :: JS.array_set i m rest) !! S j)
        with (JS.array_set i m rest !! j).
      change ((slot :: rest) !! S j) with (rest !! j).
      rewrite IH.
      destruct (decide (i = j)) as [->|Hne].
      * now rewrite decide_True.
      * now rewrite decide_False by congruence.
Qed.

Lemma index_pages_cons (imageExtent : list float)
    (orders : list (option (gmap string Z))) (r : OcrReadResult)
    (results : list OcrReadResult) :
  index_pages imageExtent orders (r :: results)
  = index_pages imageExtent
      (if ocr_page r - 1 <? 0 then orders
       else JS.array_set (Z.to_nat (ocr_page r - 1)) (index_page imageExtent r) orders)
      results.
Proof. reflexivity. Qed.

Lemma index_pages_other (imageExtent : list float) (results : list OcrReadResult)
    (orders : list (option (gmap string Z))) (p : Z) :
  1 <= p -> ~ In p (map ocr_page results) ->
  page_index (index_pages imageExtent orders results) (Z.to_nat (p - 1))
  = page_index orders (Z.to_nat (p - 1)).
Proof.
  intros Hp. revert orders.
  induction results as [|r results IH]; intros orders Hnot; [reflexivity |].
  rewrite index_pages_cons, IH by (intros Hin; apply Hnot; now right).
  destruct (Z.ltb_spec (ocr_page r - 1) 0) as [Hneg | Hpos]; [reflexivity |].
  rewrite page_index_array_set, decide_False; [reflexivity |].
  intros E. apply Hnot. left. lia.
Qed.

(** Every page of the OCR answer gets its own index, at the slot of its
    page number. *)
Lemma index_pages_slot (imageExtent : list float) (results : list OcrReadResult)
    (orders : list (option (gmap string Z))) (ocr_ : OcrReadResult) :
  NoDup (map ocr_page results) -> In ocr_ results -> 1 <= ocr_page ocr_ ->
  page_index (index_pages imageExtent orders results) (Z.to_nat (ocr_page ocr_ - 1))
  = Some (index_page imageExtent ocr_).
Proof.
  revert orders. induction results as [|r results IH]; intros orders Hnd Hin Hp;
    [destruct Hin |].
  change (map ocr_page (r :: results)) with (ocr_page r :: map ocr_page results) in Hnd.
  apply NoDup_cons_iff in Hnd as [Hr Hnd].
  rewrite index_pages_cons.
  destruct Hin as [-> | Hin]; [| now apply IH].
  rewrite index_pages_other by assumption.
  destruct (Z.ltb_spec (ocr_page ocr_ - 1) 0) as [Hneg | Hpos]; [lia |].
  rewrite page_index_array_set. now rewrite decide_True.
Qed.

(** The index of a page number is written by the last read result that
    carries it. *)
Lemma index_pages_app (imageExtent : list float) (first rest : list OcrReadResult)
    (orders : list (option (gmap string Z))) :
  index_pages imageExtent orders (first ++ rest)
  = index_pages imageExtent (index_pages imageExtent orders first) rest.
Proof.
  revert orders. induction first as [|r first IH]; intros orders; [reflexivity |].
  change ((r :: first) ++ rest)%list with (r :: (first ++ rest))%list.
  now rewrite !index_pages_cons, IH.
Qed.

Lemma index_pages_last (imageExtent : list float) (earlier later : list OcrReadResult)
    (orders : list (option (gmap string Z))) (ocr_ : OcrReadResult) :
  ~ In (ocr_page ocr_) (map ocr_page later) -> 1 <= ocr_page ocr_ ->
  page_index (index_pages imageExtent orders (earlier ++ ocr_ :: later))
    (Z.to_nat (ocr_page ocr_ - 1))
  = Some (index_page imageExtent ocr_).
Proof.
  intros Hlast Hp.
  rewrite index_pages_app, index_pages_cons, index_pages_other by assumption.
  destruct (Z.ltb_spec (ocr_page ocr_ - 1) 0) as [Hneg | Hpos]; [lia |].
  rewrite page_index_array_set. now rewrite decide_True.
Qed.

(** An id some word of a list has is the id of a last such word. *)
Lemma last_occurrence {A : Type} (f : A -> string) (k : string) (l : list A) :
  In k (map f l) ->
  exists before u after,
    l = (before ++ u :: after)%list /\ f u = k /\ ~ In (f u) (map f after).
Proof.
  induction l as [|a l IH]; intros Hin; [destruct Hin |].
  destruct (in_dec string_dec k (map f l)) as [Hlater | Hnot].
  - destruct (IH Hlater) as (before & u & after & -> & Eu & Hlast).
    now exists (a :: before), u, after.
  - destruct Hin as [Ea | Hin]; [| contradiction].
    exists [], a, l. repeat split; [exact Ea | now rewrite Ea].
Qed.

Section PageWrites.

Variable imageExtent : list float.
Variable ocr_ : OcrReadResult.

Local Abbreviation ocrExtent := [0%float; 0%float; ocr_width ocr_; ocr_height ocr_].
Local Abbreviation step := (index_word imageExtent ocrExtent (ocr_page ocr_)).
Local Abbreviation wid := (word_id imageExtent ocr_).
Local Abbreviation shown w := (shouldDisplayOcrWord (word_text w)).

(** A hidden word leaves index and counter as they are. *)
Lemma fold_displayed (ws : list OcrWord) (st : gmap string Z * Z) :
  fold_left step ws st = fold_left step (List.filter (fun w => shown w) ws) st.
Proof.
  revert st. induction ws as [|a ws IH]; intros [m n]; [reflexivity |].
  cbn [fold_left List.filter]. rewrite step_shown.
  destruct (shown a) eqn:E; [| apply IH].
  cbn [fold_left]. rewrite step_shown, E. apply IH.
Qed.

(** Writing displayed words one after the other: a later write under an
    id replaces an earlier one. *)
Lemma fold_writes (ds : list OcrWord) (m : gmap string Z) (n : Z) :
  Forall (fun w => shown w = true) ds ->
  (forall k, ~ In k (map wid ds) -> fst (fold_left step ds (m, n)) !! k = m !! k)
  /\ (forall before w after, ds = (before ++ w :: after)%list ->
        ~ In (wid w) (map wid after) ->
        fst (fold_left step ds (m, n)) !! wid w = Some (n + Z.of_nat (List.length before))).
Proof.
  intros Hds. revert m n.
  induction Hds as [|a ds Ha Hds IH]; intros m n.
  - split; [reflexivity |]. intros before w after H. now destruct before.
  - cbn [fold_left]. rewrite step_shown, Ha.
    destruct (IH (<[wid a := n]> m) (n + 1)) as [Hother Hsplit].
    split.
    + intros k Hk. rewrite Hother by (intros Hin; apply Hk; now right).
      apply lookup_insert_ne. intros E. apply Hk. now left.
    + intros before w after Heq Hlast. destruct before as [|a' before].
      * injection Heq as Ew Eafter. subst w after.
        rewrite Hother by exact Hlast.
        rewrite lookup_insert_eq. f_equal. cbn [List.length]. lia.
      * injection Heq as Ea Eds. subst a'.
        rewrite (Hsplit before w after Eds Hlast). f_equal.
        cbn [List.length]. lia.
Qed.

Lemma displayed_words_shown :
  Forall (fun w => shown w = true) (displayed_words ocr_).
Proof.
  apply Forall_forall. intros w Hw.
  now apply List.filter_In in Hw as [_ Hw].
Qed.

Lemma index_page_writes :
  index_page imageExtent ocr_
  = fst (fold_left step (displayed_words ocr_) (∅, 0)).
Proof. rewrite index_page_fold. unfold displayed_words. now rewrite fold_displayed. Qed.

(** The index of a page holds, under the id of every displayed word, the
    count of the last displayed word with that id, and nothing else. *)
Lemma index_page_last (before after : list OcrWord) (w : OcrWord) :
  displayed_words ocr_ = (before ++ w :: after)%list ->
  ~ In (wid w) (map wid after) ->
  index_page imageExtent ocr_ !! wid w = Some (Z.of_nat (List.length before)).
Proof.
  intros Heq Hlast. rewrite index_page_writes.
  destruct (fold_writes (displayed_words ocr_) ∅ 0 displayed_words_shown) as [_ Hsplit].
  now rewrite (Hsplit before w after Heq Hlast).
Qed.

Lemma index_page_absent (k : string) :
  index_page imageExtent ocr_ !! k = None <-> ~ In k (map wid (displayed_words ocr_)).
Proof.
  rewrite index_page_writes.
  destruct (fold_writes (displayed_words ocr_) ∅ 0 displayed_words_shown)
    as [Hother Hsplit].
  split.
  - intros Hnone Hin.
    destruct (last_occurrence wid k _ Hin) as (before & u & after & Heq & Eu & Hlast).
    rewrite <- Eu, (Hsplit before u after Heq Hlast) in Hnone. discriminate.
  - intros Hnot. rewrite (Hother k Hnot). apply lookup_empty.
Qed.

End PageWrites.

(** ** C4 *)

(** C4. Building the order index gives every page number of the OCR answer
    (from 1, by its last read result) an index of its own. The displayed
    words of the page are counted from 0 in the traversal of lines then
    words and each count is written under the word's region id, a later
    write replacing an earlier one: the index holds, under the id of every
    displayed word, the count of the last displayed word with that id, and
    nothing under any other id. Hence, when the displayed words of the
    page have distinct ids, every displayed word is ranked by the number
    of displayed words before it (ranks start at 0 and grow by one from a
    displayed word to the next). A word is hidden exactly when its text is
    one or more underscores and nothing else. *)
Theorem buildRegionOrders_ranks (c : Canvas) (ocrs : OcrResponse)
    (earlier later : list OcrReadResult) (ocr_ : OcrReadResult) :
  ocr c = Some ocrs ->
  imageMap c <> None ->
  ocrResults_of ocrs = Some (earlier ++ ocr_ :: later)%list ->
  ~ In (ocr_page ocr_) (map ocr_page later) ->
  1 <= ocr_page ocr_ ->
  (exists c' index,
      buildRegionOrders c = Completed c'
      /\ page_index (regionOrders c') (Z.to_nat (ocr_page ocr_ - 1)) = Some index
      /\ (forall before w after,
            displayed_words ocr_ = (before ++ w :: after)%list ->
            ~ In (word_id (getImageExtent c) ocr_ w)
                 (map (word_id (getImageExtent c) ocr_) after) ->
            index !! word_id (getImageExtent c) ocr_ w
            = Some (Z.of_nat (List.length before)))
      /\ (forall k,
            index !! k = None
            <-> ~ In k (map (word_id (getImageExtent c) ocr_) (displayed_words ocr_)))
      /\ (NoDup (map (word_id (getImageExtent c) ocr_) (displayed_words ocr_)) ->
          forall pre w post, page_words ocr_ = (pre ++ w :: post)%list ->
            shouldDisplayOcrWord (word_text w) = true ->
            index !! word_id (getImageExtent c) ocr_ w = Some (displayed_count pre)))
  /\ (forall t, shouldDisplayOcrWord t = false
                <-> exists n, (0 < n)%nat /\ t = underscores n).
Proof.
  intros Hocr Hmap Hres Hlast Hpage.
  split; [| exact shouldDisplayOcrWord_false].
  unfold buildRegionOrders. rewrite Hocr, Hres.
  destruct (imageMap c) as [fs|]; [| congruence].
  eexists _, (index_page (getImageExtent c) ocr_).
  split; [reflexivity |]. split.
  { cbn [regionOrders set_regionOrders]. now apply index_pages_last. }
  split; [intros before w after; apply index_page_last |].
  split; [apply index_page_absent |].
  intros Hnd pre w post Heq Hshown.
  assert (Hsplit : displayed_words ocr_
                   = (List.filter (fun w => shouldDisplayOcrWord (word_text w)) pre
                      ++ w :: List.filter (fun w => shouldDisplayOcrWord (word_text w)) post)%list).
  { unfold displayed_words. rewrite Heq, List.filter_app.
    cbn [List.filter]. now rewrite Hshown. }
  rewrite (index_page_last _ _ _ _ _ Hsplit); [reflexivity |].
  rewrite Hsplit, map_app in Hnd. apply NoDup_remove_2 in Hnd.
  intros Hin. apply Hnd. apply in_or_app. now right.
Qed.

(** ** C5 *)

Lemma find_order_none (regionId : string) (pageNumber_ : Z)
    (orders : list (option (gmap string Z))) :
  (forall i m, page_index orders i = Some m -> m !! regionId = None) ->
  find_order regionId pageNumber_ orders = None.
Proof.
  revert pageNumber_. induction orders as [|slot rest IH]; intros pn Habsent;
    [reflexivity |].
  cbn [find_order].
  assert (Hslot : slot ≫= (fun regions_ => regions_ !! regionId) = None).
  { destruct slot as [m|]; [| reflexivity]. exact (Habsent 0%nat m eq_refl). }
  rewrite Hslot. apply IH. intros i m Hi. exact (Habsent (S i) m Hi).
Qed.

Lemma find_order_first (regionId : string) (pageNumber_ : Z)
    (orders : list (option (gmap string Z))) (i : nat) (m : gmap string Z) (o : Z) :
  page_index orders i = Some m ->
  m !! regionId = Some o ->
  (forall j m', (j < i)%nat -> page_index orders j = Some m' -> m' !! regionId = None) ->
  find_order regionId pageNumber_ orders
  = Some {| order_page := pageNumber_ + Z.of_nat i + 1; order := o |}.
Proof.
  revert pageNumber_ i. induction orders as [|slot rest IH]; intros pn i Hi Hm Hfirst.
  - destruct i; discriminate Hi.
  - cbn [find_order]. destruct i as [|i].
    + unfold page_index in Hi. cbn in Hi. destruct slot as [m0|]; [| discriminate].
      injection Hi as ->. cbn. rewrite Hm. do 2 f_equal. lia.
    + assert (Hslot : slot ≫= (fun regions_ => regions_ !! regionId) = None).
      { destruct slot as [m0|]; [| reflexivity].
        apply (Hfirst 0%nat m0); [lia | reflexivity]. }
      rewrite Hslot.
      rewrite (IH (pn + 1) i Hi Hm).
      * do 2 f_equal. lia.
      * intros j m' Hj Hpj. apply (Hfirst (S j) m'); [lia | exact Hpj].
Qed.

(** C5. [getRegionOrder] gives a region id the page and rank of the first
    page whose index holds it, and page 1, rank 0 when no page's index
    does; [compareRegionOrder] answers 1 when the first region's page is
    the greater, or the pages are equal and its rank is the greater, and
    -1 otherwise: by page first, then by rank ascending. *)
Theorem compareRegionOrder_by_page_then_order (c : Canvas) (r1 r2 : IRegion) :
  (forall regionId,
      (forall i m, page_index (regionOrders c) i = Some m -> m !! regionId = None) ->
      getRegionOrder c regionId = {| order_page := 1; order := 0 |})
  /\ (forall regionId i m o,
        page_index (regionOrders c) i = Some m ->
        m !! regionId = Some o ->
        (forall j m', (j < i)%nat -> page_index (regionOrders c) j = Some m' ->
                      m' !! regionId = None) ->
        getRegionOrder c regionId = {| order_page := Z.of_nat i + 1; order := o |})
  /\ compareRegionOrder c r1 r2
     = (let k1 := getRegionOrder c (id r1) in
        let k2 := getRegionOrder c (id r2) in
        if decide (order_page k2 < order_page k1
                   \/ (order_page k1 = order_page k2 /\ order k2 < order k1))
        then 1 else -1).
Proof.
  split; [| split].
  - intros regionId Habsent. unfold getRegionOrder.
    now rewrite find_order_none.
  - intros regionId i m o Hi Hm Hfirst. unfold getRegionOrder.
    rewrite (find_order_first regionId 0 _ i m o Hi Hm Hfirst).
    do 2 f_equal.
  - unfold compareRegionOrder. cbv zeta.
    set (k1 := getRegionOrder c (id r1)). set (k2 := getRegionOrder c (id r2)).
    destruct (Z.eqb_spec (order_page k1) (order_page k2)) as [Epage | Npage].
    + destruct (Z.ltb_spec (order k2) (order k1)).
      * rewrite decide_True; [reflexivity | right; split; assumption].
      * rewrite decide_False; [reflexivity | lia].
    + destruct (Z.ltb_spec (order_page k2) (order_page k1)).
      * rewrite decide_True; [reflexivity | now left].
      * rewrite decide_False; [reflexivity | lia].
Qed.

(* ===================================================================== *)
(** * Region store                                                        *)
(* ===================================================================== *)

(** ** Features of the vector surface *)

Lemma float_list_eqb_eq (a b : list float) :
  float_list_eqb a b = true <-> a = b.
Proof.
  unfold float_list_eqb. revert b.
  induction a as [|fa a IH]; intros [|fb b]; cbn; try (split; (discriminate || reflexivity)).
  specialize (IH b). split.
  - intros H. apply andb_true_iff in H as [Hlen H].
    apply andb_true_iff in H as [Hhead Htail].
    apply FloatAxioms.Leibniz.eqb_spec in Hhead as ->.
    f_equal. apply IH. now rewrite Hlen, Htail.
  - intros H. injection H as -> ->.
    destruct IH as [_ IH]. specialize (IH eq_refl).
    apply andb_true_iff in IH as [Hlen Htail].
    rewrite Hlen, Htail.
    now rewrite (proj2 (FloatAxioms.Leibniz.eqb_spec fb fb) eq_refl).
Qed.

Lemma pairs_eq {A B : Type} (l l' : list (A * B)) :
  map fst l = map fst l' -> map snd l = map snd l' -> l = l'.
Proof.
  revert l'. induction l as [|[a b] l IH]; intros [|[a' b'] l']; cbn;
    try discriminate; [reflexivity |].
  intros H1 H2. injection H1 as -> H1. injection H2 as -> H2.
  f_equal. now apply IH.
Qed.

Lemma Feature_eqb_eq (f g : Feature) : Feature_eqb f g = true <-> f = g.
Proof.
  split.
  - unfold Feature_eqb. intros H.
    do 6 (apply andb_true_iff in H as [H ?]).
    destruct f as [gf idf tf bf hf pf], g as [gg idg tg bg hg pg];
      cbn [geometry feature_id feature_text boundingbox highlighted isOcrProposal] in *.
    apply float_list_eqb_eq in H.
    match goal with E : float_list_eqb (map snd _) _ = true |- _ =>
      apply float_list_eqb_eq in E; rename E into Hsnd end.
    repeat match goal with E : String.eqb _ _ = true |- _ =>
      apply String.eqb_eq in E; subst end.
    repeat match goal with E : Bool.eqb _ _ = true |- _ =>
      apply Bool.eqb_prop in E; subst end.
    rewrite (pairs_eq gf gg H Hsnd).
    destruct bf as [bf|], bg as [bg|]; try discriminate; [| reflexivity].
    match goal with E : float_list_eqb bf bg = true |- _ =>
      apply float_list_eqb_eq in E; subst end.
    reflexivity.
  - intros <-. unfold Feature_eqb.
    rewrite !(proj2 (float_list_eqb_eq _ _) eq_refl), !String.eqb_refl, !Bool.eqb_reflx.
    destruct (boundingbox f) as [b|]; [| reflexivity].
    now rewrite (proj2 (float_list_eqb_eq _ _) eq_refl).
Qed.

Lemma removeFeature_head (f : Feature) (fs : list Feature) :
  removeFeature f (f :: fs) = fs.
Proof.
  cbn [removeFeature]. now rewrite (proj2 (Feature_eqb_eq f f) eq_refl).
Qed.

Lemma removeFeature_skip (f g : Feature) (fs : list Feature) :
  g <> f -> removeFeature f (g :: fs) = g :: removeFeature f fs.
Proof.
  intros Hne. cbn [removeFeature].
  destruct (Feature_eqb g f) eqn:E; [| reflexivity].
  apply Feature_eqb_eq in E. contradiction.
Qed.

Lemma remove_all_skip (g : Feature) (selected fs : list Feature) :
  ~ In g selected ->
  fold_left (fun fs f => removeFeature f fs) selected (g :: fs)
  = g :: fold_left (fun fs f => removeFeature f fs) selected fs.
Proof.
  revert fs. induction selected as [|f selected IH]; intros fs Hnot; [reflexivity |].
  cbn [fold_left]. rewrite removeFeature_skip.
  - apply IH. intros Hin. apply Hnot. now right.
  - intros ->. apply Hnot. now left.
Qed.

(** Taking away, one by one, the features of a surface that satisfy [sel]
    leaves exactly the others, in place. *)
Lemma remove_selected (sel : Feature -> bool) (fs : list Feature) :
  fold_left (fun fs f => removeFeature f fs) (List.filter sel fs) fs
  = List.filter (fun f => negb (sel f)) fs.
Proof.
  induction fs as [|g fs IH]; [reflexivity |].
  cbn [List.filter]. destruct (sel g) eqn:Hg; cbn [negb].
  - cbn [fold_left]. rewrite removeFeature_head. exact IH.
  - rewrite remove_all_skip; [now rewrite IH |].
    intros Hin. apply filter_In in Hin as [_ Hsel]. congruence.
Qed.

Lemma filter_filter_and {A : Type} (p q : A -> bool) (l : list A) :
  List.filter p (List.filter q l) = List.filter (fun a => q a && p a) l.
Proof.
  induction l as [|a l IH]; [reflexivity |].
  cbn [List.filter]. destruct (q a); cbn [List.filter andb]; [| exact IH].
  destruct (p a); now rewrite IH.
Qed.

Lemma filter_ext_bool {A : Type} (p q : A -> bool) (l : list A) :
  (forall a, p a = q a) -> List.filter p l = List.filter q l.
Proof.
  intros H. induction l as [|a l IH]; [reflexivity |].
  cbn [List.filter]. now rewrite H, IH.
Qed.

Lemma deleteRegionsFromImageMap_features (rs : list IRegion) (c : Canvas) :
  imageMap (deleteRegionsFromImageMap rs c)
  = option_map
      (List.filter (fun f => isOcrProposal f || negb (has_id (feature_id f) rs)))
      (imageMap c).
Proof.
  unfold deleteRegionsFromImageMap.
  destruct (imageMap c) as [fs|] eqn:E; [| now rewrite E].
  cbn [imageMap set_imageMap option_map]. f_equal.
  rewrite filter_filter_and, remove_selected.
  apply filter_ext_bool. intros f.
  destruct (isOcrProposal f), (has_id (feature_id f) rs); reflexivity.
Qed.

Lemma imageMap_updateAssetRegions (rs : list IRegion) (c : Canvas) :
  imageMap (updateAssetRegions rs c) = imageMap c.
Proof. reflexivity. Qed.

Lemma imageMap_deleteRegionsFromSelectedRegionIds (rs : list IRegion) (c : Canvas) :
  imageMap (deleteRegionsFromSelectedRegionIds rs c) = imageMap c.
Proof.
  unfold deleteRegionsFromSelectedRegionIds. revert c.
  induction rs as [|r rs IH]; intros c; [reflexivity |].
  cbn [fold_left]. rewrite IH.
  destruct (0 <=? getIndexOfSelectedRegionIds c (id r)); reflexivity.
Qed.

(** ** C10 *)

(** C10. Deleting regions takes off the vector surface exactly the
    features that are no OCR proposal and carry the id of a deleted
    region: the OCR proposals on the surface are the same before and
    after, whether the whole of [deleteRegions] runs or its step
    [deleteRegionsFromImageMap] alone. *)
Theorem deleteRegions_keeps_ocr_proposals (rs : list IRegion) (c : Canvas) :
  imageMap (deleteRegions rs c)
  = option_map
      (List.filter (fun f => isOcrProposal f || negb (has_id (feature_id f) rs)))
      (imageMap c)
  /\ option_map (List.filter isOcrProposal)
       (imageMap (deleteRegions rs c))
     = option_map (List.filter isOcrProposal) (imageMap c)
  /\ option_map (List.filter isOcrProposal)
       (imageMap (deleteRegionsFromImageMap rs c))
     = option_map (List.filter isOcrProposal) (imageMap c).
Proof.
  assert (Hkeep : forall fs : list Feature,
    List.filter isOcrProposal
      (List.filter (fun f => isOcrProposal f || negb (has_id (feature_id f) rs)) fs)
    = List.filter isOcrProposal fs).
  { intros fs. rewrite filter_filter_and. apply filter_ext_bool.
    intros f. destruct (isOcrProposal f); [reflexivity | apply andb_false_r]. }
  assert (Hall : imageMap (deleteRegions rs c)
                 = option_map
                     (List.filter (fun f => isOcrProposal f
                                            || negb (has_id (feature_id f) rs)))
                     (imageMap c)).
  { unfold deleteRegions, deleteRegionsFromAsset.
    rewrite deleteRegionsFromImageMap_features, imageMap_updateAssetRegions.
    now rewrite imageMap_deleteRegionsFromSelectedRegionIds. }
  split; [exact Hall |]. split.
  - rewrite Hall. destruct (imageMap c) as [fs|]; [| reflexivity].
    cbn [option_map]. now rewrite Hkeep.
  - rewrite deleteRegionsFromImageMap_features.
    destruct (imageMap c) as [fs|]; [| reflexivity].
    cbn [option_map]. now rewrite Hkeep.
Qed.

(** ** Sets, indices, selection *)

Lemma Set_onto_In {A : Type} `{EqDecision A} (seen values : list A) (a : A) :
  In a (JS.Set_onto seen values) <-> In a values /\ ~ In a seen.
Proof.
  revert seen. induction values as [|v values IH]; intros seen; cbn [JS.Set_onto].
  - cbn. tauto.
  - destruct (bool_decide (v ∈ seen)) eqn:E.
    + apply bool_decide_eq_true in E. apply list_elem_of_In in E.
      rewrite IH. cbn. split; [tauto |].
      intros [[-> | Hin] Hnot]; [contradiction | tauto].
    + apply bool_decide_eq_false in E. rewrite list_elem_of_In in E.
      cbn. rewrite IH. cbn. split.
      * intros [<- | [Hin Hnot]]; [tauto |]. split; [tauto |]. tauto.
      * intros [[<- | Hin] Hnot]; [tauto |].
        destruct (decide (v = a)) as [-> | Hne]; [tauto |]. right. tauto.
Qed.

Lemma Set_onto_NoDup {A : Type} `{EqDecision A} (seen values : list A) :
  NoDup (JS.Set_onto seen values).
Proof.
  revert seen. induction values as [|v values IH]; intros seen; cbn [JS.Set_onto].
  - constructor.
  - destruct (bool_decide (v ∈ seen)); [apply IH |].
    apply NoDup_cons_iff. split; [| apply IH].
    rewrite Set_onto_In. cbn. tauto.
Qed.

Lemma Set_of_In {A : Type} `{EqDecision A} (values : list A) (a : A) :
  In a (JS.Set_of values) <-> In a values.
Proof. unfold JS.Set_of. rewrite Set_onto_In. cbn. tauto. Qed.

Lemma Set_of_NoDup {A : Type} `{EqDecision A} (values : list A) :
  NoDup (JS.Set_of values).
Proof. apply Set_onto_NoDup. Qed.

(** A set has more than one member exactly when two of the values differ. *)
Lemma Set_of_size {A : Type} `{EqDecision A} (values : list A) :
  (1 < List.length (JS.Set_of values))%nat
  <-> exists a b, In a values /\ In b values /\ a <> b.
Proof.
  pose proof (Set_of_NoDup values) as Hnd.
  pose proof (Set_of_In values) as Hin.
  destruct (JS.Set_of values) as [|a [|b rest]] eqn:E.
  - cbn. split; [lia |]. intros (a & _ & Ha & _). now apply Hin in Ha.
  - cbn. split; [lia |]. intros (x & y & Hx & Hy & Hne).
    apply Hin in Hx as [<- | []]. apply Hin in Hy as [<- | []]. congruence.
  - cbn [List.length]. split; [| lia]. intros _. exists a, b.
    split; [apply Hin; now left |]. split; [apply Hin; right; now left |].
    apply NoDup_cons_iff in Hnd as [Ha _]. intros ->. apply Ha. now left.
Qed.

Lemma findIndex_spec {A : Type} (p : A -> bool) (l : list A) :
  (JS.findIndex p l = -1 /\ forall a, In a l -> p a = false)
  \/ (0 <= JS.findIndex p l /\ exists a, In a l /\ p a = true).
Proof.
  induction l as [|a l IH]; cbn [JS.findIndex].
  - left. split; [reflexivity | intros a []].
  - destruct (p a) eqn:Ha.
    + right. split; [lia |]. exists a. split; [now left | exact Ha].
    + destruct IH as [[E Hall] | [Hpos (b & Hb & Hpb)]].
      * left. rewrite E. split; [reflexivity |].
        intros b [<- | Hb]; [exact Ha | now apply Hall].
      * right. split.
        -- destruct (JS.findIndex p l); lia.
        -- exists b. split; [now right | exact Hpb].
Qed.

Lemma has_id_true (regionId : string) (rs : list IRegion) :
  has_id regionId rs = true <-> exists r, In r rs /\ id r = regionId.
Proof.
  unfold has_id.
  destruct (findIndex_spec (fun r => String.eqb (id r) regionId) rs)
    as [[E Hall] | [Hpos (r & Hr & Hp)]].
  - rewrite E. cbn. split; [discriminate |].
    intros (r & Hr & Hid). specialize (Hall r Hr). cbn in Hall.
    apply String.eqb_neq in Hall. contradiction.
  - split.
    + intros _. exists r. split; [exact Hr | now apply String.eqb_eq].
    + intros _. apply negb_true_iff. apply Z.eqb_neq. lia.
Qed.

Lemma isSelectedRegion_ids (c c' : Canvas) (r r' : IRegion) :
  selectedRegionIds c' = selectedRegionIds c -> id r' = id r ->
  isSelectedRegion c' r' = isSelectedRegion c r.
Proof. unfold isSelectedRegion. now intros -> ->. Qed.

Lemma getSelectedRegions_no_ids (c : Canvas) :
  selectedRegionIds c = [] -> getSelectedRegions c = [].
Proof.
  intros E. unfold getSelectedRegions, isSelectedRegion. rewrite E.
  induction (regions c) as [|r rs IH]; [reflexivity | exact IH].
Qed.

(** ** [applyTag] *)

Lemma applyTag_noop (tag : string) (c : Canvas) :
  tag = EmptyString \/ getSelectedRegions c = [] -> applyTag tag c = c.
Proof.
  intros [-> | E]; unfold applyTag; cbv zeta; [reflexivity |].
  rewrite E. cbn [List.length Nat.eqb]. now rewrite orb_true_r.
Qed.

Lemma applyTag_guard (tag : string) (c : Canvas) :
  tag <> EmptyString -> getSelectedRegions c <> [] ->
  String.eqb tag EmptyString || (List.length (getSelectedRegions c) =? 0)%nat = false.
Proof.
  intros Htag Hsel. apply orb_false_intro; [now apply String.eqb_neq |].
  destruct (getSelectedRegions c); [congruence | reflexivity].
Qed.

Lemma pageCountWithTag_candidates (tag : string) (c : Canvas) :
  pageCountWithTag tag (getSelectedRegions c) c
  = Z.of_nat (List.length (JS.Set_of (map pageNumber (tag_candidates tag c)))).
Proof. reflexivity. Qed.

Lemma applyTag_rejected (tag : string) (c : Canvas) :
  tag <> EmptyString -> getSelectedRegions c <> [] ->
  1 < pageCountWithTag tag (getSelectedRegions c) c ->
  applyTag tag c
  = set_error (multiPageFieldWarning tag (pageCountWithTag tag (getSelectedRegions c) c)) c.
Proof.
  intros Htag Hsel Hcount. unfold applyTag; cbv zeta.
  rewrite (applyTag_guard tag c Htag Hsel).
  unfold showMultiPageFieldWarningIfNecessary; cbv zeta.
  apply Z.ltb_lt in Hcount. now rewrite Hcount.
Qed.

Lemma fold_no_push (rs updates acc : list IRegion) :
  (forall u, In u updates -> has_id (id u) rs = true) ->
  fold_left (fun acc update => if has_id (id update) rs then acc else (acc ++ [update])%list)
    updates acc = acc.
Proof.
  revert acc. induction updates as [|u updates IH]; intros acc Hall; [reflexivity |].
  cbn [fold_left]. rewrite (Hall u (or_introl eq_refl)).
  apply IH. intros v Hv. apply Hall. now right.
Qed.

Lemma id_retag (tag : string) (c : Canvas) (r : IRegion) : id (retag tag c r) = id r.
Proof. unfold retag. now destruct (isSelectedRegion c r). Qed.

Lemma pageNumber_retag (tag : string) (c : Canvas) (r : IRegion) :
  pageNumber (retag tag c r) = pageNumber r.
Proof. unfold retag. now destruct (isSelectedRegion c r). Qed.

Lemma applyTag_applied (tag : string) (c : Canvas) :
  tag <> EmptyString -> getSelectedRegions c <> [] ->
  pageCountWithTag tag (getSelectedRegions c) c <= 1 ->
  applyTag tag c
  = set_selectedRegionIds []
      (updateAssetRegions
         (array_sort (compareRegionOrder c) (map (retag tag c) (regions c))) c).
Proof.
  intros Htag Hsel Hcount. unfold applyTag; cbv zeta.
  rewrite (applyTag_guard tag c Htag Hsel).
  unfold showMultiPageFieldWarningIfNecessary; cbv zeta.
  apply Z.ltb_ge in Hcount. rewrite Hcount.
  unfold updateRegions; cbv zeta.
  change (fun r : IRegion =>
            if isSelectedRegion c r then with_tags (setSingleTag (tags r) tag) r else r)
    with (retag tag c).
  cbn [regions set_asset].
  rewrite fold_no_push; [reflexivity |].
  intros u Hu. apply in_map_iff in Hu as (r & <- & Hr).
  apply has_id_true. exists (retag tag c r).
  split; [| reflexivity].
  apply in_map. unfold getSelectedRegions in Hr. now apply filter_In in Hr.
Qed.

Lemma distinct_pages_count (tag : string) (c : Canvas) :
  1 < pageCountWithTag tag (getSelectedRegions c) c
  <-> exists r1 r2, In r1 (tag_candidates tag c) /\ In r2 (tag_candidates tag c)
                    /\ pageNumber r1 <> pageNumber r2.
Proof.
  rewrite pageCountWithTag_candidates.
  assert (H : 1 < Z.of_nat (List.length (JS.Set_of (map pageNumber (tag_candidates tag c))))
              <-> (1 < List.length (JS.Set_of (map pageNumber (tag_candidates tag c))))%nat)
    by lia.
  rewrite H, Set_of_size. split.
  - intros (p1 & p2 & H1 & H2 & Hne).
    apply in_map_iff in H1 as (r1 & <- & H1). apply in_map_iff in H2 as (r2 & <- & H2).
    now exists r1, r2.
  - intros (r1 & r2 & H1 & H2 & Hne).
    exists (pageNumber r1), (pageNumber r2).
    repeat split; [now apply in_map | now apply in_map | exact Hne].
Qed.

(** ** C2 *)

(** C2. With a non-empty tag and a non-empty selection, [applyTag]
    rejects exactly when the regions already tagged with the tag together
    with the selected regions lie on more than one page. A rejection
    leaves the region list (every region's tags with it) and the
    selection as they are and shows the message
    [Sorry, we don't support cross-page regions with the same tag. You
    have regions with tag "<tag>" across <n> pages.], in which the tag
    stands between double quotes (character 34) and <n> is the decimal
    numeral of the number of distinct pages. Otherwise no message is
    shown: every selected region's tag list becomes the one tag, the list
    is sorted and the selection is cleared. A region counts as tagged
    with the tag when the tag is its first tag, which is to carry the tag
    as long as no region has more than one. *)
Theorem applyTag_rejects_cross_page (tag : string) (c : Canvas) :
  tag <> EmptyString ->
  getSelectedRegions c <> [] ->
  ((exists r1 r2, In r1 (tag_candidates tag c) /\ In r2 (tag_candidates tag c)
                  /\ pageNumber r1 <> pageNumber r2) ->
   exists pages,
     NoDup pages
     /\ (forall p, In p pages
                   <-> exists r, In r (tag_candidates tag c) /\ pageNumber r = p)
     /\ applyTag tag c
        = set_error (multiPageFieldWarning tag (Z.of_nat (List.length pages))) c
     /\ regions (applyTag tag c) = regions c
     /\ selectedRegionIds (applyTag tag c) = selectedRegionIds c
     /\ isError (applyTag tag c) = true
     /\ errorMessage (applyTag tag c)
        = Some ("Sorry, we don't support cross-page regions with the same tag."
                ++ " You have regions with tag "
                ++ String "034" tag ++ String "034" " across "
                ++ JS.integerToString (Z.of_nat (List.length pages)) ++ " pages.")
     /\ JS.digits_value (JS.integerToString (Z.of_nat (List.length pages)))
        = Z.of_nat (List.length pages))
  /\ ((forall r1 r2, In r1 (tag_candidates tag c) -> In r2 (tag_candidates tag c) ->
                     pageNumber r1 = pageNumber r2) ->
      regions (applyTag tag c)
      = array_sort (compareRegionOrder c)
          (map (fun r => if isSelectedRegion c r then with_tags [tag] r else r)
               (regions c))
      /\ selectedRegionIds (applyTag tag c) = []
      /\ isError (applyTag tag c) = isError c
      /\ errorMessage (applyTag tag c) = errorMessage c)
  /\ ((forall r, In r (regions c) -> (List.length (tags r) <= 1)%nat) ->
      forall r, In r (tag_candidates tag c)
                <-> (In r (regions c) /\ In tag (tags r))
                    \/ In r (getSelectedRegions c)).
Proof.
  intros Htag Hsel. split; [| split].
  - intros Hcross. apply distinct_pages_count in Hcross.
    exists (JS.Set_of (map pageNumber (tag_candidates tag c))).
    split; [apply Set_of_NoDup |]. split.
    + intros p. rewrite Set_of_In, in_map_iff. split; intros (r & H1 & H2); eauto.
    + rewrite (applyTag_rejected tag c Htag Hsel Hcross).
      rewrite pageCountWithTag_candidates. repeat split.
      unfold JS.integerToString.
      destruct (Z.ltb_spec (Z.of_nat (List.length
                  (JS.Set_of (map pageNumber (tag_candidates tag c))))) 0) as [Hneg | _];
        [lia | apply digits_value_decimal; lia].
  - intros Hsame.
    assert (Hcount : pageCountWithTag tag (getSelectedRegions c) c <= 1).
    { apply Z.nlt_ge. intros Hcross. apply distinct_pages_count in Hcross.
      destruct Hcross as (r1 & r2 & H1 & H2 & Hne). apply Hne. now apply Hsame. }
    rewrite (applyTag_applied tag c Htag Hsel Hcount). repeat split.
  - intros Hsingle r. unfold tag_candidates.
    rewrite in_app_iff, filter_In.
    assert (Hfirst : In r (regions c) ->
              (String.eqb (hd EmptyString (tags r)) tag = true <-> In tag (tags r))).
    { intros Hr. specialize (Hsingle r Hr).
      destruct (tags r) as [|t [|t' ts]]; cbn [hd In List.length] in *; [| | lia].
      + rewrite String.eqb_eq. split; [congruence | tauto].
      + rewrite String.eqb_eq. tauto. }
    tauto.
Qed.

(** ** C9 *)

Lemma set_selectedRegionIds_same (c : Canvas) :
  set_selectedRegionIds (selectedRegionIds c) c = c.
Proof. now destruct c. Qed.

Lemma applyTag_cases (tag : string) (c : Canvas) :
  applyTag tag c = c
  \/ (exists message, applyTag tag c = set_error message c)
  \/ applyTag tag c
     = set_selectedRegionIds []
         (updateAssetRegions
            (array_sort (compareRegionOrder c) (map (retag tag c) (regions c))) c).
Proof.
  destruct (String.eqb_spec tag EmptyString) as [-> | Htag];
    [left; apply applyTag_noop; now left |].
  destruct (getSelectedRegions c) as [|r rs] eqn:Hsel;
    [left; apply applyTag_noop; now right |].
  assert (Hne : getSelectedRegions c <> []) by (rewrite Hsel; discriminate).
  destruct (Z.lt_ge_cases 1 (pageCountWithTag tag (getSelectedRegions c) c)) as [Hc | Hc].
  - right. left. eexists. now apply applyTag_rejected.
  - right. right. apply applyTag_applied; [assumption | assumption | lia].
Qed.

Lemma applyTag_twice (tag : string) (c : Canvas) :
  applyTag tag (applyTag tag c) = applyTag tag c.
Proof.
  destruct (String.eqb_spec tag EmptyString) as [-> | Htag];
    [reflexivity |].
  destruct (getSelectedRegions c) as [|r rs] eqn:Hsel.
  { rewrite (applyTag_noop tag c) by now right. apply applyTag_noop. now right. }
  assert (Hne : getSelectedRegions c <> []) by (rewrite Hsel; discriminate).
  destruct (Z.lt_ge_cases 1 (pageCountWithTag tag (getSelectedRegions c) c)) as [Hc | Hc].
  - rewrite (applyTag_rejected tag c Htag Hne Hc).
    set (message := multiPageFieldWarning tag _).
    rewrite (applyTag_rejected tag (set_error message c) Htag Hne Hc).
    reflexivity.
  - rewrite (applyTag_applied tag c Htag Hne) by lia.
    apply applyTag_noop. right. now apply getSelectedRegions_no_ids.
Qed.

Lemma with_tags_twice (ts : list string) (r : IRegion) :
  with_tags ts (with_tags ts r) = with_tags ts r.
Proof. reflexivity. Qed.

(** *** The order of the comparator *)

Lemma compareRegionOrder_below (c : Canvas) (a b : IRegion) :
  compareRegionOrder c a b = -1
  <-> order_page (getRegionOrder c (id a)) < order_page (getRegionOrder c (id b))
      \/ (order_page (getRegionOrder c (id a)) = order_page (getRegionOrder c (id b))
          /\ order (getRegionOrder c (id a)) <= order (getRegionOrder c (id b))).
Proof.
  unfold compareRegionOrder. cbv zeta.
  destruct (Z.eqb_spec (order_page (getRegionOrder c (id a)))
                       (order_page (getRegionOrder c (id b)))) as [E | Hne].
  - destruct (Z.ltb_spec (order (getRegionOrder c (id b)))
                         (order (getRegionOrder c (id a)))); lia.
  - destruct (Z.ltb_spec (order_page (getRegionOrder c (id b)))
                         (order_page (getRegionOrder c (id a)))); lia.
Qed.

Lemma compareRegionOrder_total (c : Canvas) (a b : IRegion) :
  compareRegionOrder c a b = -1 \/ compareRegionOrder c b a = -1.
Proof. rewrite !compareRegionOrder_below. lia. Qed.

Lemma compareRegionOrder_trans (c : Canvas) (a b d : IRegion) :
  compareRegionOrder c a b = -1 -> compareRegionOrder c b d = -1 ->
  compareRegionOrder c a d = -1.
Proof. rewrite !compareRegionOrder_below. lia. Qed.

Lemma compareRegionOrder_same_key (c : Canvas) (a b : IRegion) :
  compareRegionOrder c a b = -1 -> compareRegionOrder c b a = -1 ->
  getRegionOrder c (id a) = getRegionOrder c (id b).
Proof.
  rewrite !compareRegionOrder_below.
  destruct (getRegionOrder c (id a)) as [pa oa], (getRegionOrder c (id b)) as [pb ob].
  cbn [order_page order]. intros H1 H2.
  assert (pa = pb) by lia. assert (oa = ob) by lia. now subst.
Qed.

Lemma ascending_strongly (c : Canvas) (l : list IRegion) :
  ascending c l -> StronglySorted (fun a b => compareRegionOrder c a b = -1) l.
Proof.
  apply Sorted_StronglySorted. intros a b d. apply compareRegionOrder_trans.
Qed.

(** Two ascending arrangements of regions with keys of their own are one. *)
Lemma ascending_unique (c : Canvas) (l1 l2 : list IRegion) :
  ascending c l1 -> ascending c l2 -> Permutation l1 l2 ->
  NoDup (map (fun r => getRegionOrder c (id r)) l1) ->
  l1 = l2.
Proof.
  intros H1 H2. apply ascending_strongly in H1, H2.
  revert l2 H2. induction H1 as [|a1 t1 Ht1 IH Ha1]; intros l2 H2 Hperm Hnd.
  - now apply Permutation_nil in Hperm.
  - destruct H2 as [|a2 t2 Ht2 Ha2];
      [apply Permutation_sym, Permutation_nil in Hperm; discriminate |].
    cbn [map] in Hnd. apply NoDup_cons_iff in Hnd as [Hfresh Hnd].
    assert (E : a1 = a2).
    { assert (Hin2 : In a2 (a1 :: t1))
        by (apply (Permutation_in _ (Permutation_sym Hperm)); now left).
      destruct Hin2 as [E | Hin2]; [exact E |].
      assert (Hin1 : In a1 (a2 :: t2)) by (apply (Permutation_in _ Hperm); now left).
      destruct Hin1 as [E | Hin1]; [now symmetry |].
      exfalso. apply Hfresh.
      rewrite (compareRegionOrder_same_key c a1 a2).
      - now apply (in_map (fun r => getRegionOrder c (id r))).
      - exact (proj1 (Forall_forall _ _) Ha1 a2 Hin2).
      - exact (proj1 (Forall_forall _ _) Ha2 a1 Hin1). }
    subst a2. f_equal. apply IH; [exact Ht2 | | exact Hnd].
    now apply Permutation_cons_inv in Hperm.
Qed.

(** *** The second admissible sort *)

Lemma insert_ahead_perm (cmp : IRegion -> IRegion -> Z) (r : IRegion)
    (sorted : list IRegion) :
  Permutation (insert_ahead cmp r sorted) (r :: sorted).
Proof.
  induction sorted as [|s rest IH]; cbn [insert_ahead]; [reflexivity |].
  destruct (cmp r s <? 0); [reflexivity |].
  rewrite IH. apply perm_swap.
Qed.

Lemma insertion_sort_ahead_perm (cmp : IRegion -> IRegion -> Z) (l : list IRegion) :
  Permutation (insertion_sort_ahead cmp l) l.
Proof.
  unfold insertion_sort_ahead.
  assert (H : forall acc, Permutation
                (fold_left (fun sorted r => insert_ahead cmp r sorted) l acc)
                (acc ++ l)%list).
  { induction l as [|r l IH]; intros acc; cbn [fold_left].
    - now rewrite app_nil_r.
    - rewrite IH, insert_ahead_perm. apply Permutation_middle. }
  apply (H []).
Qed.

Lemma insert_ahead_ascending (c : Canvas) (r : IRegion) (sorted : list IRegion) :
  StronglySorted (fun a b => compareRegionOrder c a b = -1) sorted ->
  StronglySorted (fun a b => compareRegionOrder c a b = -1)
    (insert_ahead (compareRegionOrder c) r sorted).
Proof.
  induction 1 as [|s rest Hrest IH Hs]; cbn [insert_ahead].
  - constructor; constructor.
  - destruct (Z.ltb_spec (compareRegionOrder c r s) 0) as [Hlt | Hge].
    + assert (Hrs : compareRegionOrder c r s = -1).
      { destruct (compareRegionOrder_total c r s) as [H | H]; [exact H |].
        unfold compareRegionOrder in Hlt |- *. cbv zeta in Hlt |- *.
        destruct (_ =? _); destruct (_ <? _); lia. }
      constructor; [now constructor |].
      constructor; [exact Hrs |].
      apply Forall_forall. intros x Hx.
      apply (compareRegionOrder_trans c r s x Hrs).
      exact (proj1 (Forall_forall _ _) Hs x Hx).
    + assert (Hsr : compareRegionOrder c s r = -1)
        by (destruct (compareRegionOrder_total c r s) as [H | H]; [lia | exact H]).
      constructor; [exact IH |].
      apply Forall_forall. intros x Hx.
      apply (Permutation_in _ (insert_ahead_perm _ r rest)) in Hx.
      destruct Hx as [<- | Hx]; [exact Hsr |].
      exact (proj1 (Forall_forall _ _) Hs x Hx).
Qed.

Lemma insertion_sort_ahead_ascending (c : Canvas) (l : list IRegion) :
  ascending c (insertion_sort_ahead (compareRegionOrder c) l).
Proof.
  apply StronglySorted_Sorted. unfold insertion_sort_ahead.
  assert (H : forall acc,
             StronglySorted (fun a b => compareRegionOrder c a b = -1) acc ->
             StronglySorted (fun a b => compareRegionOrder c a b = -1)
               (fold_left (fun sorted r => insert_ahead (compareRegionOrder c) r sorted)
                  l acc)).
  { induction l as [|r l IH]; intros acc Hacc; [exact Hacc |].
    cbn [fold_left]. apply IH. now apply insert_ahead_ascending. }
  apply H. constructor.
Qed.

(** C9. Applying a tag twice in a row gives the state that applying it
    once gives: the first application clears the selection. When the same
    regions are selected again in between, the second application leaves
    every region as the first made it and hands the list to the sort once
    more: the region list is then the first one or the sort of the first
    one, a permutation of it whenever the sort permutes. It is the same
    list, with the same label data, when moreover the sort arranges in
    the comparator's order and no two regions of the asset have the same
    page and rank; regions the comparator does not tell apart may change
    places. After an application that is not rejected the tag list of
    every selected region is the one tag: replaced, not extended. *)
Theorem applyTag_idempotent (tag : string) (c : Canvas) :
  applyTag tag (applyTag tag c) = applyTag tag c
  /\ ((forall cmp l, Permutation (array_sort cmp l) l) ->
      Permutation
        (regions (applyTag tag
                    (set_selectedRegionIds (selectedRegionIds c) (applyTag tag c))))
        (regions (applyTag tag c))
      /\ (regions (applyTag tag
                     (set_selectedRegionIds (selectedRegionIds c) (applyTag tag c)))
          = regions (applyTag tag c)
          \/ regions (applyTag tag
                        (set_selectedRegionIds (selectedRegionIds c) (applyTag tag c)))
             = array_sort (compareRegionOrder c) (regions (applyTag tag c))))
  /\ ((forall cmp l, Permutation (array_sort cmp l) l) ->
      tag <> EmptyString ->
      getSelectedRegions c <> [] ->
      (forall r1 r2, In r1 (tag_candidates tag c) -> In r2 (tag_candidates tag c) ->
                     pageNumber r1 = pageNumber r2) ->
      forall r, In r (regions (applyTag tag c)) ->
                isSelectedRegion c r = true -> tags r = [tag])
  /\ ((forall cmp l, Permutation (array_sort cmp l) l) ->
      (forall l, ascending c (array_sort (compareRegionOrder c) l)) ->
      NoDup (map (fun r => getRegionOrder c (id r)) (regions c)) ->
      regions (applyTag tag
                 (set_selectedRegionIds (selectedRegionIds c) (applyTag tag c)))
      = regions (applyTag tag c)
      /\ labelData (applyTag tag
                      (set_selectedRegionIds (selectedRegionIds c) (applyTag tag c)))
         = labelData (applyTag tag c)).
Proof.
  split; [apply applyTag_twice |].
  assert (Hretagged : (forall cmp l, Permutation (array_sort cmp l) l) ->
            forall r, In r (array_sort (compareRegionOrder c) (map (retag tag c) (regions c))) ->
                      isSelectedRegion c r = true -> r = with_tags [tag] r).
  { intros Hperm r Hr Hselected.
    apply (Permutation_in _ (Hperm _ _)) in Hr.
    apply in_map_iff in Hr as (r0 & <- & _).
    rewrite (isSelectedRegion_ids c c r0 (retag tag c r0) eq_refl (id_retag tag c r0))
      in Hselected.
    unfold retag. now rewrite Hselected. }
  assert (Hagain : (forall cmp l, Permutation (array_sort cmp l) l) ->
            applyTag tag c
            = set_selectedRegionIds []
                (updateAssetRegions
                   (array_sort (compareRegionOrder c) (map (retag tag c) (regions c))) c) ->
            forall back,
              back = set_selectedRegionIds (selectedRegionIds c) (applyTag tag c) ->
              map (retag tag back)
                (array_sort (compareRegionOrder c) (map (retag tag c) (regions c)))
              = array_sort (compareRegionOrder c) (map (retag tag c) (regions c))).
  { intros Hperm E back Eback.
    set (sorted := array_sort (compareRegionOrder c) (map (retag tag c) (regions c))).
    rewrite <- (map_id sorted) at 2. apply map_ext_in.
    intros r Hr. unfold retag.
    destruct (isSelectedRegion back r) eqn:Hsel; [| reflexivity].
    symmetry. apply (Hretagged Hperm r Hr).
    rewrite <- Hsel. symmetry. apply isSelectedRegion_ids; [| reflexivity].
    rewrite Eback, E. reflexivity. }
  split; [| split].
  - intros Hperm.
    destruct (applyTag_cases tag c) as [E | [[message E] | E]].
    + rewrite E, set_selectedRegionIds_same, E. split; [reflexivity | now left].
    + rewrite E.
      change (set_selectedRegionIds (selectedRegionIds c) (set_error message c))
        with (set_selectedRegionIds (selectedRegionIds (set_error message c))
                (set_error message c)).
      rewrite set_selectedRegionIds_same, <- E, applyTag_twice.
      split; [reflexivity | now left].
    + pose proof (Hagain Hperm E _ eq_refl) as Hkept.
      rewrite E in Hkept |- *.
      set (sorted := array_sort (compareRegionOrder c) (map (retag tag c) (regions c)))
        in Hkept |- *.
      set (back := set_selectedRegionIds (selectedRegionIds c) _) in Hkept |- *.
      change (regions (set_selectedRegionIds [] (updateAssetRegions sorted c)))
        with sorted.
      destruct (applyTag_cases tag back) as [E' | [[message E'] | E']]; rewrite E'.
      * split; [reflexivity | now left].
      * split; [reflexivity | now left].
      * change (regions (set_selectedRegionIds [] (updateAssetRegions
                  (array_sort (compareRegionOrder back) (map (retag tag back) (regions back)))
                  back)))
          with (array_sort (compareRegionOrder c) (map (retag tag back) sorted)).
        rewrite Hkept. split; [apply Hperm | now right].
  - intros Hperm Htag Hsel Hsame r Hr Hselected.
    assert (Hcount : pageCountWithTag tag (getSelectedRegions c) c <= 1).
    { apply Z.nlt_ge. intros Hcross. apply distinct_pages_count in Hcross.
      destruct Hcross as (r1 & r2 & H1 & H2 & Hne). apply Hne. now apply Hsame. }
    rewrite (applyTag_applied tag c Htag Hsel Hcount) in Hr.
    rewrite (Hretagged Hperm r Hr Hselected). reflexivity.
  - intros Hperm Hasc Hnd.
    destruct (applyTag_cases tag c) as [E | [[message E] | E]].
    + rewrite E, set_selectedRegionIds_same, E. now split.
    + rewrite E.
      change (set_selectedRegionIds (selectedRegionIds c) (set_error message c))
        with (set_selectedRegionIds (selectedRegionIds (set_error message c))
                (set_error message c)).
      rewrite set_selectedRegionIds_same, <- E, applyTag_twice. now split.
    + pose proof (Hagain Hperm E _ eq_refl) as Hkept.
      rewrite E in Hkept |- *.
      set (sorted := array_sort (compareRegionOrder c) (map (retag tag c) (regions c)))
        in Hkept |- *.
      set (back := set_selectedRegionIds (selectedRegionIds c) _) in Hkept |- *.
      assert (Hsame : array_sort (compareRegionOrder c) sorted = sorted).
      { apply (ascending_unique c); [apply Hasc | apply Hasc | apply Hperm |].
        apply (Permutation_NoDup (l := map (fun r => getRegionOrder c (id r)) (regions c)));
          [| exact Hnd].
        apply Permutation_sym.
        transitivity (map (fun r => getRegionOrder c (id r)) sorted);
          [apply Permutation_map, Hperm |].
        transitivity (map (fun r => getRegionOrder c (id r)) (map (retag tag c) (regions c)));
          [apply Permutation_map, Hperm |].
        rewrite map_map.
        erewrite map_ext; [reflexivity |].
        intros r. cbv beta. now rewrite id_retag. }
      destruct (applyTag_cases tag back) as [E' | [[message E'] | E']]; rewrite E'.
      * now split.
      * now split.
      * change (regions (set_selectedRegionIds [] (updateAssetRegions
                  (array_sort (compareRegionOrder back) (map (retag tag back) (regions back)))
                  back)))
          with (array_sort (compareRegionOrder c) (map (retag tag back) sorted)).
        change (labelData (set_selectedRegionIds [] (updateAssetRegions
                  (array_sort (compareRegionOrder back) (map (retag tag back) (regions back)))
                  back)))
          with (Some (convertRegionsToLabelData
                        (array_sort (compareRegionOrder c) (map (retag tag back) sorted))
                        (asset_name c))).
        rewrite Hkept, Hsame. now split.
Qed.

(* ===================================================================== *)
(** * Label / region mapper                                               *)
(* ===================================================================== *)

Lemma Forall2_imap_map {A B C : Type} (R : B -> C -> Prop) (f : nat -> A -> B)
    (g : A -> C) (l : list A) :
  (forall i a, R (f i a) (g a)) -> Forall2 R (imap f l) (map g l).
Proof.
  revert f. induction l as [|a l IH]; intros f H; cbn [imap map]; constructor.
  - apply H.
  - apply IH. intros i b. apply H.
Qed.

Lemma Forall2_flat_map {A B C : Type} (R : B -> C -> Prop) (f : A -> list B)
    (g : A -> list C) (l : list A) :
  (forall a, In a l -> Forall2 R (f a) (g a)) ->
  Forall2 R (flat_map f l) (flat_map g l).
Proof.
  induction l as [|a l IH]; intros H; cbn [flat_map]; [constructor |].
  apply Forall2_app; [apply H; now left |].
  apply IH. intros b Hb. apply H. now right.
Qed.

Lemma regions_made_from_entries (ld : ILabelData) :
  Forall2 made_from (convertLabelDataToRegions ld) (label_entries (labels ld)).
Proof.
  unfold convertLabelDataToRegions, label_entries.
  apply Forall2_flat_map. intros l _.
  apply Forall2_flat_map. intros v _.
  apply Forall2_imap_map. intros i b. repeat split.
Qed.

Lemma Forall2_filter_bool {A B : Type} (R : A -> B -> Prop) (p : A -> bool)
    (q : B -> bool) (l : list A) (k : list B) :
  Forall2 (fun a b => R a b /\ p a = q b) l k ->
  Forall2 (fun a b => R a b /\ q b = true) (List.filter p l) (List.filter q k).
Proof.
  induction 1 as [|a b l k [HR Hpq] _ IH]; cbn [List.filter]; [constructor |].
  rewrite Hpq. destruct (q b) eqn:Hq; [constructor |]; auto.
Qed.

Lemma Forall2_weaken {A B : Type} (R S : A -> B -> Prop) (l : list A) (k : list B) :
  (forall a b, R a b -> S a b) -> Forall2 R l k -> Forall2 S l k.
Proof. intros H. induction 1; constructor; auto. Qed.

Lemma Forall2_with_right {A B : Type} (R : A -> B -> Prop) (P : B -> Prop)
    (l : list A) (k : list B) :
  Forall2 R l k -> Forall P k -> Forall2 (fun a b => R a b /\ P b) l k.
Proof.
  induction 1 as [|a b l k HR _ IH]; intros HP; constructor.
  - split; [exact HR | now apply Forall_inv in HP].
  - apply IH. now apply Forall_inv_tail in HP.
Qed.

Lemma Forall2_map_left {A B C : Type} (R : C -> B -> Prop) (f : A -> C)
    (l : list A) (k : list B) :
  Forall2 (fun a b => R (f a) b) l k -> Forall2 R (map f l) k.
Proof. induction 1; cbn [map]; constructor; assumption. Qed.

(** *** The field names of the converted label data *)

Lemma Set_onto_Some {A : Type} `{EqDecision A} (seen values : list A) :
  JS.Set_onto (map Some seen) (map Some values) = map Some (JS.Set_onto seen values).
Proof.
  revert seen. induction values as [|v values IH]; intros seen; [reflexivity |].
  cbn [map JS.Set_onto].
  assert (E : bool_decide (Some v ∈ map Some seen) = bool_decide (v ∈ seen)).
  { apply bool_decide_ext. rewrite !list_elem_of_In, in_map_iff. split.
    - intros (a & Ha & Hin). now injection Ha as <-.
    - intros Hin. now exists v. }
  rewrite E. destruct (bool_decide (v ∈ seen)); [apply IH |].
  cbn [map]. f_equal. apply (IH (v :: seen)).
Qed.

Lemma omap_Some {A : Type} (l : list A) : omap (fun name => name) (map Some l) = l.
Proof. induction l as [|a l IH]; [reflexivity |]. cbn. now rewrite IH. Qed.

Lemma fieldNames_of_single_tags (rs : list IRegion) (fields : list string) :
  map (fun region => head (tags region)) rs = map Some fields ->
  omap (fun name => name) (JS.Set_of (map (fun region => head (tags region)) rs))
  = JS.Set_of fields.
Proof.
  intros ->. unfold JS.Set_of.
  change (@nil (option string)) with (map (@Some string) []).
  now rewrite Set_onto_Some, omap_Some.
Qed.

Lemma Forall2_map_both {A B C : Type} (f : A -> C) (g : B -> C)
    (l : list A) (k : list B) :
  Forall2 (fun a b => f a = g b) l k -> map f l = map g k.
Proof. induction 1; cbn [map]; congruence. Qed.

Lemma heads_of_regions (ld : ILabelData) :
  map (fun region => head (tags region)) (convertLabelDataToRegions ld)
  = map Some (map entry_field (label_entries (labels ld))).
Proof.
  rewrite map_map. apply Forall2_map_both.
  eapply Forall2_weaken; [| apply regions_made_from_entries].
  intros r e (Ht & _ & _). now rewrite Ht.
Qed.

(** *** The boxes of the converted label data *)

Lemma flat_map_map {A B C : Type} (g : B -> list C) (h : A -> B) (l : list A) :
  flat_map g (map h l) = flat_map (fun a => g (h a)) l.
Proof. induction l as [|a l IH]; [reflexivity |]. cbn [map flat_map]. now rewrite IH. Qed.

Lemma flat_map_single {A B : Type} (k : A -> B) (l : list A) :
  flat_map (fun a => [k a]) l = map k l.
Proof. induction l as [|a l IH]; [reflexivity |]. cbn [map flat_map app]. now rewrite IH. Qed.

Lemma entries_of_converted (rs : list IRegion) (assetName : string) :
  label_entries (labels (convertRegionsToLabelData rs assetName))
  = flat_map
      (fun field =>
         map (region_entry field)
             (List.filter (fun region => bool_decide (field ∈ tags region)) rs))
      (omap (fun name => name) (JS.Set_of (map (fun region => head (tags region)) rs))).
Proof.
  unfold convertRegionsToLabelData, label_entries. cbn [labels].
  rewrite flat_map_map. apply flat_map_ext. intros field.
  cbn [label label_value]. rewrite flat_map_map.
  cbn [boundingBoxes page map]. apply flat_map_single.
Qed.

Lemma filter_field_map (field f0 : string) (rs : list IRegion) :
  List.filter (fun e => String.eqb (entry_field e) f0) (map (region_entry field) rs)
  = if String.eqb field f0 then map (region_entry field) rs else [].
Proof.
  induction rs as [|r rs IH]; [now destruct (String.eqb field f0) |].
  cbn [map List.filter]. rewrite IH.
  change (entry_field (region_entry field r)) with field.
  now destruct (String.eqb field f0).
Qed.

Lemma filter_field_flat_map (f0 : string) (names : list string)
    (X : string -> list IRegion) :
  NoDup names ->
  List.filter (fun e => String.eqb (entry_field e) f0)
    (flat_map (fun field => map (region_entry field) (X field)) names)
  = if bool_decide (f0 ∈ names) then map (region_entry f0) (X f0) else [].
Proof.
  induction names as [|a names IH]; intros Hnd; [reflexivity |].
  apply NoDup_cons_iff in Hnd as [Ha Hnd].
  cbn [flat_map]. rewrite List.filter_app, filter_field_map, (IH Hnd).
  destruct (String.eqb_spec a f0) as [-> | Hne].
  - rewrite (bool_decide_eq_false_2 (f0 ∈ names)) by now rewrite list_elem_of_In.
    rewrite app_nil_r.
    rewrite bool_decide_eq_true_2; [reflexivity | now left].
  - cbn [app]. apply (f_equal (fun b : bool => if b then _ else _)).
    apply bool_decide_ext. rewrite !list_elem_of_In. cbn. tauto.
Qed.

Lemma Forall2_In_left {A B : Type} (R : A -> B -> Prop) (l : list A) (k : list B)
    (a : A) :
  Forall2 R l k -> In a l -> exists b, In b k /\ R a b.
Proof.
  induction 1 as [|a' b l k HR _ IH]; intros Hin; [destruct Hin |].
  destruct Hin as [-> | Hin].
  - exists b. split; [now left | exact HR].
  - destruct (IH Hin) as (b' & Hb & HRb). exists b'. split; [now right | exact HRb].
Qed.

Lemma single_tag_member (f0 fe : string) :
  bool_decide (f0 ∈ [fe]) = String.eqb fe f0.
Proof.
  destruct (String.eqb_spec fe f0) as [-> | Hne].
  - apply bool_decide_eq_true_2. now left.
  - apply bool_decide_eq_false_2. intros H.
    apply list_elem_of_In in H as [E | []]. congruence.
Qed.

Lemma field_entries_of_converted (ld : ILabelData) (assetName f0 : string) :
  field_entries f0
    (labels (convertRegionsToLabelData (convertLabelDataToRegions ld) assetName))
  = map (region_entry f0)
      (List.filter (fun region => bool_decide (f0 ∈ tags region))
         (convertLabelDataToRegions ld)).
Proof.
  unfold field_entries. rewrite entries_of_converted.
  rewrite filter_field_flat_map.
  2:{ rewrite (fieldNames_of_single_tags _ _ (heads_of_regions ld)). apply Set_of_NoDup. }
  destruct (bool_decide _) eqn:E; [reflexivity |].
  apply bool_decide_eq_false in E.
  rewrite (fieldNames_of_single_tags _ _ (heads_of_regions ld)) in E.
  rewrite list_elem_of_In, Set_of_In in E.
  assert (Hnone : forall r, In r (convertLabelDataToRegions ld) ->
                            bool_decide (f0 ∈ tags r) = false).
  { intros r Hr.
    destruct (Forall2_In_left _ _ _ r (regions_made_from_entries ld) Hr) as (e & He & Ht & _).
    rewrite Ht, single_tag_member. apply String.eqb_neq. intros <-.
    apply E. now apply in_map. }
  induction (convertLabelDataToRegions ld) as [|r rs IH]; [reflexivity |].
  cbn [List.filter]. rewrite (Hnone r (or_introl eq_refl)).
  apply IH. intros r' Hr'. apply Hnone. now right.
Qed.

Lemma labels_of_converted (rs : list IRegion) (assetName : string) :
  map label (labels (convertRegionsToLabelData rs assetName))
  = omap (fun name => name) (JS.Set_of (map (fun region => head (tags region)) rs)).
Proof.
  unfold convertRegionsToLabelData. cbn [labels]. rewrite map_map. cbn [label].
  apply map_id.
Qed.

Lemma Set_onto_repeat {A : Type} `{EqDecision A} (a : A) (n : nat) (seen rest : list A) :
  JS.Set_onto seen (repeat a (S n) ++ rest)%list = JS.Set_onto seen (a :: rest).
Proof.
  revert seen. induction n as [|n IH]; intros seen; [reflexivity |].
  change (repeat a (S (S n)) ++ rest)%list with (a :: (repeat a (S n) ++ rest))%list.
  cbn [JS.Set_onto]. destruct (bool_decide (a ∈ seen)) eqn:E.
  - rewrite IH. cbn [JS.Set_onto]. now rewrite E.
  - rewrite IH. cbn [JS.Set_onto].
    rewrite bool_decide_eq_true_2 by now left. reflexivity.
Qed.

Lemma fields_of_label (l : ILabel) :
  map entry_field
    (flat_map (fun v => map (fun b => (label l, page v, b)) (boundingBoxes v))
              (label_value l))
  = repeat (label l)
      (List.length
         (flat_map (fun v => map (fun b => (label l, page v, b)) (boundingBoxes v))
                   (label_value l))).
Proof.
  induction (label_value l) as [|v vs IH]; [reflexivity |].
  cbn [flat_map]. rewrite map_app, length_app, repeat_app, IH. f_equal.
  induction (boundingBoxes v) as [|b bs IHb]; [reflexivity |].
  cbn [map List.length repeat]. now rewrite IHb.
Qed.

Lemma label_with_box_has_entry (l : ILabel) :
  (exists v, In v (label_value l) /\ boundingBoxes v <> []) ->
  exists n,
    List.length
      (flat_map (fun v => map (fun b => (label l, page v, b)) (boundingBoxes v))
                (label_value l)) = S n.
Proof.
  intros (v & Hv & Hb).
  induction (label_value l) as [|v' vs IH]; [destruct Hv |].
  cbn [flat_map]. rewrite length_app, length_map.
  destruct Hv as [-> | Hv].
  - destruct (boundingBoxes v) as [|b bs]; [congruence |].
    cbn [List.length]. eexists. reflexivity.
  - destruct (IH Hv) as (n & ->). eexists. rewrite Nat.add_succ_r. reflexivity.
Qed.

Lemma Set_of_fields (ls : list ILabel) :
  (forall l, In l ls -> exists v, In v (label_value l) /\ boundingBoxes v <> []) ->
  JS.Set_of (map entry_field (label_entries ls)) = JS.Set_of (map label ls).
Proof.
  unfold JS.Set_of. generalize (@nil string) as seen.
  induction ls as [|l ls IH]; intros seen Hbox; [reflexivity |].
  unfold label_entries. cbn [flat_map]. fold (label_entries ls).
  rewrite map_app, fields_of_label.
  destruct (label_with_box_has_entry l (Hbox l (or_introl eq_refl))) as (n & ->).
  rewrite Set_onto_repeat. cbn [map JS.Set_onto].
  destruct (bool_decide (label l ∈ seen)); [| f_equal];
    apply IH; intros l' Hl'; apply Hbox; now right.
Qed.

(** ** C3 *)

(** C3, as the code has it. For label data with well-formed boxes, the
    label data converted to regions and back holds for every field the
    boxes of that field, in order, with their pages and with coordinates
    numerically equal to the originals; its field names are those under
    which the original holds a box, each once, in the order of their first
    occurrence: all the field names of the original when each of its
    labels carries a box (a label without a box makes no region and is
    not written back). Every value entry written back holds one box. *)
Theorem label_data_round_trip (ld : ILabelData) (assetName : string) :
  well_formed_boxes ld ->
  (forall field,
      Forall2 entry_close
        (field_entries field
           (labels (convertRegionsToLabelData (convertLabelDataToRegions ld) assetName)))
        (field_entries field (labels ld)))
  /\ map label
       (labels (convertRegionsToLabelData (convertLabelDataToRegions ld) assetName))
     = JS.Set_of (map entry_field (label_entries (labels ld)))
  /\ ((forall l, In l (labels ld) ->
                 exists v, In v (label_value l) /\ boundingBoxes v <> []) ->
      map label
        (labels (convertRegionsToLabelData (convertLabelDataToRegions ld) assetName))
      = JS.Set_of (map label (labels ld)))
  /\ (forall l v,
        In l (labels (convertRegionsToLabelData (convertLabelDataToRegions ld)
                        assetName)) ->
        In v (label_value l) -> List.length (boundingBoxes v) = 1%nat).
Proof.
  intros Hwf.
  assert (Hnames :
    map label
      (labels (convertRegionsToLabelData (convertLabelDataToRegions ld) assetName))
    = JS.Set_of (map entry_field (label_entries (labels ld)))).
  { rewrite labels_of_converted.
    apply fieldNames_of_single_tags, heads_of_regions. }
  split; [| split; [exact Hnames | split]].
  - intros field. rewrite field_entries_of_converted.
    apply Forall2_map_left. unfold field_entries.
    eapply Forall2_weaken;
      [| apply Forall2_filter_bool
           with (R := fun r e => made_from r e
                                 /\ entry_box e <> []
                                 /\ Forall survives_formatting (entry_box e))].
    + intros r e [((Ht & Hp & Hid) & Hne & Hfmt) Hfield].
      apply String.eqb_eq in Hfield.
      unfold entry_close, region_entry.
      cbn [entry_field entry_page entry_box fst snd].
      repeat split; [now symmetry | exact Hp |].
      rewrite Hid, decodeRegionId_createRegionId by exact Hne.
      now apply formatting_precision.
    + eapply Forall2_weaken;
        [| apply Forall2_with_right;
             [apply regions_made_from_entries | exact Hwf]].
      intros r e [Hmade Hbox]. split; [split; [exact Hmade | exact Hbox] |].
      destruct Hmade as (Ht & _ & _). rewrite Ht. apply single_tag_member.
  - intros Hbox. rewrite Hnames. now apply Set_of_fields.
  - intros l v Hl Hv. unfold convertRegionsToLabelData in Hl. cbn [labels] in Hl.
    apply in_map_iff in Hl as (field & <- & _). cbn [label_value] in Hv.
    apply in_map_iff in Hv as (r & <- & _). reflexivity.
Qed.

(* ===================================================================== *)
(** * Where the code leaves the specification                             *)
(* ===================================================================== *)

(** C8. [removeFromSelectedRegions] reads the region to prune at the
    index the id has in [selectedRegionIds], but in the selected regions
    listed in the asset's order. With the tagged region first in the asset
    and the untagged one selected first, deselecting the untagged region
    inspects the tagged one and prunes nothing; with the untagged region
    first in the asset and the tagged one selected first, deselecting the
    tagged region inspects the untagged one and deletes the tagged
    region. *)
Theorem deselect_inspects_wrong_region :
  (let c := sample_canvas [region_total; region_draft]
                          [id region_draft; id region_total] in
   let feature := convertRegionToFeature region_draft (getImageExtent c) false in
   tags region_draft = []
   /\ isRegionSelected c (id region_draft) = true
   /\ selectedRegionIds (handleFeatureSelect feature true c) = [id region_total]
   /\ regions (handleFeatureSelect feature true c) = [region_total; region_draft])
  /\ (let c := sample_canvas [region_draft; region_total]
                             [id region_total; id region_draft] in
      let feature := convertRegionToFeature region_total (getImageExtent c) false in
      tags region_total = ["Total"]
      /\ isRegionSelected c (id region_total) = true
      /\ selectedRegionIds (handleFeatureSelect feature true c) = [id region_draft]
      /\ regions (handleFeatureSelect feature true c) = [region_draft]).
Proof.
  vm_compute. repeat split.
Qed.

(** C1. The bounds test of [goToPage] guards an empty block, so a target
    outside [1 .. numPages] goes through the whole transition. On a
    single-image asset (one page) with a tagged region and a selected
    untagged one, [goToPage(0)] completes with the selection emptied and
    the untagged region deleted; on a two-page PDF, [goToPage(3)] empties
    the selection, deletes the untagged region and then throws, when
    pdf.js rejects the page. *)
Theorem goToPage_out_of_range_is_carried_out :
  (let c := sample_canvas [region_total; region_draft] [id region_draft] in
   numPages c = 1
   /\ exists c',
        goToPage 0 c = Completed c'
        /\ selectedRegionIds c = [id region_draft]
        /\ selectedRegionIds c' = []
        /\ regions c' = [region_total]
        /\ currentPage c' = 1)
  /\ (let c := sample_pdf_canvas [region_total; region_draft] [id region_draft] in
      numPages c = 2
      /\ exists c',
           goToPage 3 c = Threw c'
           /\ selectedRegionIds c' = []
           /\ map id (regions c') = [id region_total]
           /\ currentPage c' = 1).
Proof.
  split; cbv zeta; (split; [reflexivity |]); eexists;
    (split; [vm_compute; reflexivity |]); vm_compute; repeat split.
Qed.

(** The reference sort is a permutation of its input. *)
Lemma insert_sorted_perm (cmp : IRegion -> IRegion -> Z) (r : IRegion)
    (sorted : list IRegion) :
  Permutation (insert_sorted cmp r sorted) (r :: sorted).
Proof.
  induction sorted as [|s rest IH]; cbn [insert_sorted]; [reflexivity |].
  destruct (0 <? cmp s r); [reflexivity |].
  rewrite IH. apply perm_swap.
Qed.

Lemma insertion_sort_perm (cmp : IRegion -> IRegion -> Z) (l : list IRegion) :
  Permutation (insertion_sort cmp l) l.
Proof.
  unfold insertion_sort.
  assert (H : forall acc, Permutation
                (fold_left (fun sorted r => insert_sorted cmp r sorted) l acc)
                (acc ++ l)%list).
  { induction l as [|r l IH]; intros acc; cbn [fold_left].
    - now rewrite app_nil_r.
    - rewrite IH, insert_sorted_perm. apply Permutation_middle. }
  apply (H []).
Qed.

(* ===================================================================== *)
(** * Further properties of the region store                              *)
(* ===================================================================== *)

(** Propositional steps that leave the runtime's functions alone. *)
Ltac propositional :=
  try clear array_sort; try clear decodeURIComponent; tauto.

(** ** Indices and splices *)

Lemma findIndex_split {A : Type} (p : A -> bool) (l : list A) :
  0 <= JS.findIndex p l ->
  exists pre a post,
    l = (pre ++ a :: post)%list /\ p a = true
    /\ (forall b, In b pre -> p b = false)
    /\ JS.findIndex p l = Z.of_nat (List.length pre).
Proof.
  induction l as [|a l IH]; cbn [JS.findIndex]; [lia |].
  destruct (p a) eqn:Ha.
  - intros _. exists [], a, l. repeat split; [exact Ha | intros b []].
  - destruct (JS.findIndex p l) as [|i|i] eqn:E; [| | lia]; intros _.
    + destruct IH as (pre & b & post & -> & Hb & Hpre & Hlen); [lia |].
      exists (a :: pre), b, post. repeat split; [exact Hb | |].
      * intros x [<- | Hx]; [exact Ha | now apply Hpre].
      * cbn [List.length]. lia.
    + destruct IH as (pre & b & post & -> & Hb & Hpre & Hlen); [lia |].
      exists (a :: pre), b, post. repeat split; [exact Hb | |].
      * intros x [<- | Hx]; [exact Ha | now apply Hpre].
      * cbn [List.length]. lia.
Qed.

Lemma drop_past {A : Type} (pre : list A) (a : A) (post : list A) :
  drop (S (List.length pre)) (pre ++ a :: post) = post.
Proof. induction pre as [|b pre IH]; [reflexivity | exact IH]. Qed.

Lemma splice1_at {A : Type} (pre : list A) (a : A) (post : list A) :
  JS.splice1 (Z.of_nat (List.length pre)) (pre ++ a :: post) = (pre ++ post)%list.
Proof.
  unfold JS.splice1.
  assert (E : (Z.of_nat (List.length pre) <? 0) = false) by (apply Z.ltb_ge; lia).
  rewrite E, List.length_app. cbn [List.length].
  rewrite Z.min_l by lia. rewrite Nat2Z.id.
  now rewrite take_app_length, drop_past.
Qed.

Lemma splice1_last {A : Type} (l : list A) :
  JS.splice1 (-1) l = removelast l.
Proof.
  unfold JS.splice1. cbn [Z.ltb Z.compare].
  induction l as [|a l IH] using rev_ind; [reflexivity |].
  rewrite removelast_last, List.length_app. cbn [List.length].
  replace (Z.to_nat (Z.max (Z.of_nat (List.length l + 1) + -1) 0)) with (List.length l) by lia.
  now rewrite take_app_length, drop_past, app_nil_r.
Qed.

Lemma has_id_cons (regionId : string) (r : IRegion) (rs : list IRegion) :
  has_id regionId (r :: rs) = String.eqb (id r) regionId || has_id regionId rs.
Proof.
  unfold has_id. cbn [JS.findIndex].
  destruct (String.eqb (id r) regionId); [reflexivity |]. cbn [orb].
  destruct (findIndex_spec (fun r => String.eqb (id r) regionId) rs)
    as [[E _] | [Hpos _]].
  - now rewrite E.
  - destruct (JS.findIndex _ rs) as [|i|i] eqn:E; [| | lia].
    + reflexivity.
    + reflexivity.
Qed.

Lemma has_id_app (regionId : string) (rs rs' : list IRegion) :
  has_id regionId (rs ++ rs') = has_id regionId rs || has_id regionId rs'.
Proof.
  induction rs as [|r rs IH]; [reflexivity |].
  cbn [app]. rewrite !has_id_cons, IH. now rewrite orb_assoc.
Qed.

Lemma has_id_false (regionId : string) (rs : list IRegion) :
  has_id regionId rs = false <-> forall r, In r rs -> id r <> regionId.
Proof.
  rewrite <- not_true_iff_false, has_id_true. split.
  - intros H r Hr E. apply H. now exists r.
  - intros H (r & Hr & E). now apply (H r).
Qed.

(** ** Membership in the selection *)

Lemma isSelectedRegion_In (c : Canvas) (r : IRegion) :
  isSelectedRegion c r = true
  <-> In (id r) (selectedRegionIds c) /\ id r <> EmptyString.
Proof.
  unfold isSelectedRegion.
  destruct (List.find (String.eqb (id r)) (selectedRegionIds c)) as [found|] eqn:E.
  - apply find_some in E as [Hin Heq]. apply String.eqb_eq in Heq. subst found.
    rewrite negb_true_iff, String.eqb_neq. propositional.
  - split; [discriminate |]. intros [Hin _].
    apply (find_none _ _ E) in Hin. now rewrite String.eqb_refl in Hin.
Qed.

Lemma isRegionSelected_In (c : Canvas) (regionId : string) :
  isRegionSelected c regionId = true <-> In regionId (selectedRegionIds c).
Proof.
  unfold isRegionSelected, getIndexOfSelectedRegionIds.
  destruct (findIndex_spec (fun id_ => String.eqb id_ regionId) (selectedRegionIds c))
    as [[E Hall] | [Hpos (a & Ha & Hp)]].
  - rewrite E. cbn. split; [discriminate |]. intros Hin.
    apply Hall in Hin. now rewrite String.eqb_refl in Hin.
  - apply String.eqb_eq in Hp. subst a. split; [intros _; exact Ha |].
    intros _. apply negb_true_iff, Z.eqb_neq. lia.
Qed.

Lemma In_splice1 {A : Type} (i : Z) (l : list A) (a : A) :
  In a (JS.splice1 i l) -> In a l.
Proof.
  unfold JS.splice1. intros H. apply in_app_or in H as [H | H].
  - rewrite <- (take_drop (Z.to_nat (if i <? 0 then Z.max (Z.of_nat (List.length l) + i) 0
                                       else Z.min i (Z.of_nat (List.length l)))) l).
    apply in_or_app. now left.
  - rewrite <- (take_drop (S (Z.to_nat (if i <? 0 then Z.max (Z.of_nat (List.length l) + i) 0
                                          else Z.min i (Z.of_nat (List.length l))))) l).
    apply in_or_app. now right.
Qed.

(** Removing the first occurrence of a value from a list without
    duplicates removes the value. *)
Lemma splice1_findIndex_NoDup (regionId : string) (ids : list string) :
  NoDup ids ->
  (if 0 <=? JS.findIndex (fun id_ => String.eqb id_ regionId) ids
   then JS.splice1 (JS.findIndex (fun id_ => String.eqb id_ regionId) ids) ids
   else ids)
  = List.filter (fun i => negb (String.eqb i regionId)) ids.
Proof.
  intros Hnd.
  destruct (findIndex_spec (fun id_ => String.eqb id_ regionId) ids)
    as [[E Hall] | [Hpos _]].
  - rewrite E. cbn. symmetry.
    clear E Hnd. induction ids as [|a ids IH]; [reflexivity |].
    cbn [List.filter]. rewrite (Hall a) by now left. cbn [negb]. f_equal.
    apply IH. intros b Hb. apply Hall. now right.
  - destruct (findIndex_split _ _ Hpos) as (pre & a & post & -> & Ha & Hpre & ->).
    apply String.eqb_eq in Ha. subst a.
    assert (E : (0 <=? Z.of_nat (List.length pre)) = true) by (apply Z.leb_le; lia).
    rewrite E, splice1_at, List.filter_app. cbn [List.filter].
    rewrite String.eqb_refl. cbn [negb].
    apply NoDup_remove in Hnd as [_ Hnot].
    assert (F : forall l : list string, ~ In regionId l ->
              List.filter (fun i => negb (String.eqb i regionId)) l = l).
    { induction l as [|b l IH]; [reflexivity |]. intros Hn.
      cbn [List.filter]. destruct (String.eqb_spec b regionId) as [-> | _].
      - exfalso. apply Hn. now left.
      - cbn [negb]. f_equal. apply IH. intros Hin. apply Hn. now right. }
    rewrite (F pre), (F post); [reflexivity | |];
      intros Hin; apply Hnot, in_or_app; propositional.
Qed.

(** ** What the store methods leave alone *)

Lemma deleteRegionsFromSelectedRegionIds_frame (rs : list IRegion) (c : Canvas) :
  deleteRegionsFromSelectedRegionIds rs c
  = set_selectedRegionIds
      (selectedRegionIds (deleteRegionsFromSelectedRegionIds rs c)) c.
Proof.
  unfold deleteRegionsFromSelectedRegionIds. revert c.
  induction rs as [|r rs IH]; intros c; cbn [fold_left].
  - now rewrite set_selectedRegionIds_same.
  - rewrite IH at 1.
    destruct (0 <=? getIndexOfSelectedRegionIds c (id r)); reflexivity.
Qed.

Lemma regions_deleteRegionsFromSelectedRegionIds (rs : list IRegion) (c : Canvas) :
  regions (deleteRegionsFromSelectedRegionIds rs c) = regions c.
Proof. now rewrite deleteRegionsFromSelectedRegionIds_frame. Qed.

Lemma In_deleteRegionsFromSelectedRegionIds (rs : list IRegion) (c : Canvas) (i : string) :
  In i (selectedRegionIds (deleteRegionsFromSelectedRegionIds rs c)) ->
  In i (selectedRegionIds c).
Proof.
  unfold deleteRegionsFromSelectedRegionIds. revert c.
  induction rs as [|r rs IH]; intros c; cbn [fold_left]; [propositional |].
  intros H. apply IH in H.
  destruct (0 <=? getIndexOfSelectedRegionIds c (id r)); [| exact H].
  cbn [selectedRegionIds set_selectedRegionIds] in H. now apply In_splice1 in H.
Qed.

Lemma set_imageMap_same (c : Canvas) : set_imageMap (imageMap c) c = c.
Proof. now destruct c. Qed.

Lemma deleteRegionsFromImageMap_frame (rs : list IRegion) (c : Canvas) :
  deleteRegionsFromImageMap rs c
  = set_imageMap (imageMap (deleteRegionsFromImageMap rs c)) c.
Proof.
  unfold deleteRegionsFromImageMap.
  destruct (imageMap c) eqn:E; [reflexivity |].
  rewrite E, <- E. symmetry. apply set_imageMap_same.
Qed.

Lemma addRegionsToImageMap_frame (rs : list IRegion) (c : Canvas) :
  addRegionsToImageMap rs c
  = set_imageMap (imageMap (addRegionsToImageMap rs c)) c.
Proof.
  unfold addRegionsToImageMap.
  destruct (imageMap c) eqn:E; [reflexivity |].
  rewrite E, <- E. symmetry. apply set_imageMap_same.
Qed.

Lemma filter_none {A : Type} (p : A -> bool) (l : list A) :
  (forall a, In a l -> p a = false) -> List.filter p l = [].
Proof.
  induction l as [|a l IH]; [reflexivity |]. intros H.
  cbn [List.filter]. rewrite (H a) by now left.
  apply IH. intros b Hb. apply H. now right.
Qed.

Lemma filter_all {A : Type} (p : A -> bool) (l : list A) :
  (forall a, In a l -> p a = true) -> List.filter p l = l.
Proof.
  induction l as [|a l IH]; [reflexivity |]. intros H.
  cbn [List.filter]. rewrite (H a) by now left. f_equal.
  apply IH. intros b Hb. apply H. now right.
Qed.

Lemma has_own_id (r : IRegion) (rs : list IRegion) :
  In r rs -> has_id (id r) rs = true.
Proof. intros H. apply has_id_true. now exists r. Qed.

(** The regions kept when [rs] is added stay the same when [rs] is added
    or deleted once more. *)
Lemma kept_twice (rs assetRegions : list IRegion) :
  List.filter (fun a => negb (has_id (id a) rs))
    (List.filter (fun a => negb (has_id (id a) rs)) assetRegions ++ rs)
  = List.filter (fun a => negb (has_id (id a) rs)) assetRegions.
Proof.
  rewrite List.filter_app, filter_filter_and.
  rewrite (filter_none _ rs), app_nil_r.
  - apply filter_ext_bool. intros a. now destruct (has_id (id a) rs).
  - intros a Ha. now rewrite (has_own_id a rs Ha).
Qed.

Lemma NoDup_map_filter {A B : Type} (f : A -> B) (p : A -> bool) (l : list A) :
  NoDup (map f l) -> NoDup (map f (List.filter p l)).
Proof.
  induction l as [|a l IH]; [propositional |]. cbn [map List.filter].
  intros H. apply NoDup_cons_iff in H as [Hnot Hnd].
  destruct (p a); [| now apply IH]. cbn [map]. apply NoDup_cons_iff.
  split; [| now apply IH]. intros Hin. apply Hnot.
  apply in_map_iff in Hin as (b & Hb & Hin). apply filter_In in Hin as [Hin _].
  apply in_map_iff. now exists b.
Qed.

(** ** Adding and deleting regions *)

(** X1. [addRegionsToAsset] is an upsert that keeps region ids unique: when
    the asset holds no id twice and neither do the regions added, the
    asset afterwards holds no id twice, holds every region added, and
    holds every earlier region whose id is not the id of a region added. *)
Theorem addRegionsToAsset_keeps_ids_unique (rs : list IRegion) (c : Canvas) :
  NoDup (map id (regions c)) ->
  NoDup (map id rs) ->
  NoDup (map id (regions (addRegionsToAsset rs c)))
  /\ (forall r, In r rs -> In r (regions (addRegionsToAsset rs c)))
  /\ (forall r, In r (regions c) -> has_id (id r) rs = false ->
                In r (regions (addRegionsToAsset rs c)))
  /\ (forall r, In r (regions (addRegionsToAsset rs c)) ->
                In r rs \/ (In r (regions c) /\ has_id (id r) rs = false)).
Proof.
  intros Hc Hrs.
  change (regions (addRegionsToAsset rs c))
    with (List.filter (fun a => negb (has_id (id a) rs)) (regions c) ++ rs)%list.
  split; [| split; [| split]].
  - rewrite map_app. apply NoDup_app; [now apply NoDup_map_filter | exact Hrs |].
    intros i Hi Hi'.
    apply in_map_iff in Hi as (a & <- & Ha). apply filter_In in Ha as [_ Ha].
    apply in_map_iff in Hi' as (b & Hb & Hin).
    apply negb_true_iff in Ha. now apply (proj1 (has_id_false _ _) Ha b).
  - intros r Hr. apply in_or_app. now right.
  - intros r Hr Hn. apply in_or_app. left. apply filter_In. now rewrite Hn.
  - intros r Hr. apply in_app_or in Hr as [Hr | Hr]; [| now left].
    apply filter_In in Hr as [Hr Hn]. right. now apply negb_true_iff in Hn.
Qed.

(** X2. Adding the same regions twice is adding them once, and deleting
    regions just added leaves the asset as if they had been deleted at
    once: when no region of the asset had one of their ids, the region
    list is the one before the addition. *)
Theorem addRegionsToAsset_absorbs (rs : list IRegion) (c : Canvas) :
  addRegionsToAsset rs (addRegionsToAsset rs c) = addRegionsToAsset rs c
  /\ deleteRegionsFromAsset rs (addRegionsToAsset rs c) = deleteRegionsFromAsset rs c
  /\ ((forall r, In r (regions c) -> has_id (id r) rs = false) ->
      regions (deleteRegionsFromAsset rs (addRegionsToAsset rs c)) = regions c).
Proof.
  assert (Hdel : deleteRegionsFromAsset rs (addRegionsToAsset rs c)
                 = deleteRegionsFromAsset rs c).
  { unfold deleteRegionsFromAsset, addRegionsToAsset, updateAssetRegions.
    cbn [regions set_asset asset_name]. rewrite kept_twice.
    destruct c; reflexivity. }
  split; [| split; [exact Hdel |]].
  - unfold addRegionsToAsset, updateAssetRegions.
    cbn [regions set_asset asset_name]. rewrite kept_twice.
    destruct c; reflexivity.
  - intros Hfresh. rewrite Hdel.
    change (regions (deleteRegionsFromAsset rs c))
      with (List.filter (fun a => negb (has_id (id a) rs)) (regions c)).
    apply filter_all. intros a Ha. now rewrite (Hfresh a Ha).
Qed.

Lemma deleteRegionsFromSelectedRegionIds_filter (rs : list IRegion) (c : Canvas) :
  NoDup (selectedRegionIds c) ->
  selectedRegionIds (deleteRegionsFromSelectedRegionIds rs c)
  = List.filter (fun i => negb (has_id i rs)) (selectedRegionIds c).
Proof.
  unfold deleteRegionsFromSelectedRegionIds. revert c.
  induction rs as [|r rs IH]; intros c Hnd; cbn [fold_left].
  - symmetry. now apply filter_all.
  - pose proof (splice1_findIndex_NoDup (id r) (selectedRegionIds c) Hnd) as E.
    fold (getIndexOfSelectedRegionIds c (id r)) in E.
    destruct (0 <=? getIndexOfSelectedRegionIds c (id r)).
    + rewrite IH; cbn [selectedRegionIds set_selectedRegionIds]; rewrite E.
      * rewrite filter_filter_and. apply filter_ext_bool. intros i.
        rewrite has_id_cons, (String.eqb_sym (id r) i).
        now destruct (String.eqb i (id r)), (has_id i rs).
      * now apply List.NoDup_filter.
    + rewrite IH by exact Hnd. rewrite E at 1.
      rewrite filter_filter_and. apply filter_ext_bool. intros i.
      rewrite has_id_cons, (String.eqb_sym (id r) i).
      now destruct (String.eqb i (id r)), (has_id i rs).
Qed.

(** X3. With no id selected twice, [deleteRegionsFromSelectedRegionIds]
    takes out of the selection exactly the ids of the regions it is given,
    keeps the other ids in their order, and changes nothing else. *)
Theorem deleteRegionsFromSelectedRegionIds_removes_ids (rs : list IRegion) (c : Canvas) :
  NoDup (selectedRegionIds c) ->
  deleteRegionsFromSelectedRegionIds rs c
  = set_selectedRegionIds
      (List.filter (fun i => negb (has_id i rs)) (selectedRegionIds c)) c.
Proof.
  intros Hnd. rewrite deleteRegionsFromSelectedRegionIds_frame. f_equal.
  now apply deleteRegionsFromSelectedRegionIds_filter.
Qed.

Lemma findIndex_at {A : Type} (p : A -> bool) (pre : list A) (a : A) (post : list A) :
  (forall b, In b pre -> p b = false) -> p a = true ->
  JS.findIndex p (pre ++ a :: post) = Z.of_nat (List.length pre).
Proof.
  intros Hpre Ha. induction pre as [|b pre IH]; cbn [app JS.findIndex List.length].
  - now rewrite Ha.
  - rewrite (Hpre b) by now left. rewrite IH by (intros x Hx; apply Hpre; now right).
    pose proof (Nat2Z.is_nonneg (List.length pre)) as Hlen.
    rewrite Nat2Z.inj_succ. destruct (Z.of_nat (List.length pre)); lia.
Qed.

(** X4. [onRegionDelete] takes out of the asset the first region that has
    the id, and only that one; when no region has the id, it takes out the
    last region of the asset ([findIndex] answers -1 and [splice(-1, 1)]
    counts from the end). *)
Theorem onRegionDelete_first_or_last (regionId : string) (c : Canvas) :
  (forall pre r post,
      regions c = (pre ++ r :: post)%list -> id r = regionId ->
      (forall b, In b pre -> id b <> regionId) ->
      regions (onRegionDelete regionId c) = (pre ++ post)%list)
  /\ ((forall r, In r (regions c) -> id r <> regionId) ->
      regions (onRegionDelete regionId c) = removelast (regions c)).
Proof.
  split.
  - intros pre r post E Hr Hpre. unfold onRegionDelete, updateAssetRegions.
    cbn [regions set_asset]. rewrite E, findIndex_at.
    + apply splice1_at.
    + intros b Hb. apply String.eqb_neq. now apply Hpre.
    + now apply String.eqb_eq.
  - intros Hall. unfold onRegionDelete, updateAssetRegions.
    cbn [regions set_asset].
    destruct (findIndex_spec (fun region => String.eqb (id region) regionId) (regions c))
      as [[E _] | [_ (r & Hr & Hp)]].
    + rewrite E. apply splice1_last.
    + apply String.eqb_eq in Hp. now apply Hall in Hr.
Qed.

Lemma has_id_selected (c : Canvas) (a : IRegion) :
  In a (regions c) ->
  has_id (id a) (getSelectedRegions c) = isSelectedRegion c a.
Proof.
  intros Ha. destruct (isSelectedRegion c a) eqn:E.
  - apply has_own_id. apply filter_In. now split.
  - apply has_id_false. intros r Hr Hid. apply filter_In in Hr as [_ Hr].
    rewrite (isSelectedRegion_ids c c a r eq_refl Hid) in Hr. congruence.
Qed.

Lemma regions_deleteRegions_selected (c : Canvas) :
  regions (deleteRegions (getSelectedRegions c) c)
  = List.filter (fun r => negb (isSelectedRegion c r)) (regions c).
Proof.
  unfold deleteRegions. cbv zeta. rewrite deleteRegionsFromImageMap_frame.
  cbn [regions set_imageMap deleteRegionsFromAsset updateAssetRegions set_asset].
  rewrite regions_deleteRegionsFromSelectedRegionIds.
  apply List.filter_ext_in. intros a Ha. now rewrite has_id_selected.
Qed.

Lemma selectedRegionIds_deleteRegions (rs : list IRegion) (c : Canvas) :
  selectedRegionIds (deleteRegions rs c)
  = selectedRegionIds (deleteRegionsFromSelectedRegionIds rs c).
Proof.
  unfold deleteRegions. cbv zeta. now rewrite deleteRegionsFromImageMap_frame.
Qed.

(** X5. The Delete key (and Backspace) deletes the selected regions and no
    other: the asset keeps exactly the regions that were not selected, in
    their order, and no region that is left is selected. *)
Theorem delete_key_deletes_the_selection (c : Canvas) :
  handleKeyDown "Delete" c = Completed (deleteRegions (getSelectedRegions c) c)
  /\ handleKeyDown "Backspace" c = handleKeyDown "Delete" c
  /\ regions (deleteRegions (getSelectedRegions c) c)
     = List.filter (fun r => negb (isSelectedRegion c r)) (regions c)
  /\ getSelectedRegions (deleteRegions (getSelectedRegions c) c) = [].
Proof.
  split; [reflexivity |]. split; [reflexivity |].
  split; [apply regions_deleteRegions_selected |].
  unfold getSelectedRegions at 1. rewrite regions_deleteRegions_selected.
  apply filter_none. intros a Ha. apply filter_In in Ha as [Ha Hn].
  apply negb_true_iff in Hn. apply not_true_iff_false. intros Hsel.
  apply isSelectedRegion_In in Hsel as [Hin Hne].
  rewrite selectedRegionIds_deleteRegions in Hin.
  apply In_deleteRegionsFromSelectedRegionIds in Hin.
  assert (isSelectedRegion c a = true) by (apply isSelectedRegion_In; propositional).
  congruence.
Qed.

(* ===================================================================== *)
(** * Further properties of the selection                                 *)
(* ===================================================================== *)

Lemma regions_addRegions (rs : list IRegion) (c : Canvas) :
  regions (addRegions rs c)
  = (List.filter (fun a => negb (has_id (id a) rs)) (regions c) ++ rs)%list.
Proof. unfold addRegions. cbv zeta. now rewrite addRegionsToImageMap_frame. Qed.

Lemma selectedRegionIds_addRegions (rs : list IRegion) (c : Canvas) :
  selectedRegionIds (addRegions rs c) = selectedRegionIds c.
Proof. unfold addRegions. cbv zeta. now rewrite addRegionsToImageMap_frame. Qed.

Lemma has_id_update_found (regionId : string) (p : IRegion -> bool)
    (f : IRegion -> IRegion) (rs : list IRegion) :
  (forall r, id (f r) = id r) ->
  has_id regionId (update_found p f rs) = has_id regionId rs.
Proof.
  intros Hf. induction rs as [|r rs IH]; [reflexivity |].
  cbn [update_found]. destruct (p r); rewrite !has_id_cons; [now rewrite Hf |].
  now rewrite IH.
Qed.

Lemma has_id_kept (regionId : string) (rs assetRegions : list IRegion) :
  has_id regionId rs = false ->
  has_id regionId (List.filter (fun a => negb (has_id (id a) rs)) assetRegions)
  = has_id regionId assetRegions.
Proof.
  intros Hn. induction assetRegions as [|a l IH]; [reflexivity |].
  cbn [List.filter]. rewrite has_id_cons.
  destruct (String.eqb_spec (id a) regionId) as [E | Hne].
  - rewrite E, Hn. cbn [negb orb]. rewrite has_id_cons, E, String.eqb_refl. reflexivity.
  - cbn [orb]. destruct (has_id (id a) rs); cbn [negb]; [exact IH |].
    rewrite has_id_cons, IH.
    destruct (String.eqb_spec (id a) regionId); [contradiction | reflexivity].
Qed.

(** The region a deselection removes, when it removes one, has the id
    that is deselected. *)
Lemma has_id_splice_other (regionId i : string) (rs : list IRegion) :
  i <> regionId ->
  has_id i (JS.splice1 (JS.findIndex (fun r => String.eqb (id r) regionId) rs) rs)
  = has_id i (if has_id regionId rs then rs else removelast rs).
Proof.
  intros Hne.
  destruct (findIndex_spec (fun r => String.eqb (id r) regionId) rs)
    as [[E Hall] | [Hpos Hex]].
  - rewrite E, splice1_last.
    replace (has_id regionId rs) with false; [reflexivity |].
    symmetry. apply has_id_false. intros r Hr. apply String.eqb_neq. now apply Hall.
  - replace (has_id regionId rs) with true
      by (symmetry; apply has_id_true; destruct Hex as (r & Hr & Hp);
          exists r; split; [exact Hr | now apply String.eqb_eq]).
    destruct (findIndex_split _ _ Hpos) as (pre & a & post & -> & Ha & _ & ->).
    rewrite splice1_at, !has_id_app, has_id_cons.
    apply String.eqb_eq in Ha.
    destruct (String.eqb_spec (id a) i) as [E | _]; [congruence | reflexivity].
Qed.

(** X6. Selecting or toggling a feature keeps the selection sound: when no
    id is selected twice and every selected id is the id of a region of
    the asset, the same holds after [handleFeatureSelect]. *)
Theorem handleFeatureSelect_keeps_selection_sound (feature : Feature)
    (isToggle : bool) (c : Canvas) :
  selection_sound c ->
  selection_sound (handleFeatureSelect feature isToggle c).
Proof.
  intros [Hnd Hin]. unfold handleFeatureSelect. cbv zeta.
  set (regionId := feature_id feature).
  destruct (isToggle && isRegionSelected c regionId) eqn:Hcase.
  - (* deselection *)
    apply andb_true_iff in Hcase as [_ Hsel].
    apply isRegionSelected_In in Hsel.
    unfold removeFromSelectedRegions. cbv zeta.
    pose proof (splice1_findIndex_NoDup regionId (selectedRegionIds c) Hnd) as E.
    fold (getIndexOfSelectedRegionIds c regionId) in E.
    destruct (0 <=? getIndexOfSelectedRegionIds c regionId) eqn:Hidx; [| now split].
    set (c1 := match nth_error (getSelectedRegions c) _ with
               | Some r => _ | None => c end).
    assert (Hids : selectedRegionIds c1 = selectedRegionIds c).
    { unfold c1. destruct (nth_error _ _) as [r|]; [| reflexivity].
      destruct (List.length (tags r) =? 0)%nat; reflexivity. }
    assert (Hregions : forall i, i <> regionId -> has_id i (regions c) = true ->
                                 has_id i (regions c1) = true).
    { intros i Hne Hi. unfold c1. destruct (nth_error _ _) as [r|]; [| exact Hi].
      destruct (List.length (tags r) =? 0)%nat; [| exact Hi].
      unfold onRegionDelete, updateAssetRegions. cbn [regions set_asset].
      rewrite (has_id_splice_other regionId i _ Hne).
      now rewrite (Hin regionId Hsel). }
    split; cbn [selectedRegionIds regions set_selectedRegionIds]; rewrite Hids, E.
    + now apply List.NoDup_filter.
    + intros i Hi. apply filter_In in Hi as [Hi Hne].
      apply negb_true_iff, String.eqb_neq in Hne. apply Hregions; auto.
  - (* selection *)
    unfold addToSelectedRegions. cbv zeta.
    destruct (isRegionSelected c regionId) eqn:Hsel; [now split |].
    assert (Hnot : ~ In regionId (selectedRegionIds c)).
    { intros H. apply isRegionSelected_In in H. congruence. }
    assert (Hnd' : NoDup (selectedRegionIds c ++ [regionId])).
    { apply NoDup_app; [exact Hnd | repeat constructor; intros [] |].
      intros a Ha [<- | []]. contradiction. }
    destruct (negb (getIndexOfCurrentRegions c regionId =? -1)) eqn:Hexists.
    + split; cbn [selectedRegionIds regions set_selectedRegionIds set_asset];
        [exact Hnd' |].
      intros i Hi. rewrite has_id_update_found by reflexivity.
      apply in_app_or in Hi as [Hi | [<- | []]]; [now apply Hin | exact Hexists].
    + split; cbn [selectedRegionIds regions set_selectedRegionIds];
        rewrite ?selectedRegionIds_addRegions; [exact Hnd' |].
      intros i Hi. rewrite regions_addRegions, has_id_app.
      apply in_app_or in Hi as [Hi | [<- | []]].
      * rewrite has_id_kept; [now rewrite Hin |].
        rewrite has_id_cons. cbn [id].
        destruct (String.eqb_spec regionId i) as [<- | _]; [contradiction | reflexivity].
      * rewrite has_id_cons. cbn [id]. rewrite String.eqb_refl. apply orb_true_r.
Qed.

(** ** Deselection when the selection follows the asset's order *)

Lemma isSelectedRegion_same_id (c : Canvas) (r r' : IRegion) :
  id r = id r' -> isSelectedRegion c r = isSelectedRegion c r'.
Proof. intros E. now apply isSelectedRegion_ids. Qed.

Lemma map_id_filter_app (p : IRegion -> bool) (pre : list IRegion) (a : IRegion)
    (post : list IRegion) :
  p a = true ->
  map id (List.filter p (pre ++ a :: post))
  = (map id (List.filter p pre) ++ id a :: map id (List.filter p post))%list.
Proof.
  intros Ha. rewrite List.filter_app. cbn [List.filter]. rewrite Ha.
  now rewrite map_app.
Qed.

(** Under an aligned selection, the region [removeFromSelectedRegions]
    inspects is the region of the asset that has the id. *)
Lemma removeFromSelectedRegions_aligned (regionId : string) (c : Canvas) :
  selection_aligned c ->
  In regionId (selectedRegionIds c) ->
  selectedRegionIds (removeFromSelectedRegions regionId c)
  = List.filter (fun i => negb (String.eqb i regionId)) (selectedRegionIds c)
  /\ regions (removeFromSelectedRegions regionId c)
     = List.filter
         (fun r => negb (String.eqb (id r) regionId && (List.length (tags r) =? 0)%nat))
         (regions c).
Proof.
  intros [Hnd Hal] Hin.
  (* a selected region has the id *)
  assert (Hsel : exists r, In r (regions c) /\ id r = regionId
                           /\ isSelectedRegion c r = true).
  { rewrite <- Hal in Hin. apply in_map_iff in Hin as (r & Hr & Hin).
    apply filter_In in Hin as [Hin Hs]. now exists r. }
  destruct Hsel as (r0 & Hr0 & Hid0 & Hs0).
  (* the first region of the asset that has the id *)
  assert (Hpos : 0 <= JS.findIndex (fun r => String.eqb (id r) regionId) (regions c)).
  { destruct (findIndex_spec (fun r => String.eqb (id r) regionId) (regions c))
      as [[_ Hall] | [Hpos _]]; [| exact Hpos].
    specialize (Hall r0 Hr0). cbn in Hall. rewrite Hid0, String.eqb_refl in Hall.
    discriminate. }
  destruct (findIndex_split _ _ Hpos) as (pre & a & post & Hregions & Ha & Hpre & Hidx).
  apply String.eqb_eq in Ha.
  assert (Hsa : isSelectedRegion c a = true).
  { rewrite (isSelectedRegion_same_id c a r0) by congruence. exact Hs0. }
  assert (Hids : selectedRegionIds c
                 = (map id (List.filter (isSelectedRegion c) pre)
                    ++ regionId :: map id (List.filter (isSelectedRegion c) post))%list).
  { rewrite <- Hal. unfold getSelectedRegions. rewrite Hregions.
    rewrite (map_id_filter_app _ _ _ _ Hsa). now rewrite Ha. }
  assert (Hpre' : forall i, In i (map id (List.filter (isSelectedRegion c) pre)) ->
                            String.eqb i regionId = false).
  { intros i Hi. apply in_map_iff in Hi as (b & <- & Hb).
    apply filter_In in Hb as [Hb _]. now apply Hpre. }
  assert (Hindex : getIndexOfSelectedRegionIds c regionId
                   = Z.of_nat (List.length (List.filter (isSelectedRegion c) pre))).
  { unfold getIndexOfSelectedRegionIds. rewrite Hids.
    rewrite findIndex_at; [now rewrite length_map | exact Hpre' |].
    apply String.eqb_refl. }
  (* no later region of the asset has the id *)
  assert (Hpost : forall b, In b post -> String.eqb (id b) regionId = false).
  { intros b Hb. apply String.eqb_neq. intros Hidb.
    rewrite Hids in Hnd. apply NoDup_remove_2 in Hnd. apply Hnd.
    apply in_or_app. right. apply in_map_iff. exists b. split; [exact Hidb |].
    apply filter_In. split; [exact Hb |].
    rewrite (isSelectedRegion_same_id c b r0) by congruence. exact Hs0. }
  assert (Hinspected : nth_error (getSelectedRegions c)
                         (Z.to_nat (getIndexOfSelectedRegionIds c regionId)) = Some a).
  { rewrite Hindex, Nat2Z.id. unfold getSelectedRegions. rewrite Hregions.
    rewrite List.filter_app. cbn [List.filter]. rewrite Hsa.
    rewrite nth_error_app2 by lia. now rewrite Nat.sub_diag. }
  unfold removeFromSelectedRegions. cbv zeta.
  pose proof (splice1_findIndex_NoDup regionId (selectedRegionIds c) Hnd) as E.
  fold (getIndexOfSelectedRegionIds c regionId) in E.
  assert (Hge : (0 <=? getIndexOfSelectedRegionIds c regionId) = true)
    by (apply Z.leb_le; lia).
  rewrite Hge in E |- *. rewrite Hinspected.
  assert (Hfilter : forall untagged : bool,
            List.filter (fun r => negb (String.eqb (id r) regionId && untagged)) pre = pre
            /\ List.filter (fun r => negb (String.eqb (id r) regionId && untagged)) post
               = post).
  { intros untagged. split; apply filter_all; intros b Hb;
      [rewrite (Hpre b Hb) | rewrite (Hpost b Hb)]; reflexivity. }
  assert (Hkeep : forall l : list IRegion,
            (forall b, In b l -> String.eqb (id b) regionId = false) ->
            List.filter
              (fun r => negb (String.eqb (id r) regionId && (List.length (tags r) =? 0)%nat))
              l = l).
  { intros l Hl. apply filter_all. intros b Hb. now rewrite (Hl b Hb). }
  destruct (List.length (tags a) =? 0)%nat eqn:Htags.
  - split; cbn [selectedRegionIds regions set_selectedRegionIds onRegionDelete
                  updateAssetRegions set_asset]; [exact E |].
    rewrite Hidx, Hregions, splice1_at, List.filter_app. cbn [List.filter].
    rewrite (Hkeep pre Hpre), (Hkeep post Hpost).
    rewrite Ha, String.eqb_refl, Htags. reflexivity.
  - split; cbn [selectedRegionIds regions set_selectedRegionIds]; [exact E |].
    rewrite Hregions, List.filter_app. cbn [List.filter].
    rewrite (Hkeep pre Hpre), (Hkeep post Hpost).
    rewrite Ha, String.eqb_refl, Htags. reflexivity.
Qed.

Lemma map_id_filter (p : string -> bool) (l : list IRegion) :
  map id (List.filter (fun r => p (id r)) l) = List.filter p (map id l).
Proof.
  induction l as [|r l IH]; [reflexivity |]. cbn [List.filter map].
  destruct (p (id r)); cbn [map]; now rewrite IH.
Qed.

(** Alignment survives a deselection. *)
Lemma aligned_after_removal (regionId : string) (c c' : Canvas) :
  selection_aligned c ->
  selectedRegionIds c'
  = List.filter (fun i => negb (String.eqb i regionId)) (selectedRegionIds c) ->
  regions c'
  = List.filter
      (fun r => negb (String.eqb (id r) regionId && (List.length (tags r) =? 0)%nat))
      (regions c) ->
  selection_aligned c'.
Proof.
  intros [Hnd Hal] Hids Hregions. split.
  - rewrite Hids. now apply List.NoDup_filter.
  - assert (Hsel : forall r, isSelectedRegion c' r
                             = isSelectedRegion c r && negb (String.eqb (id r) regionId)).
    { intros r. apply eq_true_iff_eq.
      rewrite andb_true_iff, !isSelectedRegion_In, Hids, filter_In. propositional. }
    unfold getSelectedRegions. rewrite Hregions, Hids, <- Hal.
    unfold getSelectedRegions.
    rewrite <- (map_id_filter (fun i => negb (String.eqb i regionId))).
    f_equal. rewrite !filter_filter_and. apply filter_ext_bool. intros r.
    rewrite Hsel.
    destruct (isSelectedRegion c r), (String.eqb (id r) regionId),
      (List.length (tags r) =? 0)%nat; reflexivity.
Qed.

(** X7. When the selection lists the selected regions in the asset's order
    and holds no id twice, toggling a selected feature deselects it and
    deletes its region exactly when the region has no tag: the selection
    loses that id and keeps the others in order, the asset loses the
    region with that id if it is untagged and nothing else, and the
    selection still follows the asset's order afterwards. *)
Theorem toggle_deselects_and_prunes (feature : Feature) (c : Canvas) :
  selection_aligned c ->
  In (feature_id feature) (selectedRegionIds c) ->
  selectedRegionIds (handleFeatureSelect feature true c)
  = List.filter (fun i => negb (String.eqb i (feature_id feature))) (selectedRegionIds c)
  /\ regions (handleFeatureSelect feature true c)
     = List.filter
         (fun r => negb (String.eqb (id r) (feature_id feature)
                         && (List.length (tags r) =? 0)%nat))
         (regions c)
  /\ selection_aligned (handleFeatureSelect feature true c).
Proof.
  intros Hal Hin. unfold handleFeatureSelect. cbv zeta.
  rewrite (proj2 (isRegionSelected_In c (feature_id feature)) Hin). cbn [andb].
  destruct (removeFromSelectedRegions_aligned (feature_id feature) c Hal Hin)
    as [Hids Hregions].
  split; [exact Hids |]. split; [exact Hregions |].
  now apply (aligned_after_removal (feature_id feature) c).
Qed.

Lemma isSelectedRegion_pushed (c c' : Canvas) (regionId : string) (a : IRegion) :
  selectedRegionIds c' = (selectedRegionIds c ++ [regionId])%list ->
  id a <> regionId ->
  isSelectedRegion c' a = isSelectedRegion c a.
Proof.
  intros Hids Hne. apply eq_true_iff_eq. rewrite !isSelectedRegion_In, Hids.
  split; intros [Hin Hn]; (split; [| exact Hn]).
  - apply in_app_or in Hin as [Hin | [E | []]]; [exact Hin | congruence].
  - apply in_or_app. now left.
Qed.

(** X8. Clicking an OCR proposal and clicking it again undoes the click:
    when the selection is aligned and the proposal's id is not empty and
    not yet the id of a region, the first click adds an untagged region
    and selects it, and the second click leaves the region list and the
    selection as they were before the first. *)
Theorem select_then_toggle_restores (feature : Feature) (c : Canvas) :
  selection_aligned c ->
  has_id (feature_id feature) (regions c) = false ->
  feature_id feature <> EmptyString ->
  regions (handleFeatureSelect feature true c)
  = (regions c
     ++ [ {| id := feature_id feature; type := Polygon; tags := [];
             boundingBox := convertToRegionBoundingBox (decodeRegionId (feature_id feature));
             points := convertToRegionPoints (decodeRegionId (feature_id feature));
             value := feature_text feature;
             pageNumber := currentPage c |} ])%list
  /\ selectedRegionIds (handleFeatureSelect feature true c)
     = (selectedRegionIds c ++ [feature_id feature])%list
  /\ regions (handleFeatureSelect feature true (handleFeatureSelect feature true c))
     = regions c
  /\ selectedRegionIds
       (handleFeatureSelect feature true (handleFeatureSelect feature true c))
     = selectedRegionIds c.
Proof.
  intros [Hnd Hal] Hfresh Hne.
  set (regionId := feature_id feature) in Hfresh, Hne |- *.
  set (new := {| id := regionId; type := Polygon; tags := [];
                 boundingBox := convertToRegionBoundingBox (decodeRegionId regionId);
                 points := convertToRegionPoints (decodeRegionId regionId);
                 value := feature_text feature;
                 pageNumber := currentPage c |}).
  assert (Hnot : ~ In regionId (selectedRegionIds c)).
  { intros Hin. rewrite <- Hal in Hin. apply in_map_iff in Hin as (r & Hr & Hin).
    apply filter_In in Hin as [Hin _].
    apply (proj1 (has_id_false _ _) Hfresh r Hin Hr). }
  assert (Hunsel : isRegionSelected c regionId = false).
  { apply not_true_iff_false. intros H. now apply isRegionSelected_In in H. }
  assert (Hother : forall a, In a (regions c) -> id a <> regionId)
    by (apply has_id_false; exact Hfresh).
  set (c1 := handleFeatureSelect feature true c).
  assert (Hc1 : c1 = set_selectedRegionIds (selectedRegionIds c ++ [regionId])
                       (addRegions [new] c)).
  { unfold c1, handleFeatureSelect, addToSelectedRegions. cbv zeta.
    fold regionId. rewrite Hunsel. cbn [andb].
    replace (negb (getIndexOfCurrentRegions c regionId =? -1)) with false
      by (symmetry; exact Hfresh).
    now rewrite selectedRegionIds_addRegions. }
  assert (Hregions1 : regions c1 = (regions c ++ [new])%list).
  { rewrite Hc1. cbn [regions set_selectedRegionIds]. rewrite regions_addRegions.
    f_equal. apply filter_all. intros a Ha. rewrite has_id_cons. cbn [id new].
    destruct (String.eqb_spec regionId (id a)) as [E | _]; [| reflexivity].
    exfalso. now apply (Hother a Ha). }
  assert (Hids1 : selectedRegionIds c1 = (selectedRegionIds c ++ [regionId])%list)
    by now rewrite Hc1.
  assert (Hal1 : selection_aligned c1).
  { split; rewrite Hids1.
    - apply NoDup_app; [exact Hnd | repeat constructor; intros [] |].
      intros a Ha [<- | []]. contradiction.
    - unfold getSelectedRegions. rewrite Hregions1, List.filter_app, map_app.
      f_equal.
      + rewrite <- Hal. unfold getSelectedRegions. f_equal.
        apply List.filter_ext_in. intros a Ha.
        apply (isSelectedRegion_pushed c c1 regionId a Hids1). now apply Hother.
      + cbn [List.filter].
        replace (isSelectedRegion c1 new) with true; [reflexivity |].
        symmetry. apply isSelectedRegion_In. rewrite Hids1. cbn [id new].
        split; [apply in_or_app; right; now left | exact Hne]. }
  assert (Hin1 : In regionId (selectedRegionIds c1))
    by (rewrite Hids1; apply in_or_app; right; now left).
  split; [exact Hregions1 |]. split; [exact Hids1 |].
  assert (Hstep : handleFeatureSelect feature true c1
                  = removeFromSelectedRegions regionId c1).
  { unfold handleFeatureSelect. cbv zeta. fold regionId.
    now rewrite (proj2 (isRegionSelected_In c1 regionId) Hin1). }
  rewrite Hstep.
  destruct (removeFromSelectedRegions_aligned regionId c1 Hal1 Hin1) as [Eids Eregions].
  split.
  - rewrite Eregions, Hregions1, List.filter_app. cbn [List.filter id tags new List.length].
    rewrite String.eqb_refl. cbn [Nat.eqb andb negb]. rewrite app_nil_r.
    apply filter_all. intros a Ha.
    destruct (String.eqb_spec (id a) regionId) as [E | _]; [| reflexivity].
    exfalso. now apply (Hother a Ha).
  - rewrite Eids, Hids1, List.filter_app. cbn [List.filter].
    rewrite String.eqb_refl. cbn [negb]. rewrite app_nil_r.
    apply filter_all. intros i Hi.
    destruct (String.eqb_spec i regionId) as [-> | _]; [contradiction | reflexivity].
Qed.

(* ===================================================================== *)
(** * Further properties of page navigation                               *)
(* ===================================================================== *)

(** ** The shape of the states the methods leave *)

Lemma setters_same (c : Canvas) :
  set_imageMap (imageMap c) (set_asset (regions c) (labelData c) c) = c.
Proof. now destruct c. Qed.

Lemma addRegions_shape (rs : list IRegion) (c : Canvas) :
  exists fs,
    addRegions rs c
    = set_imageMap fs
        (set_asset
           (List.filter (fun a => negb (has_id (id a) rs)) (regions c) ++ rs)%list
           (Some (convertRegionsToLabelData
                    (List.filter (fun a => negb (has_id (id a) rs)) (regions c) ++ rs)%list
                    (asset_name c))) c).
Proof.
  unfold addRegions. cbv zeta. rewrite addRegionsToImageMap_frame.
  eexists. reflexivity.
Qed.

Lemma loadLabelData_shape (c : Canvas) :
  exists fs rs ld, loadLabelData c = set_imageMap fs (set_asset rs ld c)
    /\ forall r, In r rs ->
         In r (regions c) \/ exists ld', In r (convertLabelDataToRegions ld').
Proof.
  unfold loadLabelData. destruct (labelData c) as [ld|] eqn:E.
  - destruct (0 <? List.length (convertLabelDataToRegions ld))%nat.
    + destruct (addRegions_shape (convertLabelDataToRegions ld) c) as (fs & ->).
      eexists _, _, _. split; [reflexivity |].
      intros r Hr. apply in_app_or in Hr as [Hr | Hr].
      * left. now apply filter_In in Hr as [Hr _].
      * right. now exists ld.
    + exists (imageMap c), (regions c), (labelData c).
      split; [now rewrite setters_same | propositional].
  - exists (imageMap c), (regions c), (labelData c).
    split; [now rewrite setters_same | propositional].
Qed.

Lemma drawOcr_shape (c : Canvas) :
  (exists fs, drawOcr c = Completed (set_imageMap fs c)) \/ drawOcr c = Threw c.
Proof.
  unfold drawOcr. destruct (imageMap c) as [allFeatures|] eqn:E; [| now right].
  destruct (ocrForCurrentPage c) as [| |ocr_].
  - left. exists (imageMap c). f_equal. now destruct c.
  - now right.
  - left. cbv zeta. destruct (0 <? List.length _)%nat.
    + eexists. reflexivity.
    + exists (imageMap c). f_equal. now destruct c.
Qed.

Lemma drawOcr_completes (c : Canvas) :
  imageMap c <> None -> ocrForCurrentPage c <> UndefinedPage ->
  exists fs, drawOcr c = Completed (set_imageMap fs c).
Proof.
  intros Hmap Hocr. destruct (drawOcr_shape c) as [H | H]; [exact H |].
  exfalso. unfold drawOcr in H.
  destruct (imageMap c); [| contradiction].
  destruct (ocrForCurrentPage c); [discriminate | contradiction |].
  cbv zeta in H. destruct (0 <? List.length _)%nat; discriminate.
Qed.

Lemma switchToTargetPage_shape (targetPage : Z) (c : Canvas) :
  switchToTargetPage targetPage c = Threw c
  \/ switchToTargetPage targetPage c = Completed c
  \/ exists img pages pdf tiffs,
       switchToTargetPage targetPage c
       = Completed (set_page img pages targetPage pdf tiffs c).
Proof.
  unfold switchToTargetPage, loadPdfPage, loadTiffPage.
  destruct (pdfFile c) as [pdf|].
  - destruct ((1 <=? targetPage) && (targetPage <=? Z.of_nat (List.length pdf)));
      [| now left].
    destruct (nth_error pdf _) as [img|]; [| now left].
    right. right. now eexists _, _, _, _.
  - destruct (negb (List.length (tiffImages c) =? 0)%nat); [| right; now left].
    destruct (targetPage - 1 <? 0); [now left |].
    destruct (nth_error (tiffImages c) _) as [img|]; [| now left].
    right. right. now eexists _, _, _, _.
Qed.

(** The first half of [goToPage]: the selection is emptied of the
    selected regions and the selected regions without a tag are deleted. *)
Lemma pruned_shape (c : Canvas) :
  exists fs,
    deleteRegionsFromImageMap
      (List.filter (fun region => (List.length (tags region) =? 0)%nat)
         (getSelectedRegions c))
      (deleteRegionsFromAsset
         (List.filter (fun region => (List.length (tags region) =? 0)%nat)
            (getSelectedRegions c))
         (deleteRegionsFromSelectedRegionIds (getSelectedRegions c) c))
    = set_imageMap fs
        (updateAssetRegions
           (List.filter
              (fun a => negb (has_id (id a)
                                (List.filter
                                   (fun region => (List.length (tags region) =? 0)%nat)
                                   (getSelectedRegions c))))
              (regions c))
           (set_selectedRegionIds
              (selectedRegionIds
                 (deleteRegionsFromSelectedRegionIds (getSelectedRegions c) c)) c))
    /\ (imageMap c <> None -> fs <> None).
Proof.
  set (untagged := List.filter _ (getSelectedRegions c)).
  set (c1 := deleteRegionsFromSelectedRegionIds (getSelectedRegions c) c).
  exists (imageMap (deleteRegionsFromImageMap untagged (deleteRegionsFromAsset untagged c1))).
  split.
  - rewrite deleteRegionsFromImageMap_frame at 1. f_equal.
    unfold deleteRegionsFromAsset, c1.
    rewrite regions_deleteRegionsFromSelectedRegionIds.
    now rewrite <- deleteRegionsFromSelectedRegionIds_frame.
  - intros Hmap. rewrite deleteRegionsFromImageMap_features.
    cbn [imageMap updateAssetRegions set_asset deleteRegionsFromAsset].
    unfold c1. rewrite imageMap_deleteRegionsFromSelectedRegionIds.
    destruct (imageMap c); [discriminate | contradiction].
Qed.

Lemma tags_of_loaded (ld : ILabelData) (r : IRegion) :
  In r (convertLabelDataToRegions ld) -> exists name, tags r = [name].
Proof.
  unfold convertLabelDataToRegions. intros H.
  apply in_flat_map in H as (l & _ & H). apply in_flat_map in H as (v & _ & H).
  apply list_elem_of_In, elem_of_lookup_imap in H as (i & b & -> & _).
  now exists (label l).
Qed.

(** ** Turning the page *)

(** X9. Turning the page discards the selected regions that have no tag:
    whatever page is asked for and whether the page loads or not, a
    region without a tag that the asset holds afterwards was in the asset
    before and was not selected. *)
Theorem goToPage_discards_untagged_selection (targetPage : Z) (c : Canvas)
    (r : IRegion) :
  In r (regions (state_of (goToPage targetPage c))) ->
  tags r = [] ->
  In r (regions c) /\ isSelectedRegion c r = false.
Proof.
  intros Hin Htags.
  assert (Hfrom : In r (List.filter
                          (fun a => negb (has_id (id a)
                                            (List.filter
                                               (fun region => (List.length (tags region) =? 0)%nat)
                                               (getSelectedRegions c))))
                          (regions c))).
  { revert Hin. unfold goToPage. cbv zeta.
    destruct ((targetPage <? 1) || (numPages c <? targetPage)).
    all: destruct (pruned_shape c) as (fs & -> & _).
    all: set (c3 := set_imageMap fs _).
    all: destruct (switchToTargetPage_shape targetPage c3)
           as [-> | [-> | (img & pages & pdf & tiffs & ->)]];
         cbn [and_then state_of]; try (intros H; exact H).
    all: cbn [imageMap set_ocrForCurrentPage set_page c3 set_imageMap].
    all: destruct fs as [fs|]; cbn [state_of]; try (intros H; exact H).
    all: match goal with
         | |- context [drawOcr ?d] =>
             destruct (drawOcr_shape d) as [[fs' ->] | ->]
         end; cbn [and_then state_of]; try (intros H; exact H).
    all: match goal with
         | |- context [loadLabelData ?d] =>
             destruct (loadLabelData_shape d) as (fs2 & rs & ld & -> & Hrs)
         end; cbn [regions set_imageMap set_asset].
    all: intros H; apply Hrs in H as [H | [ld' H]]; [exact H |].
    all: apply tags_of_loaded in H as [name H]; congruence. }
  apply filter_In in Hfrom as [Hr Hkept]. split; [exact Hr |].
  apply negb_true_iff in Hkept. apply not_true_iff_false. intros Hsel.
  assert (In r (List.filter (fun region => (List.length (tags region) =? 0)%nat)
                  (getSelectedRegions c))).
  { apply filter_In. split; [apply filter_In; now split | now rewrite Htags]. }
  apply has_own_id in H. congruence.
Qed.

Lemma getOcrResultForCurrentPage_defined (o : option OcrResponse) (c : Canvas) :
  1 <= currentPage c ->
  (forall ocr_ rs, o = Some ocr_ -> analyzeResult ocr_ ≫= readResults = Some rs ->
                   currentPage c <= Z.of_nat (List.length rs)) ->
  getOcrResultForCurrentPage o c <> UndefinedPage.
Proof.
  intros Hpage Hcover. unfold getOcrResultForCurrentPage.
  destruct o as [ocr_|]; [| discriminate].
  destruct (imageUri c) as [[|ch uri]|]; try discriminate.
  destruct (analyzeResult ocr_ ≫= readResults) as [rs|] eqn:E; [| discriminate].
  specialize (Hcover ocr_ rs eq_refl E).
  replace (currentPage c - 1 <? 0) with false by (symmetry; apply Z.ltb_ge; lia).
  destruct (nth_error rs (Z.to_nat (currentPage c - 1))) eqn:En; [discriminate |].
  apply nth_error_None in En. lia.
Qed.

(** Once the page asked for is rendered, [goToPage] completes and shows
    it. *)
Lemma goToPage_page_rendered (targetPage : Z) (c : Canvas) (img : PageImage)
    (pages : Z) (pdf : option (list PageImage)) (tiffs : list PageImage) :
  imageMap c <> None ->
  1 <= targetPage ->
  (forall o rs, ocr c = Some o -> analyzeResult o ≫= readResults = Some rs ->
                targetPage <= Z.of_nat (List.length rs)) ->
  (forall c3, pdfFile c3 = pdfFile c -> tiffImages c3 = tiffImages c ->
              switchToTargetPage targetPage c3
              = Completed (set_page img pages targetPage pdf tiffs c3)) ->
  exists c',
    goToPage targetPage c = Completed c'
    /\ currentPage c' = targetPage
    /\ numPages c' = pages
    /\ imageUri c' = Some (page_uri img)
    /\ imageWidth c' = page_width img
    /\ imageHeight c' = page_height img
    /\ pdfFile c' = pdf
    /\ tiffImages c' = tiffs.
Proof.
  intros Hmap Hpos Hcover Hswitch.
  unfold goToPage. cbv zeta.
  assert (Hc : (if (targetPage <? 1) || (numPages c <? targetPage) then c else c) = c)
    by now destruct ((targetPage <? 1) || (numPages c <? targetPage)).
  rewrite Hc. clear Hc.
  destruct (pruned_shape c) as (fs & -> & Hfs).
  destruct fs as [fs|]; [clear Hfs | now exfalso; apply Hfs].
  set (c3 := set_imageMap (Some fs) _).
  rewrite (Hswitch c3 eq_refl eq_refl). cbn [and_then].
  set (c4 := set_page img pages targetPage pdf tiffs c3).
  change (imageMap (set_ocrForCurrentPage (getOcrResultForCurrentPage (ocr c4) c4) c4))
    with (Some fs).
  cbv iota beta.
  destruct (drawOcr_completes
              (set_imageMap (Some [])
                 (set_ocrForCurrentPage (getOcrResultForCurrentPage (ocr c4) c4) c4)))
    as [fs' ->].
  { discriminate. }
  { cbn [ocrForCurrentPage set_imageMap set_ocrForCurrentPage].
    apply getOcrResultForCurrentPage_defined; [exact Hpos |].
    intros o rs Ho. apply (Hcover o rs). exact Ho. }
  cbn [and_then].
  match goal with
  | |- context [loadLabelData ?d] =>
      destruct (loadLabelData_shape d) as (fs2 & rs & ld & -> & _)
  end.
  eexists. split; [reflexivity |]. repeat split; reflexivity.
Qed.

Lemma switchToTargetPage_pdf (targetPage : Z) (c : Canvas) (pdf : list PageImage)
    (img : PageImage) :
  pdfFile c = Some pdf ->
  1 <= targetPage <= Z.of_nat (List.length pdf) ->
  nth_error pdf (Z.to_nat (targetPage - 1)) = Some img ->
  switchToTargetPage targetPage c
  = Completed (set_page img (Z.of_nat (List.length pdf)) targetPage (Some pdf)
                 (tiffImages c) c).
Proof.
  intros Hpdf Hrange Himg. unfold switchToTargetPage. rewrite Hpdf. unfold loadPdfPage.
  replace ((1 <=? targetPage) && (targetPage <=? Z.of_nat (List.length pdf)))
    with true by (symmetry; apply andb_true_iff; split; apply Z.leb_le; lia).
  now rewrite Himg.
Qed.

(** On a PDF, [goToPage] with a target among the document's pages loads
    that page. *)
Lemma goToPage_pdf_page (targetPage : Z) (c : Canvas) (pdf : list PageImage) :
  pdfFile c = Some pdf ->
  imageMap c <> None ->
  1 <= targetPage <= Z.of_nat (List.length pdf) ->
  (forall o rs, ocr c = Some o -> analyzeResult o ≫= readResults = Some rs ->
                targetPage <= Z.of_nat (List.length rs)) ->
  exists c',
    goToPage targetPage c = Completed c'
    /\ currentPage c' = targetPage
    /\ numPages c' = Z.of_nat (List.length pdf).
Proof.
  intros Hpdf Hmap Hrange Hcover.
  destruct (nth_error pdf (Z.to_nat (targetPage - 1))) as [img|] eqn:Himg;
    [| apply nth_error_None in Himg; lia].
  destruct (goToPage_page_rendered targetPage c img (Z.of_nat (List.length pdf))
              (Some pdf) (tiffImages c) Hmap ltac:(lia) Hcover)
    as (c' & Hgo & Hcur & Hnum & _).
  - intros c3 Hpdf3 Htiff3. rewrite <- Htiff3.
    apply switchToTargetPage_pdf; [congruence | exact Hrange | exact Himg].
  - now exists c'.
Qed.

(** X10. On a PDF whose surface is mounted, [goToPage] with a target among
    the document's pages completes and shows that page: the page number,
    the page count, the image and its size are the ones of the page asked
    for (the OCR answer, if it lists read results, must reach that page). *)
Theorem goToPage_shows_the_pdf_page (targetPage : Z) (c : Canvas)
    (pdf : list PageImage) :
  pdfFile c = Some pdf ->
  imageMap c <> None ->
  1 <= targetPage <= Z.of_nat (List.length pdf) ->
  (forall o rs, ocr c = Some o -> analyzeResult o ≫= readResults = Some rs ->
                targetPage <= Z.of_nat (List.length rs)) ->
  exists c' img,
    goToPage targetPage c = Completed c'
    /\ nth_error pdf (Z.to_nat (targetPage - 1)) = Some img
    /\ currentPage c' = targetPage
    /\ numPages c' = Z.of_nat (List.length pdf)
    /\ imageUri c' = Some (page_uri img)
    /\ imageWidth c' = page_width img
    /\ imageHeight c' = page_height img
    /\ pdfFile c' = Some pdf.
Proof.
  intros Hpdf Hmap Hrange Hcover.
  destruct (nth_error pdf (Z.to_nat (targetPage - 1))) as [img|] eqn:Himg;
    [| apply nth_error_None in Himg; lia].
  destruct (goToPage_page_rendered targetPage c img (Z.of_nat (List.length pdf))
              (Some pdf) (tiffImages c) Hmap ltac:(lia) Hcover)
    as (c' & Hgo & Hcur & Hnum & Huri & Hw & Hh & Hpdf' & _).
  - intros c3 Hpdf3 Htiff3. rewrite <- Htiff3.
    apply switchToTargetPage_pdf; [congruence | exact Hrange | exact Himg].
  - exists c', img. repeat split; assumption.
Qed.

(** X23. On a multi-page TIFF whose surface is mounted, [goToPage] with a
    target among the decoded pages completes and shows that page; the page
    count becomes the number of decoded pages. *)
Theorem goToPage_shows_the_tiff_page (targetPage : Z) (c : Canvas) :
  pdfFile c = None ->
  imageMap c <> None ->
  1 <= targetPage <= Z.of_nat (List.length (tiffImages c)) ->
  (forall o rs, ocr c = Some o -> analyzeResult o ≫= readResults = Some rs ->
                targetPage <= Z.of_nat (List.length rs)) ->
  exists c' img,
    goToPage targetPage c = Completed c'
    /\ nth_error (tiffImages c) (Z.to_nat (targetPage - 1)) = Some img
    /\ currentPage c' = targetPage
    /\ numPages c' = Z.of_nat (List.length (tiffImages c))
    /\ imageUri c' = Some (page_uri img)
    /\ imageWidth c' = page_width img
    /\ imageHeight c' = page_height img
    /\ tiffImages c' = tiffImages c.
Proof.
  intros Hpdf Hmap Hrange Hcover.
  destruct (nth_error (tiffImages c) (Z.to_nat (targetPage - 1))) as [img|] eqn:Himg;
    [| apply nth_error_None in Himg; lia].
  destruct (goToPage_page_rendered targetPage c img
              (Z.of_nat (List.length (tiffImages c))) None (tiffImages c)
              Hmap ltac:(lia) Hcover)
    as (c' & Hgo & Hcur & Hnum & Huri & Hw & Hh & _ & Htiffs).
  - intros c3 Hpdf3 Htiff3. unfold switchToTargetPage, loadTiffPage.
    rewrite Hpdf3, Hpdf, Htiff3.
    destruct (tiffImages c) as [|t ts] eqn:Et; [cbn in Hrange; lia |].
    cbn [List.length Nat.eqb negb].
    replace (targetPage - 1 <? 0) with false by (symmetry; apply Z.ltb_ge; lia).
    rewrite Himg. reflexivity.
  - exists c', img. repeat split; assumption.
Qed.

(** X11. The arrow keys turn the pages of a PDF inside the document and
    nowhere else: with the page shown among the document's pages, the
    right arrow shows the next page and does nothing on the last one, the
    left arrow shows the previous page and does nothing on the first one,
    and each page button is displayed exactly when its key turns the page. *)
Theorem arrow_keys_stay_inside_the_document (c : Canvas) (pdf : list PageImage) :
  pdfFile c = Some pdf ->
  numPages c = Z.of_nat (List.length pdf) ->
  imageMap c <> None ->
  1 <= currentPage c <= numPages c ->
  (forall o rs, ocr c = Some o -> analyzeResult o ≫= readResults = Some rs ->
                numPages c <= Z.of_nat (List.length rs)) ->
  (currentPage c < numPages c ->
     exists c', handleKeyDown "ArrowRight" c = Completed c'
                /\ currentPage c' = currentPage c + 1 /\ numPages c' = numPages c)
  /\ (currentPage c = numPages c -> handleKeyDown "ArrowRight" c = Completed c)
  /\ (1 < currentPage c ->
        exists c', handleKeyDown "ArrowLeft" c = Completed c'
                   /\ currentPage c' = currentPage c - 1 /\ numPages c' = numPages c)
  /\ (currentPage c = 1 -> handleKeyDown "ArrowLeft" c = Completed c)
  /\ handleKeyDown "Right" c = handleKeyDown "ArrowRight" c
  /\ handleKeyDown "Left" c = handleKeyDown "ArrowLeft" c
  /\ (shouldShowNextPageButton c = true <-> currentPage c < numPages c)
  /\ (shouldShowPreviousPageButton c = true <-> 1 < currentPage c).
Proof.
  intros Hpdf Hpages Hmap Hrange Hcover.
  assert (Hmulti : multiPage c = true) by (unfold multiPage; now rewrite Hpdf).
  assert (Hnext : handleKeyDown "ArrowRight" c
                  = if currentPage c <? numPages c
                    then goToPage (currentPage c + 1) c else Completed c).
  { change (handleKeyDown "ArrowRight" c) with (nextPage c).
    unfold nextPage. now rewrite Hmulti. }
  assert (Hprev : handleKeyDown "ArrowLeft" c
                  = if 1 <? currentPage c
                    then goToPage (currentPage c - 1) c else Completed c).
  { change (handleKeyDown "ArrowLeft" c) with (prevPage c).
    unfold prevPage. now rewrite Hmulti. }
  split; [| split; [| split; [| split; [| split; [| split; [| split]]]]]].
  - intros Hlt. rewrite Hnext. replace (currentPage c <? numPages c) with true
      by (symmetry; apply Z.ltb_lt; lia).
    destruct (goToPage_pdf_page (currentPage c + 1) c pdf Hpdf Hmap) as
      (c' & Hgo & Hcur & Hnum); [lia | |].
    + intros o rs Ho Hrs. specialize (Hcover o rs Ho Hrs). lia.
    + exists c'. split; [exact Hgo |]. split; [exact Hcur | congruence].
  - intros Heq. rewrite Hnext. now replace (currentPage c <? numPages c) with false
      by (symmetry; apply Z.ltb_ge; lia).
  - intros Hgt. rewrite Hprev. replace (1 <? currentPage c) with true
      by (symmetry; apply Z.ltb_lt; lia).
    destruct (goToPage_pdf_page (currentPage c - 1) c pdf Hpdf Hmap) as
      (c' & Hgo & Hcur & Hnum); [lia | |].
    + intros o rs Ho Hrs. specialize (Hcover o rs Ho Hrs). lia.
    + exists c'. split; [exact Hgo |]. split; [exact Hcur | congruence].
  - intros Heq. rewrite Hprev. now replace (1 <? currentPage c) with false
      by (symmetry; apply Z.ltb_ge; lia).
  - reflexivity.
  - reflexivity.
  - unfold shouldShowNextPageButton. rewrite Hmulti. cbn [andb].
    rewrite negb_true_iff, Z.eqb_neq. lia.
  - unfold shouldShowPreviousPageButton. rewrite Hmulti. cbn [andb].
    rewrite negb_true_iff, Z.eqb_neq. lia.
Qed.

(* ===================================================================== *)
(** * Further properties of region identity                               *)
(* ===================================================================== *)

(** ** Integers print injectively *)

Lemma integerToString_injective (p q : Z) :
  JS.integerToString p = JS.integerToString q -> p = q.
Proof.
  unfold JS.integerToString.
  assert (Hminus : forall n rest, JS.decimal n <> String "-" rest).
  { intros n rest E.
    pose proof (occurs_decimal "-" n eq_refl) as H. rewrite E in H.
    discriminate H. }
  destruct (Z.ltb_spec p 0) as [Hp | Hp], (Z.ltb_spec q 0) as [Hq | Hq]; intros E.
  - injection E as E. apply (f_equal JS.digits_value) in E.
    rewrite !digits_value_decimal in E by lia. lia.
  - symmetry in E. now apply Hminus in E.
  - now apply Hminus in E.
  - apply (f_equal JS.digits_value) in E.
    now rewrite !digits_value_decimal in E by lia.
Qed.

(** ** Numbers never print as the empty text *)

Lemma append_not_empty_l (a b : string) : a <> EmptyString -> a ++ b <> EmptyString.
Proof. destruct a as [|ch a]; [congruence |]. now rewrite append_cons. Qed.

Lemma append_not_empty_r (a b : string) : b <> EmptyString -> a ++ b <> EmptyString.
Proof.
  intros Hb. destruct a as [|ch a]; [now rewrite append_nil |]. now rewrite append_cons.
Qed.

Lemma digits_onto_not_empty (fuel : nat) (n : Z) (acc : string) :
  JS.digits_onto (S fuel) n acc <> EmptyString.
Proof.
  rewrite digits_onto_app. cbn [JS.digits_onto].
  destruct (n <? 10); [now rewrite append_cons |].
  rewrite digits_onto_app, append_assoc.
  apply append_not_empty_r. now rewrite append_cons.
Qed.

Lemma decimal_not_empty (n : Z) : JS.decimal n <> EmptyString.
Proof. apply digits_onto_not_empty. Qed.

Lemma layout_not_empty (s n k : Z) : JS.layout s n k <> EmptyString.
Proof.
  unfold JS.layout. cbv zeta.
  destruct ((k <=? n) && (n <=? 21)).
  { apply append_not_empty_l, decimal_not_empty. }
  destruct ((0 <? n) && (n <=? 21)).
  { apply append_not_empty_r, append_not_empty_l. discriminate. }
  destruct ((-6 <? n) && (n <=? 0)).
  { apply append_not_empty_l. discriminate. }
  destruct (JS.head_tail (JS.decimal s)) as [d1 drest].
  destruct (k =? 1).
  - apply append_not_empty_l, decimal_not_empty.
  - apply append_not_empty_r, append_not_empty_l. discriminate.
Qed.

Lemma numberToString_not_empty (a : float) : JS.numberToString a <> EmptyString.
Proof.
  unfold JS.numberToString.
  destruct (Prim2SF a) as [neg | neg | | neg m e]; try discriminate.
  - destruct neg; discriminate.
  - cbv zeta. destruct (JS.shortest _ _ _ _ _ _) as [[s n'] k].
    apply append_not_empty_r, layout_not_empty.
Qed.

(** ** Ids determine the page and the printed coordinates *)

Lemma cut_at_first (c : ascii) (a a' r r' : string) :
  occurs c a = false -> occurs c a' = false ->
  a ++ String c r = a' ++ String c r' -> a = a' /\ r = r'.
Proof.
  revert a'. induction a as [|ch a IH]; intros a' Ha Ha'.
  - rewrite append_nil. destruct a' as [|ch' a'].
    + rewrite append_nil. intros E. now injection E.
    + rewrite append_cons. intros E. injection E as <- _.
      rewrite occurs_cons, Ascii.eqb_refl in Ha'. discriminate.
  - rewrite append_cons. rewrite occurs_cons in Ha. apply orb_false_iff in Ha as [Hch Ha].
    destruct a' as [|ch' a'].
    + rewrite append_nil. intros E. injection E as -> _.
      rewrite Ascii.eqb_refl in Hch. discriminate.
    + rewrite append_cons. rewrite occurs_cons in Ha'.
      apply orb_false_iff in Ha' as [_ Ha'].
      intros E. injection E as -> E. destruct (IH a' Ha Ha' E) as [-> ->]. now split.
Qed.

Lemma join_injective (pieces pieces' : list string) :
  Forall (fun p => occurs "," p = false /\ p <> EmptyString) pieces ->
  Forall (fun p => occurs "," p = false /\ p <> EmptyString) pieces' ->
  JS.join "," pieces = JS.join "," pieces' -> pieces = pieces'.
Proof.
  intros H H' E.
  assert (Hsplit : forall l, l <> [] ->
            Forall (fun p => occurs "," p = false /\ p <> EmptyString) l ->
            JS.split "," (JS.join "," l) = l).
  { intros l Hl Hall. apply split_join; [exact Hl |].
    eapply Forall_impl; [| exact Hall]. now intros p [Hp _]. }
  assert (Hempty : forall l,
            Forall (fun p => occurs "," p = false /\ p <> EmptyString) l ->
            JS.join "," l = EmptyString -> l = []).
  { intros l Hall El. destruct l as [|p l]; [reflexivity |]. exfalso.
    pose proof (Hsplit (p :: l) ltac:(discriminate) Hall) as Hs.
    rewrite El in Hs. cbn in Hs. injection Hs as <- _.
    apply Forall_inv in Hall. now destruct Hall. }
  destruct pieces as [|p l].
  - symmetry. apply Hempty; [exact H' | now rewrite <- E].
  - destruct pieces' as [|p' l'].
    + apply Hempty; [exact H | exact E].
    + rewrite <- (Hsplit (p :: l)), <- (Hsplit (p' :: l')) by (discriminate || assumption).
      now rewrite E.
Qed.

Lemma printed_coordinates (coords : list float) :
  Forall (fun p => occurs "," p = false /\ p <> EmptyString)
         (map JS.numberToString coords).
Proof.
  apply Forall_forall. intros p Hp. apply in_map_iff in Hp as (a & <- & _).
  split; [apply comma_free_numberToString | apply numberToString_not_empty].
Qed.

Lemma createRegionId_cut (coords coords' : list float) (p p' : Z) :
  createRegionIdFromBoundingBox coords p = createRegionIdFromBoundingBox coords' p' ->
  p = p' /\ map JS.numberToString coords = map JS.numberToString coords'.
Proof.
  unfold createRegionIdFromBoundingBox.
  change (":" ++ JS.integerToString p) with (String ":" (JS.integerToString p)).
  change (":" ++ JS.integerToString p') with (String ":" (JS.integerToString p')).
  intros E. apply cut_at_first in E as [Ecoords Epage].
  - split; [now apply integerToString_injective |].
    apply join_injective; [apply printed_coordinates | apply printed_coordinates | exact Ecoords].
  - apply occurs_join; [reflexivity |].
    apply Forall_forall. intros q Hq. apply in_map_iff in Hq as (a & <- & _).
    apply colon_free_numberToString.
  - apply occurs_join; [reflexivity |].
    apply Forall_forall. intros q Hq. apply in_map_iff in Hq as (a & <- & _).
    apply colon_free_numberToString.
Qed.

Lemma map_prints_exactly (coords : list float) :
  Forall prints_exactly coords ->
  map JS.parseFloat (map JS.numberToString coords) = coords.
Proof.
  induction 1 as [|a l Ha _ IH]; [reflexivity |].
  cbn [map]. now rewrite Ha, IH.
Qed.

(** X12. Region ids are injective: two boxes that are given the same id are
    on the same page and print the same coordinates, one by one; when the
    coordinates of both print exactly, the boxes are the same. *)
Theorem createRegionIdFromBoundingBox_injective (coords coords' : list float)
    (p p' : Z) :
  createRegionIdFromBoundingBox coords p = createRegionIdFromBoundingBox coords' p' ->
  p = p'
  /\ map JS.numberToString coords = map JS.numberToString coords'
  /\ (Forall prints_exactly coords -> Forall prints_exactly coords' ->
      coords = coords').
Proof.
  intros E. destruct (createRegionId_cut _ _ _ _ E) as [Hp Hc].
  split; [exact Hp |]. split; [exact Hc |].
  intros H H'. rewrite <- (map_prints_exactly coords H), <- (map_prints_exactly coords' H').
  now rewrite Hc.
Qed.

(* ===================================================================== *)
(** * Further properties of the label / region mapper                     *)
(* ===================================================================== *)

Lemma NoDup_omap_id {A : Type} (l : list (option A)) :
  NoDup l -> NoDup (omap (fun name => name) l).
Proof.
  induction l as [|[a|] l IH]; intros Hnd; cbn [omap].
  - constructor.
  - apply NoDup_cons_iff in Hnd as [Hnot Hnd]. cbn.
    apply NoDup_cons_iff. split; [| now apply IH].
    intros Hin. apply Hnot. apply list_elem_of_In, list_elem_of_omap in Hin.
    destruct Hin as (o & Ho & E). cbn in E. subst o. now apply list_elem_of_In.
  - apply NoDup_cons_iff in Hnd as [_ Hnd]. now apply IH.
Qed.

Lemma In_omap_id {A : Type} (l : list (option A)) (a : A) :
  In a (omap (fun name => name) l) <-> In (Some a) l.
Proof.
  rewrite <- !list_elem_of_In, list_elem_of_omap. split.
  - intros (o & Ho & E). cbn in E. now subst o.
  - intros H. now exists (Some a).
Qed.

Lemma labels_of_converted_names (rs : list IRegion) (assetName : string) :
  map label (labels (convertRegionsToLabelData rs assetName))
  = omap (fun name => name) (JS.Set_of (map (fun region => head (tags region)) rs)).
Proof.
  unfold convertRegionsToLabelData. cbn [labels]. rewrite map_map. cbn [label].
  apply map_id.
Qed.

(** Regions without a tag add no member to the set of first tags. *)
Lemma Set_onto_tagged {A : Type} `{EqDecision A} (seen seen' l : list (option A)) :
  (forall a, Some a ∈ seen <-> Some a ∈ seen') ->
  omap (fun name => name) (JS.Set_onto seen l)
  = omap (fun name => name)
      (JS.Set_onto seen' (List.filter (fun o => match o with Some _ => true | None => false end) l)).
Proof.
  revert seen seen'. induction l as [|[a|] l IH]; intros seen seen' Hseen;
    cbn [JS.Set_onto List.filter]; [reflexivity | |].
  - rewrite (bool_decide_ext _ _ (Hseen a)).
    destruct (bool_decide (Some a ∈ seen')); [now apply IH |].
    cbn [omap]. cbn. f_equal. apply IH. intros b.
    rewrite !elem_of_cons, Hseen. propositional.
  - destruct (bool_decide (None ∈ seen)); [now apply IH |].
    cbn [omap]. cbn. apply IH. intros b. rewrite elem_of_cons, Hseen.
    split; [intros [E | H]; [discriminate | exact H] | propositional].
Qed.

Lemma heads_of_tagged (rs : list IRegion) :
  map (fun region => head (tags region))
      (List.filter (fun r => negb (List.length (tags r) =? 0)%nat) rs)
  = List.filter (fun o => match o with Some _ => true | None => false end)
      (map (fun region => head (tags region)) rs).
Proof.
  induction rs as [|r rs IH]; [reflexivity |].
  cbn [map List.filter]. destruct (tags r) as [|t ts] eqn:E; cbn; rewrite ?E; cbn;
    [exact IH | now rewrite IH].
Qed.

(** X13. The label data written for a list of regions: every field name is
    written once, the field names are the first tags of the regions, every
    label has at least one value entry and every value entry exactly one
    box, and regions without a tag leave no trace (the label data is the
    one written for the tagged regions alone). *)
Theorem convertRegionsToLabelData_labels (rs : list IRegion) (assetName : string) :
  NoDup (map label (labels (convertRegionsToLabelData rs assetName)))
  /\ (forall fieldName,
        In fieldName (map label (labels (convertRegionsToLabelData rs assetName)))
        <-> exists r, In r rs /\ head (tags r) = Some fieldName)
  /\ Forall
       (fun l => key l = None /\ label_value l <> []
                 /\ Forall (fun v => List.length (boundingBoxes v) = 1%nat) (label_value l))
       (labels (convertRegionsToLabelData rs assetName))
  /\ labels (convertRegionsToLabelData rs assetName)
     = labels (convertRegionsToLabelData
                 (List.filter (fun r => negb (List.length (tags r) =? 0)%nat) rs)
                 assetName).
Proof.
  assert (Hnames : forall fieldName,
            In fieldName (map label (labels (convertRegionsToLabelData rs assetName)))
            <-> exists r, In r rs /\ head (tags r) = Some fieldName).
  { intros f. rewrite labels_of_converted_names, In_omap_id, Set_of_In, in_map_iff.
    split; intros (r & H1 & H2); exists r; propositional. }
  split; [| split; [exact Hnames | split]].
  - rewrite labels_of_converted_names. apply NoDup_omap_id, Set_of_NoDup.
  - apply Forall_forall. intros l Hl.
    assert (Hname : In (label l) (map label (labels (convertRegionsToLabelData rs assetName))))
      by (apply in_map_iff; now exists l).
    apply Hnames in Hname as (r & Hr & Hhead).
    unfold convertRegionsToLabelData in Hl. cbn [labels] in Hl.
    apply in_map_iff in Hl as (f & <- & _). cbn [key label_value label] in Hhead |- *.
    split; [reflexivity |]. split.
    + assert (Hin : In r (List.filter (fun region => bool_decide (f ∈ tags region)) rs)).
      { apply filter_In. split; [exact Hr |]. apply bool_decide_eq_true_2.
        destruct (tags r) as [|t ts]; [discriminate |].
        injection Hhead as ->. now left. }
      destruct (List.filter _ rs); [destruct Hin | discriminate].
    + apply Forall_forall. intros v Hv. apply in_map_iff in Hv as (a & <- & _).
      reflexivity.
  - unfold convertRegionsToLabelData. cbn [labels].
    rewrite heads_of_tagged. unfold JS.Set_of.
    rewrite <- (Set_onto_tagged [] [] _ (fun a => iff_refl _)).
    apply map_ext. intros f. do 2 f_equal.
    rewrite filter_filter_and. apply filter_ext_bool. intros r.
    destruct (tags r) as [|t ts]; [| reflexivity].
    cbn. apply bool_decide_eq_false_2. intros H. now apply elem_of_nil in H.
Qed.

(** X14. The text of a value entry is dealt out word by word: when it is
    words joined by single blanks, the box at index [i] gets the word at
    index [i] and a box past the last word gets the empty text; the regions
    made from the entry carry these words, in the order of the boxes. *)
Theorem getBoundingBoxTextFromRegion_words (formRegion : IFormRegion)
    (ws : list string) :
  ws <> [] ->
  Forall (fun w => occurs " " w = false) ws ->
  text formRegion = JS.join " " ws ->
  (forall i, getBoundingBoxTextFromRegion formRegion i = nth i ws EmptyString)
  /\ (forall document_ fieldName key_,
        convertLabelDataToRegions
          {| document := document_;
             labels := [ {| label := fieldName; key := key_;
                            label_value := [formRegion] |} ] |}
        = imap (fun i boundingBox =>
                  createRegion boundingBox (nth i ws EmptyString) fieldName
                    (page formRegion))
               (boundingBoxes formRegion)).
Proof.
  intros Hne Hws Htext.
  assert (Hword : forall i,
            getBoundingBoxTextFromRegion formRegion i = nth i ws EmptyString).
  { intros i. unfold getBoundingBoxTextFromRegion. cbv zeta.
    rewrite Htext, split_join by assumption.
    destruct (Nat.ltb_spec i (List.length ws)) as [Hlt | Hge]; [reflexivity |].
    now rewrite nth_overflow. }
  split; [exact Hword |].
  intros document_ fieldName key_. unfold convertLabelDataToRegions.
  cbn [labels flat_map label_value label]. rewrite !app_nil_r.
  apply imap_ext. intros i b _. cbn. now rewrite Hword.
Qed.

(* ===================================================================== *)
(** * Change detection on label data                                      *)
(* ===================================================================== *)

(** ** The order of strings *)

Lemma nat_of_ascii_injective (a b : ascii) : nat_of_ascii a = nat_of_ascii b -> a = b.
Proof.
  intros E. rewrite <- (ascii_nat_embedding a), <- (ascii_nat_embedding b).
  now rewrite E.
Qed.

(** [a <= b]: [b] is not before [a]. *)
Local Abbreviation string_le := (fun a b : string => string_lt b a = false).

Lemma string_lt_cons (ca cb : ascii) (a b : string) :
  string_lt (String ca a) (String cb b) = false
  <-> (nat_of_ascii cb <= nat_of_ascii ca)%nat
      /\ (nat_of_ascii ca = nat_of_ascii cb -> string_lt a b = false).
Proof.
  cbn [string_lt]. rewrite orb_false_iff, andb_false_iff.
  rewrite Nat.ltb_ge, Nat.eqb_neq. split.
  - intros [Hle [Hne | Hlt]]; (split; [exact Hle |]); propositional.
  - intros [Hle H]. split; [exact Hle |].
    destruct (Nat.eq_dec (nat_of_ascii ca) (nat_of_ascii cb)); propositional.
Qed.

Lemma string_le_trans (a b c : string) : string_le a b -> string_le b c -> string_le a c.
Proof.
  revert b c. induction a as [|ca a IH]; intros b c Hab Hbc.
  - now destruct c.
  - destruct b as [|cb b]; [discriminate |].
    destruct c as [|cc c]; [discriminate |].
    apply string_lt_cons in Hab as [H1 H1']. apply string_lt_cons in Hbc as [H2 H2'].
    apply string_lt_cons. split; [lia |]. intros E.
    apply (IH b c); [apply H1' | apply H2']; lia.
Qed.

Lemma string_le_antisym (a b : string) : string_le a b -> string_le b a -> a = b.
Proof.
  revert b. induction a as [|ca a IH]; intros b Hab Hba.
  - destruct b; [reflexivity | discriminate].
  - destruct b as [|cb b]; [discriminate |].
    apply string_lt_cons in Hab as [H1 H1']. apply string_lt_cons in Hba as [H2 H2'].
    assert (E : nat_of_ascii ca = nat_of_ascii cb) by lia.
    rewrite (nat_of_ascii_injective _ _ E). f_equal.
    apply IH; [apply H1' | apply H2']; lia.
Qed.

Lemma string_lt_asym (a b : string) : string_lt a b = true -> string_lt b a = false.
Proof.
  revert b. induction a as [|ca a IH]; intros b.
  - now destruct b.
  - destruct b as [|cb b]; [discriminate |]. cbn [string_lt].
    rewrite orb_true_iff, andb_true_iff, Nat.ltb_lt, Nat.eqb_eq.
    intros H. apply orb_false_iff. rewrite Nat.ltb_ge, andb_false_iff, Nat.eqb_neq.
    destruct H as [Hlt | [E Hlt]]; [split; [lia | left; lia] |].
    split; [lia |]. right. now apply IH.
Qed.

(** ** Sorting strings *)

Lemma insert_string_perm (s : string) (l : list string) :
  Permutation (insert_string s l) (s :: l).
Proof.
  induction l as [|t l IH]; [reflexivity |]. cbn [insert_string].
  destruct (string_lt s t); [reflexivity |].
  rewrite IH. apply perm_swap.
Qed.

Lemma sort_strings_perm (l : list string) : Permutation (sort_strings l) l.
Proof.
  induction l as [|s l IH]; [reflexivity |]. cbn [sort_strings fold_right].
  fold (sort_strings l). rewrite insert_string_perm. now apply perm_skip.
Qed.

Lemma insert_string_sorted (s : string) (l : list string) :
  Sorted string_le l -> Sorted string_le (insert_string s l).
Proof.
  induction l as [|t l IH]; intros Hl; cbn [insert_string].
  - repeat constructor.
  - destruct (string_lt s t) eqn:E.
    + constructor; [exact Hl |]. constructor. now apply string_lt_asym.
    + apply Sorted_inv in Hl as [Hl Hhd]. constructor; [now apply IH |].
      destruct l as [|u l]; cbn [insert_string]; [now constructor |].
      destruct (string_lt s u); constructor; [exact E |].
      now apply HdRel_inv in Hhd.
Qed.

Lemma sort_strings_sorted (l : list string) : Sorted string_le (sort_strings l).
Proof.
  induction l as [|s l IH]; [constructor |]. cbn [sort_strings fold_right].
  now apply insert_string_sorted.
Qed.

Lemma sort_strings_unique (l l' : list string) :
  Permutation l l' -> sort_strings l = sort_strings l'.
Proof.
  intros H.
  apply (@Sorted_unique string string_le).
  - intros a b c. apply string_le_trans.
  - intros a b. apply string_le_antisym.
  - apply sort_strings_sorted.
  - apply sort_strings_sorted.
  - now rewrite !sort_strings_perm.
Qed.

(** X15. The canvas takes label data as changed exactly when the field
    names changed: [isLabelDataChanged] answers false if and only if the
    new labels carry the same field names as the previous ones, each as
    many times, in whatever order (a missing label list counts as empty).
    A change of the boxes, pages or texts under the same names is not
    seen. *)
Theorem isLabelDataChanged_by_field_names (newLabelData prevLabelData : option ILabelData) :
  isLabelDataChanged newLabelData prevLabelData = false
  <-> Permutation (map label (labels_of_props newLabelData))
                  (map label (labels_of_props prevLabelData)).
Proof.
  unfold isLabelDataChanged. cbv zeta.
  set (newLabels := labels_of_props newLabelData).
  set (prevLabels := labels_of_props prevLabelData).
  destruct (Nat.eqb_spec (List.length newLabels) (List.length prevLabels)) as [Hlen | Hlen];
    cbn [negb].
  - destruct (Nat.ltb_spec 0 (List.length newLabels)) as [Hpos | Hzero].
    + rewrite negb_false_iff, bool_decide_eq_true. split.
      * intros E. rewrite <- (sort_strings_perm (map label newLabels)), E.
        apply sort_strings_perm.
      * apply sort_strings_unique.
    + split; [intros _ | reflexivity].
      destruct newLabels; [| cbn in Hzero; lia].
      destruct prevLabels; [reflexivity | discriminate].
  - split; [discriminate |]. intros H. exfalso. apply Hlen.
    apply Permutation_length in H. now rewrite !length_map in H.
Qed.

(* ===================================================================== *)
(** * Further properties of the order index and of drawing                *)
(* ===================================================================== *)

(** X16. [compareRegionOrder] never answers 0 and is no consistent
    comparator: a region compares below itself, and two regions with the
    same page and rank compare below each other, so their order after a
    sort is the engine's choice. Where it answers 1 it is a strict order:
    the answer the other way round is -1, and answers of 1 chain. *)
Theorem compareRegionOrder_strict_on_greater (c : Canvas) (r1 r2 r3 : IRegion) :
  (compareRegionOrder c r1 r2 = 1 \/ compareRegionOrder c r1 r2 = -1)
  /\ compareRegionOrder c r1 r1 = -1
  /\ (getRegionOrder c (id r1) = getRegionOrder c (id r2) ->
      compareRegionOrder c r1 r2 = -1 /\ compareRegionOrder c r2 r1 = -1)
  /\ (compareRegionOrder c r1 r2 = 1 -> compareRegionOrder c r2 r1 = -1)
  /\ (compareRegionOrder c r1 r2 = 1 -> compareRegionOrder c r2 r3 = 1 ->
      compareRegionOrder c r1 r3 = 1).
Proof.
  unfold compareRegionOrder. cbv zeta.
  set (k1 := getRegionOrder c (id r1)).
  set (k2 := getRegionOrder c (id r2)).
  set (k3 := getRegionOrder c (id r3)).
  split; [| split; [| split; [| split]]].
  - destruct (order_page k1 =? order_page k2);
      [destruct (order k2 <? order k1) | destruct (order_page k2 <? order_page k1)];
      propositional.
  - rewrite Z.eqb_refl, Z.ltb_irrefl. reflexivity.
  - intros ->. rewrite Z.eqb_refl, Z.ltb_irrefl. now split.
  - destruct (Z.eqb_spec (order_page k1) (order_page k2)) as [E | E].
    + rewrite <- E, Z.eqb_refl.
      destruct (Z.ltb_spec (order k2) (order k1)); [| discriminate].
      intros _. now replace (order k1 <? order k2) with false
        by (symmetry; apply Z.ltb_ge; lia).
    + destruct (Z.ltb_spec (order_page k2) (order_page k1)); [| discriminate].
      intros _. replace (order_page k2 =? order_page k1) with false
        by (symmetry; apply Z.eqb_neq; lia).
      now replace (order_page k1 <? order_page k2) with false
        by (symmetry; apply Z.ltb_ge; lia).
  - destruct (Z.eqb_spec (order_page k1) (order_page k2)) as [E12 | E12];
      destruct (Z.eqb_spec (order_page k2) (order_page k3)) as [E23 | E23];
      destruct (Z.eqb_spec (order_page k1) (order_page k3)) as [E13 | E13];
      destruct (Z.ltb_spec (order k2) (order k1));
      destruct (Z.ltb_spec (order k3) (order k2));
      destruct (Z.ltb_spec (order k3) (order k1));
      destruct (Z.ltb_spec (order_page k2) (order_page k1));
      destruct (Z.ltb_spec (order_page k3) (order_page k2));
      destruct (Z.ltb_spec (order_page k3) (order_page k1));
      intros; try reflexivity; try discriminate; try lia.
Qed.

(** ** An OCR proposal and the region selected from it *)

Lemma vertex_pairs_flat_map {A : Type} (f g : A -> float) (vs : list A) :
  vertex_pairs (flat_map (fun v => [f v; g v]) vs) = map (fun v => (f v, g v)) vs.
Proof. induction vs as [|v vs IH]; [reflexivity |]. cbn. now rewrite IH. Qed.

Lemma map_prints_exactly' (coords : list float) :
  Forall prints_exactly coords ->
  map (fun a => JS.parseFloat (JS.numberToString a)) coords = coords.
Proof.
  induction 1 as [|a l Ha _ IH]; [reflexivity |].
  cbn [map]. now rewrite Ha, IH.
Qed.

(** X17. The feature drawn for a region that was selected from an OCR
    proposal is the proposal's polygon: when the normalised coordinates of
    the word's box print exactly, [convertRegionToFeature] on a region
    that carries the proposal's id gives the pixel coordinates
    [createBoundingBoxVectorFeature] gave the proposal. *)
Theorem region_feature_matches_proposal (text_ : string) (boundingBox_ : list float)
    (imageExtent ocrExtent : list float) (page_ : Z) (region : IRegion)
    (asProposal : bool) :
  boundingBox_ <> [] ->
  Forall prints_exactly
    (flat_map (fun v => [(fst v / extent_width ocrExtent)%float;
                         (snd v / extent_height ocrExtent)%float])
       (vertex_pairs boundingBox_)) ->
  id region
  = feature_id (createBoundingBoxVectorFeature text_ boundingBox_ imageExtent
                  ocrExtent page_) ->
  geometry (convertRegionToFeature region imageExtent asProposal)
  = geometry (createBoundingBoxVectorFeature text_ boundingBox_ imageExtent
                ocrExtent page_).
Proof.
  intros Hne Hexact Hid. unfold convertRegionToFeature. cbv zeta.
  cbn [geometry]. rewrite Hid.
  unfold createBoundingBoxVectorFeature. cbv zeta. cbn [feature_id geometry].
  rewrite decodeRegionId_createRegionId.
  - rewrite (map_prints_exactly' _ Hexact), vertex_pairs_flat_map, map_map.
    reflexivity.
  - destruct boundingBox_ as [|bx [|by_ rest]]; [contradiction | discriminate | discriminate].
Qed.

(** ** What is drawn is indexed *)

Lemma drawn_features (imageExtent ocrExtent : list float) (page_ : Z)
    (ls : list OcrLine) :
  flat_map
    (fun line =>
       match words line with
       | Some ws =>
           map (fun word =>
                  createBoundingBoxVectorFeature (word_text word)
                    (word_boundingBox word) imageExtent ocrExtent page_)
               (List.filter (fun word => shouldDisplayOcrWord (word_text word)) ws)
       | None => []
       end) ls
  = map (fun word =>
           createBoundingBoxVectorFeature (word_text word)
             (word_boundingBox word) imageExtent ocrExtent page_)
        (List.filter (fun word => shouldDisplayOcrWord (word_text word))
           (flat_map (fun line => match words line with Some ws => ws | None => [] end) ls)).
Proof.
  induction ls as [|l ls IH]; [reflexivity |].
  cbn [flat_map]. rewrite IH, List.filter_app, map_app.
  now destruct (words l).
Qed.

Lemma fold_index_words_keys (imageExtent ocrExtent : list float) (page_ : Z)
    (ws : list OcrWord) (st : gmap string Z * Z) :
  (forall k, is_Some (fst st !! k) ->
             is_Some (fst (fold_left (index_word imageExtent ocrExtent page_) ws st) !! k))
  /\ (forall w, In w ws -> shouldDisplayOcrWord (word_text w) = true ->
        is_Some (fst (fold_left (index_word imageExtent ocrExtent page_) ws st)
                 !! feature_id
                      (createBoundingBoxVectorFeature (word_text w)
                         (word_boundingBox w) imageExtent ocrExtent page_))).
Proof.
  revert st. induction ws as [|a ws IH]; intros st.
  - split; [propositional | intros w []].
  - cbn [fold_left]. destruct (IH (index_word imageExtent ocrExtent page_ st a))
      as [Hkeep Hnew].
    assert (Hstep : forall k, is_Some (fst st !! k) ->
              is_Some (fst (index_word imageExtent ocrExtent page_ st a) !! k)).
    { intros k Hk. unfold index_word.
      destruct (shouldDisplayOcrWord (word_text a)); [| exact Hk]. cbn [fst].
      destruct (decide (feature_id
                          (createBoundingBoxVectorFeature (word_text a)
                             (word_boundingBox a) imageExtent ocrExtent page_) = k))
        as [<- | Hne].
      - rewrite lookup_insert_eq. eauto.
      - now rewrite lookup_insert_ne. }
    split.
    + intros k Hk. apply Hkeep, Hstep, Hk.
    + intros w [<- | Hw] Hshown; [| now apply Hnew].
      apply Hkeep. unfold index_word. rewrite Hshown. cbn [fst].
      rewrite lookup_insert_eq. eauto.
Qed.

Lemma index_page_keys (imageExtent : list float) (ocr_ : OcrReadResult) (w : OcrWord) :
  In w (page_words ocr_) -> shouldDisplayOcrWord (word_text w) = true ->
  is_Some (index_page imageExtent ocr_ !! word_id imageExtent ocr_ w).
Proof.
  intros Hw Hshown. rewrite index_page_fold.
  now apply fold_index_words_keys.
Qed.

Lemma find_order_some (regionId : string) (pageNumber_ : Z)
    (orders : list (option (gmap string Z))) (i : nat) (m : gmap string Z) :
  page_index orders i = Some m -> is_Some (m !! regionId) ->
  is_Some (find_order regionId pageNumber_ orders).
Proof.
  revert pageNumber_ i. induction orders as [|slot orders IH]; intros p i Hi Hm.
  - destruct i; discriminate.
  - cbn [find_order].
    destruct (slot ≫= (fun regions_ => regions_ !! regionId)) eqn:E; [eauto |].
    destruct i as [|i].
    + unfold page_index in Hi. cbn in Hi. destruct slot as [m'|]; [| discriminate].
      injection Hi as ->. cbn in E. rewrite E in Hm. now destruct Hm.
    + apply (IH _ i); [exact Hi | exact Hm].
Qed.

(** X18. Every OCR proposal [drawOcr] draws has a place in the order index
    [buildRegionOrders] builds: on a page of the OCR answer (distinct page
    numbers from 1 on), [drawOcr] adds one proposal for each word that is
    no placeholder, in reading order, and the index holds a rank for the
    id of each of them. *)
Theorem drawn_proposals_are_indexed (c : Canvas) (ocrs : OcrResponse)
    (results : list OcrReadResult) (ocr_ : OcrReadResult) (fs : list Feature) :
  ocr c = Some ocrs ->
  ocrResults_of ocrs = Some results ->
  imageMap c = Some fs ->
  ocrForCurrentPage c = ReadResult ocr_ ->
  In ocr_ results ->
  NoDup (map ocr_page results) ->
  1 <= ocr_page ocr_ ->
  exists c1 c2,
    buildRegionOrders c = Completed c1
    /\ drawOcr c = Completed c2
    /\ imageMap c2
       = Some (fs ++ map (fun word =>
                            createBoundingBoxVectorFeature (word_text word)
                              (word_boundingBox word) (getImageExtent c)
                              [0%float; 0%float; ocr_width ocr_; ocr_height ocr_]
                              (ocr_page ocr_))
                         (List.filter (fun word => shouldDisplayOcrWord (word_text word))
                            (page_words ocr_)))%list
    /\ forall word, In word (page_words ocr_) ->
         shouldDisplayOcrWord (word_text word) = true ->
         is_Some (find_order (word_id (getImageExtent c) ocr_ word) 0 (regionOrders c1)).
Proof.
  intros Hocr Hresults Hmap Hpage Hin Hnd Hpos.
  exists (set_regionOrders (index_pages (getImageExtent c) (regionOrders c) results) c).
  exists (set_imageMap
            (Some (fs ++ map (fun word =>
                                createBoundingBoxVectorFeature (word_text word)
                                  (word_boundingBox word) (getImageExtent c)
                                  [0%float; 0%float; ocr_width ocr_; ocr_height ocr_]
                                  (ocr_page ocr_))
                             (List.filter (fun word => shouldDisplayOcrWord (word_text word))
                                (page_words ocr_)))%list) c).
  split; [| split; [| split]].
  - unfold buildRegionOrders. rewrite Hocr, Hmap, Hresults. reflexivity.
  - unfold drawOcr. rewrite Hmap, Hpage. cbv zeta. rewrite drawn_features.
    change (flat_map (fun line => match words line with Some ws => ws | None => [] end)
              (match lines ocr_ with Some ls => ls | None => [] end))
      with (page_words ocr_).
    destruct (map _ (List.filter _ (page_words ocr_))) as [|f l].
    + cbn [List.length Nat.ltb Nat.leb]. rewrite app_nil_r, <- Hmap. f_equal.
      symmetry. apply set_imageMap_same.
    + reflexivity.
  - reflexivity.
  - intros word Hword Hshown. cbn [regionOrders set_regionOrders].
    apply (find_order_some _ 0 _ (Z.to_nat (ocr_page ocr_ - 1))
             (index_page (getImageExtent c) ocr_)).
    + now apply index_pages_slot.
    + now apply index_page_keys.
Qed.

(* ===================================================================== *)
(** * The one-page rule as an invariant                                   *)
(* ===================================================================== *)

Lemma head_retag (tag : string) (c : Canvas) (r : IRegion) :
  head (tags (retag tag c r))
  = if isSelectedRegion c r then Some tag else head (tags r).
Proof. unfold retag. now destruct (isSelectedRegion c r). Qed.

(** X19. [applyTag] keeps the one-page rule: when the regions that share a
    first tag are on one page before, they are on one page afterwards,
    whether the tag was applied or refused (for every sort that permutes
    its input). *)
Theorem applyTag_keeps_one_page_per_tag (tag : string) (c : Canvas) :
  (forall cmp l, Permutation (array_sort cmp l) l) ->
  one_page_per_tag (regions c) ->
  one_page_per_tag (regions (applyTag tag c)).
Proof.
  intros Hsort Hinv.
  destruct (String.eqb_spec tag EmptyString) as [-> | Htag];
    [now rewrite applyTag_noop by now left |].
  destruct (getSelectedRegions c) as [|r0 rs0] eqn:Hsel;
    [now rewrite applyTag_noop by now right |].
  assert (Hne : getSelectedRegions c <> []) by (rewrite Hsel; discriminate).
  destruct (Z.lt_ge_cases 1 (pageCountWithTag tag (getSelectedRegions c) c)) as [Hc | Hc].
  { now rewrite (applyTag_rejected tag c Htag Hne Hc). }
  rewrite (applyTag_applied tag c Htag Hne) by lia.
  cbn [regions set_selectedRegionIds updateAssetRegions set_asset].
  assert (Hsame : forall a b, In a (tag_candidates tag c) -> In b (tag_candidates tag c) ->
                              pageNumber a = pageNumber b).
  { intros a b Ha Hb. destruct (Z.eq_dec (pageNumber a) (pageNumber b)) as [E | E];
      [exact E |]. exfalso.
    assert (1 < pageCountWithTag tag (getSelectedRegions c) c)
      by (apply distinct_pages_count; now exists a, b).
    lia. }
  assert (Hcand : forall a, In a (regions c) ->
                    head (tags (retag tag c a)) = Some tag ->
                    In a (tag_candidates tag c)).
  { intros a Ha Hhead. unfold tag_candidates. apply in_or_app.
    rewrite head_retag in Hhead.
    destruct (isSelectedRegion c a) eqn:Hs.
    - right. apply filter_In. now split.
    - left. apply filter_In. split; [exact Ha |].
      destruct (tags a) as [|t ts]; [discriminate |].
      injection Hhead as ->. apply String.eqb_refl. }
  intros r1 r2 t H1 H2 Ht1 Ht2.
  apply (Permutation_in _ (Hsort _ _)) in H1. apply (Permutation_in _ (Hsort _ _)) in H2.
  apply in_map_iff in H1 as (a1 & <- & H1). apply in_map_iff in H2 as (a2 & <- & H2).
  rewrite !pageNumber_retag.
  destruct (isSelectedRegion c a1) eqn:Hs1.
  - assert (t = tag) by (rewrite head_retag, Hs1 in Ht1; congruence). subst t.
    apply Hsame; now apply Hcand.
  - destruct (isSelectedRegion c a2) eqn:Hs2.
    + assert (t = tag) by (rewrite head_retag, Hs2 in Ht2; congruence). subst t.
      apply Hsame; now apply Hcand.
    + rewrite head_retag, Hs1 in Ht1. rewrite head_retag, Hs2 in Ht2.
      now apply (Hinv a1 a2 t).
Qed.

(* ===================================================================== *)
(** * Selecting, turning the page and drawing, once more                  *)
(* ===================================================================== *)

Lemma addToSelectedRegions_selected (regionId text_ : string) (polygon : list float)
    (c : Canvas) :
  isRegionSelected c regionId = true ->
  addToSelectedRegions regionId text_ polygon c = c.
Proof. intros H. unfold addToSelectedRegions. now rewrite H. Qed.

Lemma addToSelectedRegions_selects (regionId text_ : string) (polygon : list float)
    (c : Canvas) :
  isRegionSelected (addToSelectedRegions regionId text_ polygon c) regionId = true.
Proof.
  unfold addToSelectedRegions. cbv zeta.
  destruct (isRegionSelected c regionId) eqn:E; [exact E |].
  apply isRegionSelected_In. cbn [selectedRegionIds set_selectedRegionIds].
  apply in_or_app. right. now left.
Qed.

(** X20. Selecting a feature without toggling is idempotent: afterwards
    the feature's id is selected, and selecting it again changes nothing
    (no second region, no second entry in the selection). *)
Theorem select_without_toggle_is_idempotent (feature : Feature) (c : Canvas) :
  isRegionSelected (handleFeatureSelect feature false c) (feature_id feature) = true
  /\ handleFeatureSelect feature false (handleFeatureSelect feature false c)
     = handleFeatureSelect feature false c.
Proof.
  unfold handleFeatureSelect. cbn [andb]. cbv zeta.
  split; [apply addToSelectedRegions_selects |].
  apply addToSelectedRegions_selected, addToSelectedRegions_selects.
Qed.

Lemma goToPage_selection (targetPage : Z) (c : Canvas) :
  selectedRegionIds (state_of (goToPage targetPage c))
  = selectedRegionIds (deleteRegionsFromSelectedRegionIds (getSelectedRegions c) c).
Proof.
  unfold goToPage. cbv zeta.
  destruct ((targetPage <? 1) || (numPages c <? targetPage)).
  all: destruct (pruned_shape c) as (fs & -> & _).
  all: set (c3 := set_imageMap fs _).
  all: destruct (switchToTargetPage_shape targetPage c3)
         as [-> | [-> | (img & pages & pdf & tiffs & ->)]];
       cbn [and_then state_of]; try reflexivity.
  all: cbn [imageMap set_ocrForCurrentPage set_page c3 set_imageMap].
  all: destruct fs as [fs|]; cbn [state_of]; try reflexivity.
  all: match goal with
       | |- context [drawOcr ?d] =>
           destruct (drawOcr_shape d) as [[fs' ->] | ->]
       end; cbn [and_then state_of]; try reflexivity.
  all: match goal with
       | |- context [loadLabelData ?d] =>
           destruct (loadLabelData_shape d) as (fs2 & rs & ld & -> & _)
       end; reflexivity.
Qed.

(** X21. Turning the page clears the selection: when the selection is
    sound and holds no empty id, no id is selected after [goToPage],
    whatever page was asked for and whether the page loaded or not. *)
Theorem goToPage_clears_the_selection (targetPage : Z) (c : Canvas) :
  selection_sound c ->
  ~ In EmptyString (selectedRegionIds c) ->
  selectedRegionIds (state_of (goToPage targetPage c)) = []
  /\ getSelectedRegions (state_of (goToPage targetPage c)) = [].
Proof.
  intros [Hnd Hin] Hempty.
  assert (Hids : selectedRegionIds (state_of (goToPage targetPage c)) = []).
  { rewrite goToPage_selection, deleteRegionsFromSelectedRegionIds_filter by exact Hnd.
    apply filter_none. intros i Hi. apply negb_false_iff.
    specialize (Hin i Hi). apply has_id_true in Hin as (r & Hr & Hid).
    apply has_id_true. exists r. split; [| exact Hid].
    apply filter_In. split; [exact Hr |].
    apply isSelectedRegion_In. rewrite Hid. split; [exact Hi |].
    intros ->. contradiction. }
  split; [exact Hids |]. now apply getSelectedRegions_no_ids.
Qed.

(** X22. [addRegions] draws each region id once and only the current
    page: on a surface that shows no id twice, adding regions with
    distinct ids leaves a surface that shows no id twice; the features
    added come after those already drawn and are those of the regions of
    the page shown whose id was not yet drawn. *)
Theorem addRegions_draws_each_id_once (rs : list IRegion) (c : Canvas)
    (fs : list Feature) :
  imageMap c = Some fs ->
  NoDup (map feature_id fs) ->
  NoDup (map id rs) ->
  exists added,
    imageMap (addRegions rs c) = Some (fs ++ added)%list
    /\ NoDup (map feature_id (fs ++ added))
    /\ added
       = map (fun region => convertRegionToFeature region (getImageExtent c) false)
           (List.filter
              (fun region =>
                 (pageNumber region =? currentPage c)
                 && (JS.findIndex
                       (fun feature => String.eqb (feature_id feature) (id region)) fs
                     =? -1))
              rs).
Proof.
  intros Hmap Hfs Hrs. eexists. split; [| split; [| reflexivity]].
  - unfold addRegions, addRegionsToImageMap. cbv zeta.
    change (imageMap (addRegionsToAsset rs c)) with (imageMap c). rewrite Hmap.
    cbn [imageMap set_imageMap]. unfold addFeatures. rewrite filter_filter_and.
    reflexivity.
  - rewrite map_app, map_map. cbn [feature_id convertRegionToFeature].
    apply NoDup_app; [exact Hfs | now apply NoDup_map_filter |].
    intros i Hi Hi'. apply in_map_iff in Hi as (g & <- & Hg).
    apply in_map_iff in Hi' as (r & Hr & Hin).
    apply filter_In in Hin as [_ Hcond]. apply andb_true_iff in Hcond as [_ Hcond].
    apply Z.eqb_eq in Hcond.
    destruct (findIndex_spec (fun feature => String.eqb (feature_id feature) (id r)) fs)
      as [[_ Hall] | [Hpos _]]; [| lia].
    specialize (Hall g Hg). cbn in Hall. rewrite Hr, String.eqb_refl in Hall.
    discriminate.
Qed.

(* ===================================================================== *)
(** * Label data follows the regions                                      *)
(* ===================================================================== *)

Lemma loadLabelData_in_sync (c : Canvas) :
  label_data_in_sync c -> label_data_in_sync (loadLabelData c).
Proof.
  intros H. unfold loadLabelData. destruct (labelData c) as [ld|]; [| exact H].
  destruct (0 <? List.length (convertLabelDataToRegions ld))%nat; [| exact H].
  destruct (addRegions_shape (convertLabelDataToRegions ld) c) as (fs & ->).
  reflexivity.
Qed.

Lemma goToPage_in_sync (targetPage : Z) (c : Canvas) :
  label_data_in_sync (state_of (goToPage targetPage c)).
Proof.
  unfold goToPage. cbv zeta.
  destruct ((targetPage <? 1) || (numPages c <? targetPage)).
  all: destruct (pruned_shape c) as (fs & -> & _).
  all: set (c3 := set_imageMap fs _).
  all: destruct (switchToTargetPage_shape targetPage c3)
         as [-> | [-> | (img & pages & pdf & tiffs & ->)]];
       cbn [and_then state_of]; try reflexivity.
  all: cbn [imageMap set_ocrForCurrentPage set_page c3 set_imageMap].
  all: destruct fs as [fs|]; cbn [state_of]; try reflexivity.
  all: match goal with
       | |- context [drawOcr ?d] =>
           destruct (drawOcr_shape d) as [[fs' ->] | ->]
       end; cbn [and_then state_of]; try reflexivity.
  all: apply loadLabelData_in_sync; reflexivity.
Qed.

(** X24. The label data follows the regions: after [addRegions],
    [deleteRegions], [onRegionDelete], [updateRegions] and [goToPage]
    (whether the page loads or not) the label data of the asset is the one
    [convertRegionsToLabelData] writes for the region list of that moment;
    [applyTag] and [loadLabelData] keep it so. *)
Theorem label_data_follows_the_regions (c : Canvas) (rs : list IRegion)
    (regionId tag : string) (targetPage : Z) :
  label_data_in_sync (addRegions rs c)
  /\ label_data_in_sync (deleteRegions rs c)
  /\ label_data_in_sync (onRegionDelete regionId c)
  /\ label_data_in_sync (updateRegions rs c)
  /\ label_data_in_sync (state_of (goToPage targetPage c))
  /\ (label_data_in_sync c -> label_data_in_sync (applyTag tag c))
  /\ (label_data_in_sync c -> label_data_in_sync (loadLabelData c)).
Proof.
  split; [| split; [| split; [| split; [| split; [| split]]]]].
  - destruct (addRegions_shape rs c) as (fs & ->). reflexivity.
  - unfold deleteRegions. cbv zeta. rewrite deleteRegionsFromImageMap_frame.
    reflexivity.
  - reflexivity.
  - reflexivity.
  - apply goToPage_in_sync.
  - intros H. destruct (applyTag_cases tag c) as [-> | [[message ->] | ->]];
      [exact H | exact H | reflexivity].
  - apply loadLabelData_in_sync.
Qed.

(** X25. Applying a tag writes the selected regions into the label data
    under that tag: after an [applyTag] that is not refused, the label
    data has a label of that name, and the label holds, for every region
    that was selected, a value entry with the region's page, its text and
    the one box decoded from its id (for every sort that permutes its
    input). *)
Theorem applyTag_writes_the_label (tag : string) (c : Canvas) :
  (forall cmp l, Permutation (array_sort cmp l) l) ->
  tag <> EmptyString ->
  getSelectedRegions c <> [] ->
  pageCountWithTag tag (getSelectedRegions c) c <= 1 ->
  exists ld l,
    labelData (applyTag tag c) = Some ld
    /\ In l (labels ld)
    /\ label l = tag
    /\ forall r, In r (getSelectedRegions c) ->
         In {| page := pageNumber r; text := value r;
               boundingBoxes := [decodeRegionId (id r)] |}
            (label_value l).
Proof.
  intros Hsort Htag Hsel Hcount.
  rewrite (applyTag_applied tag c Htag Hsel Hcount).
  cbn [labelData set_selectedRegionIds updateAssetRegions set_asset].
  set (sorted := array_sort (compareRegionOrder c) (map (retag tag c) (regions c))).
  assert (Hretagged : forall r, In r (getSelectedRegions c) ->
                                In (with_tags [tag] r) sorted).
  { intros r Hr. apply filter_In in Hr as [Hr Hs].
    apply (Permutation_in _ (Permutation_sym (Hsort _ _))).
    apply in_map_iff. exists r. split; [| exact Hr].
    unfold retag. now rewrite Hs. }
  eexists. eexists {| label := tag; key := None; label_value := _ |}.
  split; [reflexivity |]. split; [| split; [reflexivity |]].
  - unfold convertRegionsToLabelData. cbn [labels].
    apply in_map_iff. exists tag. split; [reflexivity |].
    apply In_omap_id, Set_of_In, in_map_iff.
    destruct (getSelectedRegions c) as [|r0 rest] eqn:E; [contradiction |].
    exists (with_tags [tag] r0). split; [reflexivity |].
    apply Hretagged. now left.
  - intros r Hr. cbn [label_value].
    apply in_map_iff. exists (with_tags [tag] r). split; [reflexivity |].
    apply filter_In. split; [now apply Hretagged |].
    apply bool_decide_eq_true_2. cbn [tags with_tags]. now left.
Qed.

(* ===================================================================== *)
(** * The bounding box of a region                                        *)
(* ===================================================================== *)

(** ** The order of Numbers *)

Lemma SFcompare_antisym (a b : spec_float) :
  SFcompare b a = option_map CompOpp (SFcompare a b).
Proof.
  destruct a as [s1|s1| |s1 m1 e1], b as [s2|s2| |s2 m2 e2]; cbn [SFcompare option_map];
    try reflexivity;
    try (destruct s1; reflexivity); try (destruct s2; reflexivity);
    try (destruct s1, s2; reflexivity).
  destruct s1, s2; cbn [CompOpp]; try reflexivity;
    rewrite (Z.compare_antisym e1 e2); destruct (e1 ?= e2); cbn [CompOpp]; try reflexivity.
  - pose proof (Pos.compare_cont_antisym m1 m2 Eq) as H. cbn [CompOpp] in H.
    now rewrite <- H.
  - pose proof (Pos.compare_cont_antisym m1 m2 Eq) as H. cbn [CompOpp] in H.
    now rewrite <- H.
Qed.

Lemma float_ltb_asym (a b : float) : (a <? b)%float = true -> (b <? a)%float = false.
Proof.
  rewrite !FloatAxioms.ltb_spec. unfold SFltb. rewrite (SFcompare_antisym (Prim2SF a)).
  destruct (SFcompare (Prim2SF a) (Prim2SF b)) as [[| |]|]; cbn; congruence.
Qed.

Lemma is_nan_Prim2SF (a : float) : is_nan a = false <-> Prim2SF a <> S754_nan.
Proof.
  unfold is_nan. rewrite negb_false_iff, FloatAxioms.eqb_spec. unfold SFeqb.
  destruct (Prim2SF a) as [s|s| |s m e]; cbn [SFcompare].
  - split; [discriminate | reflexivity].
  - destruct s; (split; [discriminate | reflexivity]).
  - split; [discriminate | congruence].
  - destruct s; rewrite Z.compare_refl, Pos.compare_cont_refl; cbn [CompOpp];
      (split; [discriminate | reflexivity]).
Qed.

Lemma float_ltb_not_nan (a b : float) :
  (a <? b)%float = true -> is_nan a = false /\ is_nan b = false.
Proof.
  rewrite FloatAxioms.ltb_spec, !is_nan_Prim2SF. unfold SFltb.
  destruct (Prim2SF a), (Prim2SF b); cbn [SFcompare]; try discriminate;
    intros _; split; discriminate.
Qed.

Lemma float_ltb_irrefl (a : float) : (a <? a)%float = false.
Proof.
  destruct (a <? a)%float eqn:E; [| reflexivity].
  pose proof (float_ltb_asym a a E). congruence.
Qed.

(** ** [Math.min] and [Math.max] on ordered Numbers *)

Lemma min2_max2_lt (a b : float) :
  (a <? b)%float = true ->
  JS.min2 a b = a /\ JS.max2 a b = b /\ JS.max2 b a = b /\ JS.min2 b a = a.
Proof.
  intros Hlt. pose proof (float_ltb_asym a b Hlt) as Hgt.
  destruct (float_ltb_not_nan a b Hlt) as [Ha Hb].
  unfold JS.min2, JS.max2. now rewrite Ha, Hb, Hlt, Hgt.
Qed.

Lemma min2_max2_same (a : float) :
  is_nan a = false -> JS.min2 a a = a /\ JS.max2 a a = a.
Proof.
  intros Ha. unfold JS.min2, JS.max2. rewrite Ha, float_ltb_irrefl. cbn [orb].
  now destruct (get_sign a).
Qed.

Lemma min2_max2_first (a : float) :
  is_nan a = false -> JS.min2 infinity a = a /\ JS.max2 neg_infinity a = a.
Proof.
  intros Ha. unfold JS.min2, JS.max2. rewrite Ha.
  replace (is_nan infinity) with false by (vm_compute; reflexivity).
  replace (is_nan neg_infinity) with false by (vm_compute; reflexivity).
  replace (get_sign infinity) with false by (vm_compute; reflexivity).
  replace (get_sign neg_infinity) with true by (vm_compute; reflexivity).
  cbn [orb]. rewrite !FloatAxioms.ltb_spec.
  replace (Prim2SF infinity) with (S754_infinity false) by (vm_compute; reflexivity).
  replace (Prim2SF neg_infinity) with (S754_infinity true) by (vm_compute; reflexivity).
  apply is_nan_Prim2SF in Ha. unfold SFltb.
  destruct (Prim2SF a) as [s|s| |s m e] eqn:E; cbn [SFcompare]; try contradiction.
  - now split.
  - destruct s; now split.
  - now split.
Qed.

(** X26. The bounding box of a rectangle: for the flat array of the four
    corners of a rectangle, clockwise from the top left, with left < right
    and top < bottom, [convertToRegionBoundingBox] gives the left and top
    coordinates, the width right - left and the height bottom - top, and
    [convertToRegionPoints] gives the four corners in order. *)
Theorem convertToRegionBoundingBox_of_rectangle (x1 y1 x2 y2 : float) :
  (x1 <? x2)%float = true ->
  (y1 <? y2)%float = true ->
  convertToRegionBoundingBox [x1; y1; x2; y1; x2; y2; x1; y2]
  = {| left := x1; top := y1; width := (x2 - x1)%float; height := (y2 - y1)%float |}
  /\ convertToRegionPoints [x1; y1; x2; y1; x2; y2; x1; y2]
     = [ {| x := x1; y := y1 |}; {| x := x2; y := y1 |};
         {| x := x2; y := y2 |}; {| x := x1; y := y2 |} ].
Proof.
  intros Hx Hy. split; [| reflexivity].
  destruct (float_ltb_not_nan _ _ Hx) as [Hx1 Hx2].
  destruct (float_ltb_not_nan _ _ Hy) as [Hy1 Hy2].
  destruct (min2_max2_lt _ _ Hx) as (Ex1 & Ex2 & Ex3 & _).
  destruct (min2_max2_lt _ _ Hy) as (Ey1 & Ey2 & _ & _).
  destruct (min2_max2_same _ Hx1) as [Sx1 _]. destruct (min2_max2_same _ Hx2) as [_ Sx2].
  destruct (min2_max2_same _ Hy1) as [Sy1 Ty1]. destruct (min2_max2_same _ Hy2) as [_ Sy2].
  destruct (min2_max2_first _ Hx1) as [Fx1 Gx1].
  destruct (min2_max2_first _ Hy1) as [Fy1 Gy1].
  unfold convertToRegionBoundingBox. cbv zeta.
  cbn [even_indices odd_indices JS.Math_min JS.Math_max fold_left].
  unfold JS.Math_min, JS.Math_max. cbn [fold_left].
  rewrite Fx1, Ex1, Ex1, Sx1, Gx1, Ex2, Sx2, Ex3.
  rewrite Fy1, Sy1, Ey1, Ey1, Gy1, Ty1, Ey2, Sy2.
  reflexivity.
Qed.

(* ===================================================================== *)
(** * A page the OCR answer does not reach                                *)
(* ===================================================================== *)

(** X27. When the read results of the OCR answer stop before the page
    asked for, [goToPage] on a PDF throws after the page was switched: the
    page asked for is shown and counted as the current page, the OCR
    result of the page is undefined, the surface is left without any
    feature, and the regions of the label data were not loaded. *)
Theorem goToPage_throws_without_ocr_page (targetPage : Z) (c : Canvas)
    (pdf : list PageImage) (img : PageImage) (ocrs : OcrResponse)
    (results : list OcrReadResult) :
  pdfFile c = Some pdf ->
  imageMap c <> None ->
  1 <= targetPage <= Z.of_nat (List.length pdf) ->
  nth_error pdf (Z.to_nat (targetPage - 1)) = Some img ->
  page_uri img <> EmptyString ->
  ocr c = Some ocrs ->
  analyzeResult ocrs ≫= readResults = Some results ->
  Z.of_nat (List.length results) < targetPage ->
  exists c',
    goToPage targetPage c = Threw c'
    /\ currentPage c' = targetPage
    /\ imageUri c' = Some (page_uri img)
    /\ ocrForCurrentPage c' = UndefinedPage
    /\ imageMap c' = Some []
    /\ regions c'
       = List.filter
           (fun a => negb (has_id (id a)
                             (List.filter
                                (fun region => (List.length (tags region) =? 0)%nat)
                                (getSelectedRegions c))))
           (regions c).
Proof.
  intros Hpdf Hmap Hrange Himg Huri Hocr Hresults Hshort.
  unfold goToPage. cbv zeta.
  assert (Hc : (if (targetPage <? 1) || (numPages c <? targetPage) then c else c) = c)
    by now destruct ((targetPage <? 1) || (numPages c <? targetPage)).
  rewrite Hc. clear Hc.
  destruct (pruned_shape c) as (fs & -> & Hfs).
  destruct fs as [fs|]; [clear Hfs | now exfalso; apply Hfs].
  set (c3 := set_imageMap (Some fs) _).
  rewrite (switchToTargetPage_pdf targetPage c3 pdf img Hpdf Hrange Himg).
  cbn [and_then].
  set (c4 := set_page img _ targetPage _ _ c3).
  assert (Hundefined : getOcrResultForCurrentPage (ocr c4) c4 = UndefinedPage).
  { unfold getOcrResultForCurrentPage.
    change (ocr c4) with (ocr c). rewrite Hocr.
    change (imageUri c4) with (Some (page_uri img)).
    destruct (page_uri img) as [|ch uri]; [contradiction |].
    rewrite Hresults. change (currentPage c4) with targetPage.
    replace (targetPage - 1 <? 0) with false by (symmetry; apply Z.ltb_ge; lia).
    destruct (nth_error results (Z.to_nat (targetPage - 1))) eqn:E; [| reflexivity].
    assert (nth_error results (Z.to_nat (targetPage - 1)) <> None) by congruence.
    apply nth_error_Some in H. lia. }
  rewrite Hundefined.
  change (imageMap (set_ocrForCurrentPage UndefinedPage c4)) with (Some fs).
  cbv iota beta. unfold drawOcr.
  cbn [imageMap ocrForCurrentPage set_imageMap set_ocrForCurrentPage and_then].
  eexists. split; [reflexivity |]. repeat split; reflexivity.
Qed.

(* ===================================================================== *)
(** * Highlighting the regions of the hovered label                       *)
(* ===================================================================== *)

Lemma createRegionId_decoded (coords : list float) (p : Z) :
  coords <> [] -> Forall prints_exactly coords ->
  createRegionIdFromBoundingBox
    (decodeRegionId (createRegionIdFromBoundingBox coords p)) p
  = createRegionIdFromBoundingBox coords p.
Proof.
  intros Hne Hexact.
  now rewrite decodeRegionId_createRegionId, map_prints_exactly' by assumption.
Qed.

Lemma find_hovered_written (r : IRegion) (rs : list IRegion) :
  In r rs ->
  createRegionIdFromBoundingBox (decodeRegionId (id r)) (pageNumber r) = id r ->
  find_hovered (id r)
    (map (fun region =>
            {| page := pageNumber region; text := value region;
               boundingBoxes := [decodeRegionId (id region)] |}) rs)
  = Some true.
Proof.
  intros Hin Hid. induction rs as [|a rs IH]; [destruct Hin |].
  cbn [map find_hovered boundingBoxes page].
  destruct (String.eqb_spec (id r)
              (createRegionIdFromBoundingBox (decodeRegionId (id a)) (pageNumber a)))
    as [_ | Hne]; [reflexivity |].
  destruct Hin as [-> | Hin]; [now rewrite Hid in Hne | now apply IH].
Qed.

(** X28. Hovering a label highlights the features of its regions: for
    label data written from the regions, a region that carries the label's
    name among its tags and whose id was made from a box that prints
    exactly has its feature highlighted by [updateHighlightStatus], with
    id and polygon unchanged. Without a hovered label no feature stays
    highlighted, and with one no highlighted feature loses its
    highlight. *)
Theorem hovered_label_highlights_its_regions (rs : list IRegion) (assetName : string)
    (l : ILabel) (r : IRegion) (coords imageExtent : list float) :
  In l (labels (convertRegionsToLabelData rs assetName)) ->
  In r rs ->
  In (label l) (tags r) ->
  coords <> [] ->
  Forall prints_exactly coords ->
  id r = createRegionIdFromBoundingBox coords (pageNumber r) ->
  updateHighlightStatus (Some l) (convertRegionToFeature r imageExtent false)
  = Some (with_highlighted true (convertRegionToFeature r imageExtent false))
  /\ (forall f, exists f',
        updateHighlightStatus None f = Some f' /\ highlighted f' = false
        /\ with_highlighted (highlighted f) f' = f)
  /\ (forall hovered f f',
        updateHighlightStatus (Some hovered) f = Some f' -> highlighted f = true ->
        f' = f).
Proof.
  intros Hl Hr Htag Hne Hexact Hid.
  split; [| split].
  - unfold convertRegionsToLabelData in Hl. cbn [labels] in Hl.
    apply in_map_iff in Hl as (fieldName & <- & _). cbn [label] in Htag.
    unfold updateHighlightStatus. cbn [label_value feature_id convertRegionToFeature].
    rewrite find_hovered_written.
    + reflexivity.
    + apply filter_In. split; [exact Hr |].
      apply bool_decide_eq_true_2. now apply list_elem_of_In.
    + rewrite Hid. now apply createRegionId_decoded.
  - intros f. unfold updateHighlightStatus, setFeatureProperty.
    destruct f as [g i t b h o]. destruct h; cbn; eexists; repeat split; reflexivity.
  - intros hovered f f'. unfold updateHighlightStatus, setFeatureProperty.
    destruct (find_hovered (feature_id f) (label_value hovered)) as [[|]|];
      [| congruence | discriminate].
    intros E Hh. rewrite Hh in E. cbn in E. congruence.
Qed.

(* ===================================================================== *)
(** * From regions to label data and back                                 *)
(* ===================================================================== *)

Lemma rebuilt_region (r : IRegion) (fieldName : string) :
  well_made r -> In fieldName (tags r) ->
  createRegion (decodeRegionId (id r))
    (getBoundingBoxTextFromRegion
       {| page := pageNumber r; text := value r;
          boundingBoxes := [decodeRegionId (id r)] |} 0)
    fieldName (pageNumber r)
  = r.
Proof.
  intros ([t Ht] & Hvalue & Hid & Hbox & Hpoints) Hin.
  rewrite Ht in Hin. destruct Hin as [<- | []].
  unfold getBoundingBoxTextFromRegion. cbv zeta. cbn [text].
  rewrite (split_without_separator " " (value r) Hvalue). cbn [List.length Nat.ltb Nat.leb nth].
  unfold createRegion. rewrite Hid, <- Hbox, <- Hpoints, <- Ht.
  destruct r as [i ty ts bb ps v p]. now destruct ty.
Qed.

(** Grouping a list by a key that every element has. *)
Lemma flat_map_app_perm {A B : Type} (f g : A -> list B) (l : list A) :
  Permutation (flat_map (fun a => f a ++ g a)%list l) (flat_map f l ++ flat_map g l).
Proof.
  induction l as [|a l IH]; [reflexivity |]. cbn [flat_map].
  rewrite IH, <- !app_assoc. apply Permutation_app_head.
  rewrite !app_assoc. apply Permutation_app_tail. apply Permutation_app_comm.
Qed.

Lemma flat_map_one_key {A : Type} (a : A) (p : string -> bool) (keys : list string)
    (k : string) :
  NoDup keys -> In k keys -> (forall k', p k' = true <-> k' = k) ->
  flat_map (fun k' => if p k' then [a] else []) keys = [a].
Proof.
  intros Hnd Hin Hp. induction keys as [|k0 keys IH]; [destruct Hin |].
  apply NoDup_cons_iff in Hnd as [Hnot Hnd]. cbn [flat_map].
  destruct (p k0) eqn:E.
  - apply Hp in E. subst k0. cbn [app]. f_equal.
    clear IH Hin. induction keys as [|k1 keys IH]; [reflexivity |].
    cbn [flat_map]. destruct (p k1) eqn:E1.
    + apply Hp in E1. subst k1. exfalso. apply Hnot. now left.
    + apply NoDup_cons_iff in Hnd as [_ Hnd]. apply IH; [| exact Hnd].
      intros Hin. apply Hnot. now right.
  - cbn [app]. destruct Hin as [-> | Hin]; [| now apply IH].
    assert (p k = true) by now apply Hp. congruence.
Qed.

Lemma grouped_by_tag (rs : list IRegion) (keys : list string) :
  NoDup keys ->
  (forall r, In r rs -> exists t, tags r = [t] /\ In t keys) ->
  Permutation
    (flat_map (fun k => List.filter (fun r => bool_decide (k ∈ tags r)) rs) keys) rs.
Proof.
  intros Hnd. induction rs as [|a rs IH]; intros Hkeys.
  - cbn [List.filter]. clear Hnd Hkeys.
    induction keys as [|k keys IHk]; [reflexivity | exact IHk].
  - destruct (Hkeys a (or_introl eq_refl)) as (t & Ht & Hin).
    assert (E : forall k, List.filter (fun r => bool_decide (k ∈ tags r)) (a :: rs)
                          = ((if String.eqb k t then [a] else [])
                             ++ List.filter (fun r => bool_decide (k ∈ tags r)) rs)%list).
    { intros k. cbn [List.filter]. rewrite Ht, single_tag_member, String.eqb_sym.
      now destruct (String.eqb k t). }
    rewrite (flat_map_ext _ _ E), flat_map_app_perm.
    rewrite (flat_map_one_key a (fun k => String.eqb k t) keys t Hnd Hin)
      by (intros k'; apply String.eqb_eq).
    cbn [app]. apply perm_skip. apply IH. intros r Hr. apply Hkeys. now right.
Qed.

(** X29. From regions to label data and back: for regions as the canvas
    makes them (one tag, a text without blank, an id that is the id of its
    own decoding, box and points computed from the id), the regions made
    from the label data written for them are these very regions, grouped
    by field name in the order the names first occur: a rearrangement of
    the list, nothing lost and nothing changed. *)
Theorem regions_round_trip (rs : list IRegion) (assetName : string) :
  Forall well_made rs ->
  convertLabelDataToRegions (convertRegionsToLabelData rs assetName)
  = flat_map
      (fun fieldName => List.filter (fun r => bool_decide (fieldName ∈ tags r)) rs)
      (JS.Set_of (map (fun r => hd EmptyString (tags r)) rs))
  /\ Permutation (convertLabelDataToRegions (convertRegionsToLabelData rs assetName)) rs.
Proof.
  intros Hall. rewrite Forall_forall in Hall.
  assert (Hnames : omap (fun name => name)
                     (JS.Set_of (map (fun region => head (tags region)) rs))
                   = JS.Set_of (map (fun r => hd EmptyString (tags r)) rs)).
  { apply fieldNames_of_single_tags. rewrite map_map. apply map_ext_in.
    intros r Hr. destruct (Hall r Hr) as ([t Ht] & _). now rewrite Ht. }
  assert (Hshape : convertLabelDataToRegions (convertRegionsToLabelData rs assetName)
                   = flat_map
                       (fun fieldName =>
                          List.filter (fun r => bool_decide (fieldName ∈ tags r)) rs)
                       (JS.Set_of (map (fun r => hd EmptyString (tags r)) rs))).
  { unfold convertLabelDataToRegions, convertRegionsToLabelData. cbn [labels].
    rewrite Hnames, flat_map_map. apply flat_map_ext. intros fieldName.
    cbn [label label_value]. rewrite flat_map_map.
    cbn [boundingBoxes page imap]. rewrite flat_map_single.
    rewrite <- (map_id (List.filter _ rs)) at 2. apply map_ext_in.
    intros r Hr. apply filter_In in Hr as [Hr Htag].
    apply bool_decide_eq_true_1, list_elem_of_In in Htag.
    now apply rebuilt_region; [apply Hall |]. }
  split; [exact Hshape |]. rewrite Hshape.
  apply grouped_by_tag; [apply Set_of_NoDup |].
  intros r Hr. destruct (Hall r Hr) as ([t Ht] & _). exists t. split; [exact Ht |].
  apply Set_of_In, in_map_iff. exists r. split; [now rewrite Ht | exact Hr].
Qed.

(* ===================================================================== *)
(** * The surface after a page turn                                       *)
(* ===================================================================== *)




End Methods.

(* ===================================================================== *)
(** * The properties at sample data                                       *)
(* ===================================================================== *)

(** C7 at the box of a word on page 2. *)
Lemma decode_encode_round_trip_witness :
  [0.1; 0.25; 0.7; 0.25; 0.7; 0.3; 0.1; 0.3]%float <> []
  /\ Forall survives_formatting [0.1; 0.25; 0.7; 0.25; 0.7; 0.3; 0.1; 0.3]%float
  /\ Forall2 numerically_equal
       (decodeRegionId
          (createRegionIdFromBoundingBox
             [0.1; 0.25; 0.7; 0.25; 0.7; 0.3; 0.1; 0.3]%float 2))
       [0.1; 0.25; 0.7; 0.25; 0.7; 0.3; 0.1; 0.3]%float.
Proof.
  assert (Hne : [0.1; 0.25; 0.7; 0.25; 0.7; 0.3; 0.1; 0.3]%float <> [])
    by discriminate.
  assert (Hfmt : Forall survives_formatting
                   [0.1; 0.25; 0.7; 0.25; 0.7; 0.3; 0.1; 0.3]%float).
  { repeat (apply Forall_cons; [vm_compute; reflexivity |]). apply Forall_nil. }
  split; [exact Hne |]. split; [exact Hfmt |].
  exact (proj2 (proj2 (decode_encode_round_trip _ 2 Hne)) Hfmt).
Defined.

(** C2 at the example of the specification: "Total" is on page 1, the
    newly selected region is on page 2. *)
Lemma applyTag_rejects_cross_page_witness :
  "Total" <> EmptyString
  /\ getSelectedRegions (sample_canvas [region_total; region_new] [id region_new]) <> []
  /\ exists pages,
       NoDup pages
       /\ (forall p, In p pages
             <-> exists r,
                   In r (tag_candidates "Total"
                           (sample_canvas [region_total; region_new] [id region_new]))
                   /\ pageNumber r = p)
       /\ applyTag insertion_sort percent_decode "Total"
            (sample_canvas [region_total; region_new] [id region_new])
          = set_error (multiPageFieldWarning "Total" (Z.of_nat (List.length pages)))
              (sample_canvas [region_total; region_new] [id region_new])
       /\ regions (applyTag insertion_sort percent_decode "Total"
                     (sample_canvas [region_total; region_new] [id region_new]))
          = [region_total; region_new]
       /\ selectedRegionIds
            (applyTag insertion_sort percent_decode "Total"
               (sample_canvas [region_total; region_new] [id region_new]))
          = [id region_new]
       /\ isError (applyTag insertion_sort percent_decode "Total"
                     (sample_canvas [region_total; region_new] [id region_new]))
          = true
       /\ errorMessage
            (applyTag insertion_sort percent_decode "Total"
               (sample_canvas [region_total; region_new] [id region_new]))
          = Some ("Sorry, we don't support cross-page regions with the same tag."
                  ++ " You have regions with tag "
                  ++ String "034" "Total" ++ String "034" " across "
                  ++ JS.integerToString (Z.of_nat (List.length pages)) ++ " pages.")
       /\ JS.digits_value (JS.integerToString (Z.of_nat (List.length pages)))
          = Z.of_nat (List.length pages)
       /\ errorMessage
            (applyTag insertion_sort percent_decode "Total"
               (sample_canvas [region_total; region_new] [id region_new]))
          = Some ("Sorry, we don't support cross-page regions with the same tag."
                  ++ " You have regions with tag "
                  ++ String "034" "Total" ++ String "034" " across 2 pages.").
Proof.
  assert (Htag : "Total" <> EmptyString) by discriminate.
  assert (Hsel : getSelectedRegions
                   (sample_canvas [region_total; region_new] [id region_new]) <> [])
    by (vm_compute; discriminate).
  split; [exact Htag |]. split; [exact Hsel |].
  destruct (proj1 (applyTag_rejects_cross_page insertion_sort percent_decode
                     "Total" _ Htag Hsel))
    as (pages & Hnd & Hpages & Hstate & Hregions & Hids & Herr & Hmsg & Hcount).
  { exists region_total, region_new.
    split; [vm_compute; now left |]. split; [vm_compute; right; now left |].
    vm_compute. discriminate. }
  exists pages.
  split; [exact Hnd |]. split; [exact Hpages |]. split; [exact Hstate |].
  split; [exact Hregions |]. split; [exact Hids |]. split; [exact Herr |].
  split; [exact Hmsg |]. split; [exact Hcount |].
  vm_compute. reflexivity.
Defined.

(** C3 at label data of two fields and three boxes. *)
Lemma label_data_round_trip_witness :
  well_formed_boxes sample_labelData
  /\ (forall field,
         Forall2 entry_close
           (field_entries field
              (labels (convertRegionsToLabelData percent_decode
                         (convertLabelDataToRegions sample_labelData)
                         "forms/invoice%201.jpg")))
           (field_entries field (labels sample_labelData)))
  /\ map label
       (labels (convertRegionsToLabelData percent_decode
                  (convertLabelDataToRegions sample_labelData)
                  "forms/invoice%201.jpg"))
     = ["Total"; "Vendor"].
Proof.
  assert (Hwf : well_formed_boxes sample_labelData).
  { unfold well_formed_boxes.
    repeat (apply Forall_cons;
            [split; [discriminate |];
             repeat (apply Forall_cons; [vm_compute; reflexivity |]); apply Forall_nil |]).
    apply Forall_nil. }
  split; [exact Hwf |].
  destruct (label_data_round_trip percent_decode sample_labelData
              "forms/invoice%201.jpg" Hwf) as (Hboxes & Hnames & _ & _).
  split; [exact Hboxes |].
  rewrite Hnames. reflexivity.
Defined.

(** C3 fails on a label without a box: it has well-formed boxes (it has
    none), and its field name is not written back. *)
Lemma label_without_box_is_dropped :
  well_formed_boxes boxless_labelData
  /\ In "Total" (map label (labels boxless_labelData))
  /\ ~ In "Total"
         (map label
            (labels (convertRegionsToLabelData percent_decode
                       (convertLabelDataToRegions boxless_labelData)
                       "forms/invoice%201.jpg"))).
Proof.
  split; [apply Forall_nil |]. split; [now left |].
  vm_compute. intros [].
Qed.

(** C4 at the line ["___", "Paid", "$10"]: "Paid" has rank 0, "$10" has
    rank 1, "___" is absent. *)
Lemma buildRegionOrders_ranks_witness :
  exists c' index,
    buildRegionOrders sample_ocr_canvas = Completed c'
    /\ page_index (regionOrders c') 0 = Some index
    /\ index !! word_id (getImageExtent sample_ocr_canvas) sample_ocr_page word_paid
       = Some 0
    /\ index !! word_id (getImageExtent sample_ocr_canvas) sample_ocr_page word_amount
       = Some 1
    /\ index !! word_id (getImageExtent sample_ocr_canvas) sample_ocr_page word_blank
       = None.
Proof.
  destruct (proj1 (buildRegionOrders_ranks sample_ocr_canvas sample_ocr
                     [] [] sample_ocr_page eq_refl
                     ltac:(discriminate) eq_refl (fun H : False => H)
                     ltac:(reflexivity || (vm_compute; discriminate))))
    as (c' & index & Hbuilt & Hslot & Hlast & Habsent & _).
  exists c', index.
  split; [exact Hbuilt |]. split; [exact Hslot |].
  split.
  { apply (Hlast [] word_paid [word_amount] eq_refl).
    vm_compute. intros [E | []]. discriminate E. }
  split; [exact (Hlast [word_paid] word_amount [] eq_refl (fun H : False => H)) |].
  apply Habsent. vm_compute. intros [E | [E | []]]; discriminate E.
Defined.

(** C4 refuted as stated: on a page whose third word is printed over the
    box of the first, the first displayed word is not ranked 0 (the
    number of displayed words before it) but 2, and no id of the page has
    rank 0. *)
Lemma buildRegionOrders_repeated_box :
  word_id (getImageExtent sample_overprint_canvas) sample_overprint_page word_stamp
  = word_id (getImageExtent sample_overprint_canvas) sample_overprint_page word_paid
  /\ exists c' index,
    buildRegionOrders sample_overprint_canvas = Completed c'
    /\ page_index (regionOrders c') 0 = Some index
    /\ page_words sample_overprint_page = [word_paid; word_amount; word_stamp]
    /\ displayed_count [] = 0
    /\ index !! word_id (getImageExtent sample_overprint_canvas)
                  sample_overprint_page word_paid = Some 2
    /\ index !! word_id (getImageExtent sample_overprint_canvas)
                  sample_overprint_page word_amount = Some 1
    /\ forall k, index !! k <> Some 0.
Proof.
  split; [reflexivity |].
  set (paid := word_id (getImageExtent sample_overprint_canvas)
                 sample_overprint_page word_paid).
  set (amount := word_id (getImageExtent sample_overprint_canvas)
                   sample_overprint_page word_amount).
  exists (set_regionOrders
            [Some (<[paid := 2]> (<[amount := 1]> (<[paid := 0]> ∅)))]
            sample_overprint_canvas),
         (<[paid := 2]> (<[amount := 1]> (<[paid := 0]> ∅))).
  split; [reflexivity |]. split; [reflexivity |]. split; [reflexivity |].
  split; [reflexivity |].
  split; [apply lookup_insert_eq |].
  assert (Hne : paid <> amount) by (vm_compute; discriminate).
  split.
  { rewrite lookup_insert_ne by exact Hne. apply lookup_insert_eq. }
  intros k.
  destruct (decide (k = paid)) as [-> | Hp];
    [rewrite lookup_insert_eq; discriminate |].
  rewrite lookup_insert_ne by congruence.
  destruct (decide (k = amount)) as [-> | Ha];
    [rewrite lookup_insert_eq; discriminate |].
  rewrite !lookup_insert_ne by congruence.
  rewrite lookup_empty. discriminate.
Qed.

(** C5 on an index of three pages: a region of page 3 sorts after a
    region of page 1, two regions of page 1 sort by rank, and a region no
    page holds takes the place of page 1, rank 0. *)
Lemma compareRegionOrder_by_page_then_order_witness :
  getRegionOrder sample_indexed_canvas "d:2" = {| order_page := 1; order := 0 |}
  /\ getRegionOrder sample_indexed_canvas "c:3" = {| order_page := 3; order := 0 |}
  /\ compareRegionOrder sample_indexed_canvas
       (sample_region "c:3" [] 3) (sample_region "b:1" [] 1) = 1
  /\ compareRegionOrder sample_indexed_canvas
       (sample_region "a:1" [] 1) (sample_region "b:1" [] 1) = -1.
Proof.
  destruct (compareRegionOrder_by_page_then_order sample_indexed_canvas
              (sample_region "c:3" [] 3) (sample_region "b:1" [] 1))
    as (Habsent & Hfirst & Hcompare).
  split.
  { apply Habsent. intros i m Hi.
    destruct i as [|[|[|i]]]; try discriminate Hi;
      injection Hi as <-; vm_compute; reflexivity. }
  split.
  { apply (Hfirst "c:3" 2%nat (<["c:3" := 0]> ∅) 0); [reflexivity | reflexivity |].
    intros j m' Hj Hpj.
    destruct j as [|[|j]]; try lia; try discriminate Hpj.
    injection Hpj as <-. vm_compute. reflexivity. }
  split; [rewrite Hcompare; vm_compute; reflexivity |].
  rewrite (proj2 (proj2 (compareRegionOrder_by_page_then_order sample_indexed_canvas
                           (sample_region "a:1" [] 1) (sample_region "b:1" [] 1)))).
  vm_compute. reflexivity.
Defined.

(** C9 where no two regions have the same page and rank, under the sort
    that turns ties round: an untagged region of page 1 is selected beside
    a region already tagged "Total", tagged, selected again and tagged
    again; the region list and the label data are those of the first
    application. *)
Lemma applyTag_idempotent_witness :
  applyTag insertion_sort_ahead percent_decode "Total"
    (applyTag insertion_sort_ahead percent_decode "Total" sample_ranked_canvas)
  = applyTag insertion_sort_ahead percent_decode "Total" sample_ranked_canvas
  /\ regions
       (applyTag insertion_sort_ahead percent_decode "Total"
          (set_selectedRegionIds [id region_draft]
             (applyTag insertion_sort_ahead percent_decode "Total"
                sample_ranked_canvas)))
     = regions (applyTag insertion_sort_ahead percent_decode "Total" sample_ranked_canvas)
  /\ labelData
       (applyTag insertion_sort_ahead percent_decode "Total"
          (set_selectedRegionIds [id region_draft]
             (applyTag insertion_sort_ahead percent_decode "Total"
                sample_ranked_canvas)))
     = labelData (applyTag insertion_sort_ahead percent_decode "Total"
                    sample_ranked_canvas)
  /\ regions (applyTag insertion_sort_ahead percent_decode "Total" sample_ranked_canvas)
     = [with_tags ["Total"] region_draft; region_total].
Proof.
  destruct (applyTag_idempotent insertion_sort_ahead percent_decode "Total"
              sample_ranked_canvas)
    as (Htwice & _ & _ & Hsame).
  assert (Hnd : NoDup (map (fun r => getRegionOrder sample_ranked_canvas (id r))
                         (regions sample_ranked_canvas))).
  { vm_compute. repeat constructor; cbn; intuition discriminate. }
  destruct (Hsame insertion_sort_ahead_perm
              (insertion_sort_ahead_ascending sample_ranked_canvas) Hnd)
    as [Hregions Hlabels].
  split; [exact Htwice |]. split; [exact Hregions |]. split; [exact Hlabels |].
  vm_compute. reflexivity.
Defined.

(** C9 refuted as stated: two regions of page 1 outside the order index
    have one key (page 1, rank 0), and the sort that turns ties round
    leaves them in one order after the first application and in the
    other after the second, applied to the same selection; the label
    data, written from the list, differ with it. *)
Lemma applyTag_reorders_equal_keys :
  compareRegionOrder (sample_canvas [region_draft; region_total] [id region_draft])
    region_draft region_total = -1
  /\ compareRegionOrder (sample_canvas [region_draft; region_total] [id region_draft])
       region_total region_draft = -1
  /\ regions
       (applyTag insertion_sort_ahead percent_decode "Total"
          (sample_canvas [region_draft; region_total] [id region_draft]))
     = [region_total; with_tags ["Total"] region_draft]
  /\ regions
       (applyTag insertion_sort_ahead percent_decode "Total"
          (set_selectedRegionIds [id region_draft]
             (applyTag insertion_sort_ahead percent_decode "Total"
                (sample_canvas [region_draft; region_total] [id region_draft]))))
     = [with_tags ["Total"] region_draft; region_total]
  /\ labelData
       (applyTag insertion_sort_ahead percent_decode "Total"
          (set_selectedRegionIds [id region_draft]
             (applyTag insertion_sort_ahead percent_decode "Total"
                (sample_canvas [region_draft; region_total] [id region_draft]))))
     <> labelData
          (applyTag insertion_sort_ahead percent_decode "Total"
             (sample_canvas [region_draft; region_total] [id region_draft])).
Proof.
  split; [vm_compute; reflexivity |]. split; [vm_compute; reflexivity |].
  split; [vm_compute; reflexivity |]. split; [vm_compute; reflexivity |].
  vm_compute. intros E. discriminate E.
Qed.

(* ===================================================================== *)
(** * The further properties at sample data                               *)
(* ===================================================================== *)

(** The region "draft" tagged "Vendor". *)
Lemma addRegionsToAsset_keeps_ids_unique_witness :
  NoDup (map id (regions (sample_canvas [region_total; region_draft] [])))
  /\ NoDup (map id [sample_region (id region_draft) ["Vendor"] 1; region_vendor])
  /\ NoDup (map id (regions (addRegionsToAsset percent_decode
                               [sample_region (id region_draft) ["Vendor"] 1; region_vendor]
                               (sample_canvas [region_total; region_draft] []))))
  /\ ~ In region_draft
         (regions (addRegionsToAsset percent_decode
                     [sample_region (id region_draft) ["Vendor"] 1; region_vendor]
                     (sample_canvas [region_total; region_draft] []))).
Proof.
  assert (H1 : NoDup (map id (regions (sample_canvas [region_total; region_draft] [])))).
  { vm_compute. repeat constructor; cbn; intuition discriminate. }
  assert (H2 : NoDup (map id [sample_region (id region_draft) ["Vendor"] 1; region_vendor])).
  { vm_compute. repeat constructor; cbn; intuition discriminate. }
  split; [exact H1 |]. split; [exact H2 |].
  destruct (addRegionsToAsset_keeps_ids_unique percent_decode _ _ H1 H2)
    as (Hnd & _ & _ & Hfrom).
  split; [exact Hnd |].
  intros Hin. apply Hfrom in Hin as [[E | [E | []]] | [_ E]]; discriminate E.
Defined.

(** Two regions selected, one of them taken out of the selection. *)
Lemma deleteRegionsFromSelectedRegionIds_removes_ids_witness :
  NoDup (selectedRegionIds
           (sample_canvas [region_total; region_draft] [id region_draft; id region_total]))
  /\ deleteRegionsFromSelectedRegionIds [region_draft]
       (sample_canvas [region_total; region_draft] [id region_draft; id region_total])
     = sample_canvas [region_total; region_draft] [id region_total].
Proof.
  assert (H : NoDup (selectedRegionIds
                       (sample_canvas [region_total; region_draft]
                          [id region_draft; id region_total]))).
  { vm_compute. repeat constructor; cbn; intuition discriminate. }
  split; [exact H |].
  exact (deleteRegionsFromSelectedRegionIds_removes_ids [region_draft] _ H).
Defined.

(** Toggling the selected untagged region of a sound selection. *)
Lemma handleFeatureSelect_keeps_selection_sound_witness :
  selection_sound (sample_canvas [region_total; region_draft] [id region_draft])
  /\ selection_sound
       (handleFeatureSelect percent_decode
          (convertRegionToFeature region_draft [0; 0; 1000; 2000]%float false) true
          (sample_canvas [region_total; region_draft] [id region_draft])).
Proof.
  assert (H : selection_sound (sample_canvas [region_total; region_draft] [id region_draft])).
  { split.
    - vm_compute. repeat constructor; cbn; intuition discriminate.
    - intros i [<- | []]. vm_compute. reflexivity. }
  split; [exact H |].
  exact (handleFeatureSelect_keeps_selection_sound percent_decode _ true _ H).
Defined.

(** Both regions selected in the asset's order; the untagged one is
    toggled and leaves the asset, the tagged one stays selected. *)
Lemma toggle_deselects_and_prunes_witness :
  selection_aligned
    (sample_canvas [region_total; region_draft] [id region_total; id region_draft])
  /\ selectedRegionIds
       (handleFeatureSelect percent_decode
          (convertRegionToFeature region_draft [0; 0; 1000; 2000]%float false) true
          (sample_canvas [region_total; region_draft] [id region_total; id region_draft]))
     = [id region_total]
  /\ regions
       (handleFeatureSelect percent_decode
          (convertRegionToFeature region_draft [0; 0; 1000; 2000]%float false) true
          (sample_canvas [region_total; region_draft] [id region_total; id region_draft]))
     = [region_total].
Proof.
  assert (H : selection_aligned
                (sample_canvas [region_total; region_draft]
                   [id region_total; id region_draft])).
  { split.
    - vm_compute. repeat constructor; cbn; intuition discriminate.
    - vm_compute. reflexivity. }
  split; [exact H |].
  destruct (toggle_deselects_and_prunes percent_decode
              (convertRegionToFeature region_draft [0; 0; 1000; 2000]%float false)
              _ H ltac:(vm_compute; right; left; reflexivity))
    as (Hids & Hregions & _).
  split; [exact Hids | exact Hregions].
Defined.

(** The OCR proposal of the word "Paid", clicked twice beside a tagged
    region. *)
Lemma select_then_toggle_restores_witness :
  selection_aligned (sample_canvas [region_total] [])
  /\ regions
       (handleFeatureSelect percent_decode
          (createBoundingBoxVectorFeature "Paid" (word_boundingBox word_paid)
             [0; 0; 1000; 2000]%float [0; 0; 1700; 2200]%float 1) true
          (handleFeatureSelect percent_decode
             (createBoundingBoxVectorFeature "Paid" (word_boundingBox word_paid)
                [0; 0; 1000; 2000]%float [0; 0; 1700; 2200]%float 1) true
             (sample_canvas [region_total] [])))
     = [region_total]
  /\ selectedRegionIds
       (handleFeatureSelect percent_decode
          (createBoundingBoxVectorFeature "Paid" (word_boundingBox word_paid)
             [0; 0; 1000; 2000]%float [0; 0; 1700; 2200]%float 1) true
          (handleFeatureSelect percent_decode
             (createBoundingBoxVectorFeature "Paid" (word_boundingBox word_paid)
                [0; 0; 1000; 2000]%float [0; 0; 1700; 2200]%float 1) true
             (sample_canvas [region_total] [])))
     = [].
Proof.
  assert (H : selection_aligned (sample_canvas [region_total] [])).
  { split; [constructor | reflexivity]. }
  split; [exact H |].
  destruct (select_then_toggle_restores percent_decode
              (createBoundingBoxVectorFeature "Paid" (word_boundingBox word_paid)
                 [0; 0; 1000; 2000]%float [0; 0; 1700; 2200]%float 1)
              _ H ltac:(vm_compute; reflexivity) ltac:(vm_compute; discriminate))
    as (_ & _ & Hregions & Hids).
  split; [exact Hregions | exact Hids].
Defined.

(** Page 2 of a PDF is asked for while an untagged region is selected
    beside an untagged region that is not: only the second is left. *)
Lemma goToPage_discards_untagged_selection_witness :
  In (sample_region "0.7,0.7,0.8,0.7,0.8,0.8,0.7,0.8:1" [] 1)
     (regions (state_of
                 (goToPage percent_decode 2
                    (sample_pdf_canvas
                       [region_draft; sample_region "0.7,0.7,0.8,0.7,0.8,0.8,0.7,0.8:1" [] 1]
                       [id region_draft]))))
  /\ isSelectedRegion
       (sample_pdf_canvas
          [region_draft; sample_region "0.7,0.7,0.8,0.7,0.8,0.8,0.7,0.8:1" [] 1]
          [id region_draft])
       (sample_region "0.7,0.7,0.8,0.7,0.8,0.8,0.7,0.8:1" [] 1)
     = false.
Proof.
  assert (H : In (sample_region "0.7,0.7,0.8,0.7,0.8,0.8,0.7,0.8:1" [] 1)
                (regions (state_of
                            (goToPage percent_decode 2
                               (sample_pdf_canvas
                                  [region_draft;
                                   sample_region "0.7,0.7,0.8,0.7,0.8,0.8,0.7,0.8:1" [] 1]
                                  [id region_draft]))))).
  { vm_compute. left. reflexivity. }
  split; [exact H |].
  exact (proj2 (goToPage_discards_untagged_selection percent_decode 2 _ _ H eq_refl)).
Defined.

(** Page 2 of the two-page PDF. *)
Lemma goToPage_shows_the_pdf_page_witness :
  exists c',
    goToPage percent_decode 2 (sample_pdf_canvas [region_total] []) = Completed c'
    /\ currentPage c' = 2
    /\ numPages c' = 2
    /\ imageUri c' = Some (page_uri sample_page_2).
Proof.
  destruct (goToPage_shows_the_pdf_page percent_decode 2
              (sample_pdf_canvas [region_total] []) [sample_page_1; sample_page_2]
              eq_refl ltac:(discriminate) ltac:(cbn; lia)
              ltac:(intros o rs Ho; discriminate Ho))
    as (c' & img & Hgo & Himg & Hcur & Hnum & Huri & _).
  exists c'. split; [exact Hgo |]. split; [exact Hcur |]. split; [exact Hnum |].
  rewrite Huri. injection Himg as <-. reflexivity.
Defined.

(** The two-page PDF showing page 1: the right arrow turns to page 2, the
    left arrow does nothing, and only the Next button is displayed. *)
Lemma arrow_keys_stay_inside_the_document_witness :
  (exists c', handleKeyDown percent_decode "ArrowRight" (sample_pdf_canvas [region_total] [])
              = Completed c'
              /\ currentPage c' = 2)
  /\ handleKeyDown percent_decode "ArrowLeft" (sample_pdf_canvas [region_total] [])
     = Completed (sample_pdf_canvas [region_total] [])
  /\ shouldShowNextPageButton (sample_pdf_canvas [region_total] []) = true.
Proof.
  destruct (arrow_keys_stay_inside_the_document percent_decode
              (sample_pdf_canvas [region_total] []) [sample_page_1; sample_page_2]
              eq_refl eq_refl ltac:(discriminate) ltac:(cbn; lia)
              ltac:(intros o rs Ho; discriminate Ho))
    as (Hright & _ & _ & Hleft & _ & _ & Hnext & _).
  split.
  - destruct (Hright ltac:(cbn; lia)) as (c' & Hgo & Hcur & _).
    exists c'. split; [exact Hgo | exact Hcur].
  - split; [exact (Hleft eq_refl) |]. apply Hnext. cbn. lia.
Defined.

(** The boxes [0] and [-0] of page 1 are given the same id: both print
    as "0". *)
Lemma createRegionIdFromBoundingBox_injective_witness :
  createRegionIdFromBoundingBox [0%float] 1
  = createRegionIdFromBoundingBox [(-0)%float] 1
  /\ map JS.numberToString [0%float] = map JS.numberToString [(-0)%float].
Proof.
  assert (H : createRegionIdFromBoundingBox [0%float] 1
              = createRegionIdFromBoundingBox [(-0)%float] 1)
    by (vm_compute; reflexivity).
  split; [exact H |].
  exact (proj1 (proj2 (createRegionIdFromBoundingBox_injective _ _ _ _ H))).
Defined.

(** The value "Contoso Ltd" over two boxes, and a third box. *)
Lemma getBoundingBoxTextFromRegion_words_witness :
  getBoundingBoxTextFromRegion
    {| page := 2; text := "Contoso Ltd"; boundingBoxes := [] |} 1 = "Ltd"
  /\ getBoundingBoxTextFromRegion
       {| page := 2; text := "Contoso Ltd"; boundingBoxes := [] |} 2 = "".
Proof.
  destruct (getBoundingBoxTextFromRegion_words
              {| page := 2; text := "Contoso Ltd"; boundingBoxes := [] |}
              ["Contoso"; "Ltd"] ltac:(discriminate)
              ltac:(repeat constructor) eq_refl) as [Hword _].
  split; [exact (Hword 1%nat) | exact (Hword 2%nat)].
Defined.

(** The word "Paid" of the sample OCR page on the 1000 x 2000 image. *)
Lemma region_feature_matches_proposal_witness :
  geometry
    (convertRegionToFeature
       (sample_region
          (feature_id
             (createBoundingBoxVectorFeature "Paid" (word_boundingBox word_paid)
                [0; 0; 1000; 2000]%float [0; 0; 1700; 2200]%float 1)) [] 1)
       [0; 0; 1000; 2000]%float false)
  = [(250, 1800); (350, 1800); (350, 1750); (250, 1750)]%float.
Proof.
  rewrite (region_feature_matches_proposal "Paid" (word_boundingBox word_paid)
             [0; 0; 1000; 2000]%float [0; 0; 1700; 2200]%float 1
             (sample_region
                (feature_id
                   (createBoundingBoxVectorFeature "Paid" (word_boundingBox word_paid)
                      [0; 0; 1000; 2000]%float [0; 0; 1700; 2200]%float 1)) [] 1)
             false
             ltac:(discriminate)
             ltac:(repeat (apply Forall_cons; [vm_compute; reflexivity |]); apply Forall_nil)
             eq_refl).
  vm_compute. reflexivity.
Defined.

(** The sample OCR page: "Paid" and "$10" are drawn and indexed. *)
Lemma drawn_proposals_are_indexed_witness :
  exists c1 c2,
    buildRegionOrders sample_ocr_canvas = Completed c1
    /\ drawOcr sample_ocr_canvas = Completed c2
    /\ option_map (map feature_text) (imageMap c2) = Some ["Paid"; "$10"]
    /\ is_Some (find_order (word_id (getImageExtent sample_ocr_canvas) sample_ocr_page word_paid)
                  0 (regionOrders c1)).
Proof.
  destruct (drawn_proposals_are_indexed sample_ocr_canvas sample_ocr
              [sample_ocr_page] sample_ocr_page [] eq_refl eq_refl eq_refl eq_refl
              (or_introl eq_refl)
              ltac:(repeat constructor; intros [])
              ltac:(vm_compute; discriminate))
    as (c1 & c2 & Hbuild & Hdraw & Hmap & Hindexed).
  exists c1, c2. split; [exact Hbuild |]. split; [exact Hdraw |]. split.
  - rewrite Hmap. vm_compute. reflexivity.
  - apply Hindexed; [right; left; reflexivity | reflexivity].
Defined.

(** "Total" applied to an untagged region of page 1 beside a region
    tagged "Total" on page 1, with the reference sort. *)
Lemma applyTag_keeps_one_page_per_tag_witness :
  one_page_per_tag (regions (sample_canvas [region_draft; region_total] [id region_draft]))
  /\ one_page_per_tag
       (regions (applyTag insertion_sort percent_decode "Total"
                   (sample_canvas [region_draft; region_total] [id region_draft]))).
Proof.
  assert (H : one_page_per_tag
                (regions (sample_canvas [region_draft; region_total] [id region_draft]))).
  { intros r1 r2 t H1 H2 _ _.
    destruct H1 as [<- | [<- | []]]; destruct H2 as [<- | [<- | []]]; reflexivity. }
  split; [exact H |].
  exact (applyTag_keeps_one_page_per_tag insertion_sort percent_decode "Total" _
           insertion_sort_perm H).
Defined.

(** Page 2 of the PDF is asked for while the untagged region is selected. *)
Lemma goToPage_clears_the_selection_witness :
  selection_sound (sample_pdf_canvas [region_total; region_draft] [id region_draft])
  /\ selectedRegionIds
       (state_of (goToPage percent_decode 2
                    (sample_pdf_canvas [region_total; region_draft] [id region_draft])))
     = [].
Proof.
  assert (H : selection_sound
                (sample_pdf_canvas [region_total; region_draft] [id region_draft])).
  { split.
    - vm_compute. repeat constructor; cbn; intuition discriminate.
    - intros i [<- | []]. vm_compute. reflexivity. }
  split; [exact H |].
  apply (goToPage_clears_the_selection percent_decode 2 _ H).
  intros [E | []]. discriminate E.
Defined.

(** Three regions are added to a surface that shows the first of them;
    the third is on page 2: one feature is added, for the second. *)
Lemma addRegions_draws_each_id_once_witness :
  exists added,
    imageMap (addRegions percent_decode [region_total; region_draft; region_new]
                (sample_canvas [region_total] []))
    = Some ([convertRegionToFeature region_total [0; 0; 1000; 2000]%float false] ++ added)%list
    /\ map feature_id added = [id region_draft].
Proof.
  destruct (addRegions_draws_each_id_once percent_decode
              [region_total; region_draft; region_new]
              (sample_canvas [region_total] [])
              [convertRegionToFeature region_total [0; 0; 1000; 2000]%float false]
              eq_refl
              ltac:(repeat constructor; intros [])
              ltac:(vm_compute; repeat constructor; cbn; intuition discriminate))
    as (added & Hmap & _ & Hadded).
  exists added. split; [exact Hmap |]. rewrite Hadded. vm_compute. reflexivity.
Defined.

(** Page 2 of a TIFF of two decoded pages. *)
Lemma goToPage_shows_the_tiff_page_witness :
  exists c',
    goToPage percent_decode 2 (sample_tiff_canvas [region_total] []) = Completed c'
    /\ currentPage c' = 2
    /\ numPages c' = 2
    /\ imageUri c' = Some (page_uri sample_page_2).
Proof.
  destruct (goToPage_shows_the_tiff_page percent_decode 2
              (sample_tiff_canvas [region_total] [])
              eq_refl ltac:(discriminate) ltac:(cbn; lia)
              ltac:(intros o rs Ho; discriminate Ho))
    as (c' & img & Hgo & Himg & Hcur & Hnum & Huri & _).
  exists c'. split; [exact Hgo |]. split; [exact Hcur |]. split; [exact Hnum |].
  rewrite Huri. injection Himg as <-. reflexivity.
Defined.

(** "Total" applied to the selected untagged region of page 1, with the
    reference sort: the label "Total" holds an entry for it. *)
Lemma applyTag_writes_the_label_witness :
  exists ld l,
    labelData (applyTag insertion_sort percent_decode "Total"
                 (sample_canvas [region_draft; region_total] [id region_draft]))
    = Some ld
    /\ In l (labels ld)
    /\ label l = "Total"
    /\ In {| page := 1; text := "text";
             boundingBoxes := [[0.5; 0.5; 0.6; 0.5; 0.6; 0.6; 0.5; 0.6]%float] |}
          (label_value l).
Proof.
  destruct (applyTag_writes_the_label insertion_sort percent_decode "Total"
              (sample_canvas [region_draft; region_total] [id region_draft])
              insertion_sort_perm ltac:(discriminate)
              ltac:(vm_compute; discriminate) ltac:(vm_compute; discriminate))
    as (ld & l & Hld & Hl & Hname & Hentries).
  exists ld, l. split; [exact Hld |]. split; [exact Hl |]. split; [exact Hname |].
  assert (Hsel : In region_draft
                   (getSelectedRegions
                      (sample_canvas [region_draft; region_total] [id region_draft])))
    by (vm_compute; left; reflexivity).
  apply Hentries in Hsel.
  assert (E : {| page := pageNumber region_draft; text := value region_draft;
                 boundingBoxes := [decodeRegionId (id region_draft)] |}
              = {| page := 1; text := "text";
                   boundingBoxes := [[0.5; 0.5; 0.6; 0.5; 0.6; 0.6; 0.5; 0.6]%float] |})
    by (vm_compute; reflexivity).
  rewrite <- E. exact Hsel.
Defined.

(** A box in normalised coordinates. *)
Lemma convertToRegionBoundingBox_of_rectangle_witness :
  convertToRegionBoundingBox [0.25; 0.125; 0.5; 0.125; 0.5; 0.25; 0.25; 0.25]%float
  = {| left := 0.25; top := 0.125; width := 0.25; height := 0.125 |}%float.
Proof.
  rewrite (proj1 (convertToRegionBoundingBox_of_rectangle 0.25 0.125 0.5 0.25
                    ltac:(vm_compute; reflexivity) ltac:(vm_compute; reflexivity))).
  vm_compute. reflexivity.
Defined.

(** The sample OCR answer covers page 1 only; page 2 of the PDF is asked
    for. *)
Lemma goToPage_throws_without_ocr_page_witness :
  exists c',
    goToPage percent_decode 2 sample_pdf_ocr_canvas = Threw c'
    /\ currentPage c' = 2
    /\ ocrForCurrentPage c' = UndefinedPage
    /\ imageMap c' = Some [].
Proof.
  destruct (goToPage_throws_without_ocr_page percent_decode 2 sample_pdf_ocr_canvas
              [sample_page_1; sample_page_2] sample_page_2 sample_ocr [sample_ocr_page]
              eq_refl ltac:(discriminate) ltac:(cbn; lia) eq_refl ltac:(discriminate)
              eq_refl eq_refl ltac:(cbn; lia))
    as (c' & Hgo & Hcur & _ & Hocr & Hmap & _).
  exists c'. repeat split; assumption.
Defined.

(** The label "Total" written for the sample region is hovered. *)
Lemma hovered_label_highlights_its_regions_witness :
  exists l,
    In l (labels (convertRegionsToLabelData percent_decode [region_draft; region_total]
                    "forms/invoice%201.jpg"))
    /\ label l = "Total"
    /\ option_map highlighted
         (updateHighlightStatus (Some l)
            (convertRegionToFeature region_total [0; 0; 1000; 2000]%float false))
       = Some true.
Proof.
  assert (Hl : In {| label := "Total"; key := None;
                     label_value :=
                       [ {| page := 1; text := "text";
                            boundingBoxes := [decodeRegionId (id region_total)] |} ] |}
                  (labels (convertRegionsToLabelData percent_decode
                             [region_draft; region_total] "forms/invoice%201.jpg")))
    by (vm_compute; left; reflexivity).
  eexists. split; [exact Hl |]. split; [reflexivity |].
  rewrite (proj1 (hovered_label_highlights_its_regions percent_decode
                    [region_draft; region_total] "forms/invoice%201.jpg" _ region_total
                    [0.1; 0.1; 0.2; 0.1; 0.2; 0.2; 0.1; 0.2]%float
                    [0; 0; 1000; 2000]%float Hl
                    ltac:(right; left; reflexivity) ltac:(left; reflexivity)
                    ltac:(discriminate)
                    ltac:(repeat (apply Forall_cons; [vm_compute; reflexivity |]);
                          apply Forall_nil)
                    ltac:(vm_compute; reflexivity))).
  reflexivity.
Defined.

(** Three regions as the canvas makes them, of two fields. *)
Lemma regions_round_trip_witness :
  Forall well_made
    [region_total; region_vendor; sample_region "0.3,0.3,0.4,0.3,0.4,0.4,0.3,0.4:2" ["Total"] 2]
  /\ convertLabelDataToRegions
       (convertRegionsToLabelData percent_decode
          [region_total; region_vendor;
           sample_region "0.3,0.3,0.4,0.3,0.4,0.4,0.3,0.4:2" ["Total"] 2]
          "forms/invoice%201.jpg")
     = [region_total; sample_region "0.3,0.3,0.4,0.3,0.4,0.4,0.3,0.4:2" ["Total"] 2;
        region_vendor].
Proof.
  assert (H : Forall well_made
                [region_total; region_vendor;
                 sample_region "0.3,0.3,0.4,0.3,0.4,0.4,0.3,0.4:2" ["Total"] 2]).
  { repeat (apply Forall_cons;
            [split; [eexists; reflexivity |];
             split; [reflexivity |];
             split; [vm_compute; reflexivity |];
             split; reflexivity |]).
    apply Forall_nil. }
  split; [exact H |].
  rewrite (proj1 (regions_round_trip percent_decode _ "forms/invoice%201.jpg" H)).
  reflexivity.
Defined.

